(** * tpf-score-bot: score parsing, scoring, match lifecycle and prediction registry

    A shallow embedding of the two variants of the bot found in the
    repository:

    - the baseline variant, [src/bot.ts] with [src/db.ts];
    - the advanced variant (comments, statistics, leaderboard, match editing,
      export and cancellation), a second [bot.ts] with its own [db.ts].

    Modelling conventions.

    - A JavaScript number that holds runs, wickets or a distance is a
      [JS.number]: an integer-valued double, [Infinity], [-Infinity] or
      [NaN].  Every number the program computes from a score is of this
      kind: [parseInt] yields one, and differences, absolute values,
      products and sums of such numbers are rounded to the nearest double
      again ([JS.ofZ]).  The sign of zero is not observable in the program
      and is not modelled.
    - A JavaScript string is modelled by its UTF-8 encoding, a [string] of
      bytes; this is also the form in which SQLite stores and compares
      TEXT.
    - A table is the list of its rows in storage order.  A SELECT on
      [predictions] with [WHERE matchId = ?] is answered from the index of
      the primary key [(matchId, userId)] and enumerates the rows in
      ascending [userId]; [ORDER BY] keeps rows that compare equal in
      storage order.
    - The process-wide [currentMatch] variable and the database are threaded
      explicitly through the command handler as a [State]. *)

From Stdlib Require Import ZArith List String Ascii Bool Lia QArith DecimalString.
From Stdlib Require Import Sorted Permutation.
From Stdlib Require OrderedTypeEx DecimalPos DecimalZ.
Import ListNotations.

Local Open Scope string_scope.
Local Open Scope Z_scope.

(* ===================================================================== *)
(** ** JavaScript primitives used by the bot *)
(* ===================================================================== *)

Module JS.

(** *** Numbers *)

Inductive number :=
| Finite (z : Z)
| Infinity
| NegInfinity
| NaN.

(** Rounding of a non-negative integer to 53 significant bits, to nearest,
    ties to even: below [2^53] every integer is a double; from there on
    [m] lies in [[2^(e+52), 2^(e+53))] with [e = log2 m - 52] and the
    doubles are the multiples of [2^e]. *)
Definition roundMagnitude (m : Z) : Z :=
  if m <? 2 ^ 53 then m
  else
    let e := Z.log2 m - 52 in
    let q := m / 2 ^ e in
    let r := m mod 2 ^ e in
    let half := 2 ^ (e - 1) in
    (if ((r <? half) || ((r =? half) && Z.even q))%bool then q else q + 1) * 2 ^ e.

(** The Number value of a mathematical integer: the nearest double, an
    infinity when the rounded magnitude reaches [2^1024]. *)
Definition ofZ (z : Z) : number :=
  let m := roundMagnitude (Z.abs z) in
  if 2 ^ 1024 <=? m then (if z <? 0 then NegInfinity else Infinity)
  else Finite (Z.sgn z * m).

Definition isNaN (x : number) : bool :=
  match x with
  | NaN => true
  | _ => false
  end.

(** [x - y]. *)
Definition sub (x y : number) : number :=
  match x, y with
  | NaN, _ | _, NaN => NaN
  | Finite a, Finite b => ofZ (a - b)
  | Finite _, Infinity => NegInfinity
  | Finite _, NegInfinity => Infinity
  | Infinity, Infinity => NaN
  | Infinity, _ => Infinity
  | NegInfinity, NegInfinity => NaN
  | NegInfinity, _ => NegInfinity
  end.

(** [x + y]. *)
Definition add (x y : number) : number :=
  match x, y with
  | NaN, _ | _, NaN => NaN
  | Finite a, Finite b => ofZ (a + b)
  | Finite _, Infinity => Infinity
  | Finite _, NegInfinity => NegInfinity
  | Infinity, NegInfinity => NaN
  | Infinity, _ => Infinity
  | NegInfinity, Infinity => NaN
  | NegInfinity, _ => NegInfinity
  end.

(** The infinity of the sign of [s], [NaN] for [s = 0]: the product of an
    infinity with a number of sign [s]. *)
Definition signedInfinity (s : Z) : number :=
  match s with
  | Z0 => NaN
  | Zpos _ => Infinity
  | Zneg _ => NegInfinity
  end.

(** [x * y]. *)
Definition mul (x y : number) : number :=
  match x, y with
  | NaN, _ | _, NaN => NaN
  | Finite a, Finite b => ofZ (a * b)
  | Finite a, Infinity | Infinity, Finite a => signedInfinity a
  | Finite a, NegInfinity | NegInfinity, Finite a => signedInfinity (- a)
  | Infinity, Infinity | NegInfinity, NegInfinity => Infinity
  | Infinity, NegInfinity | NegInfinity, Infinity => NegInfinity
  end.

(** [Math.abs]. *)
Definition abs (x : number) : number :=
  match x with
  | Finite a => Finite (Z.abs a)
  | Infinity | NegInfinity => Infinity
  | NaN => NaN
  end.

(** [x < y]: false as soon as one side is [NaN]. *)
Definition ltb (x y : number) : bool :=
  match x, y with
  | NaN, _ | _, NaN => false
  | Finite a, Finite b => a <? b
  | NegInfinity, NegInfinity => false
  | NegInfinity, _ => true
  | _, NegInfinity => false
  | Infinity, _ => false
  | Finite _, Infinity => true
  end.

(** *** Strings *)

(** [String.prototype.split] with a one-character separator:
    ["a/b".split('/') = ["a","b"]], ["".split('/') = [""]],
    ["200/".split('/') = ["200",""]]. *)
Fixpoint split (sep : ascii) (s : string) : list string :=
  match s with
  | EmptyString => [EmptyString]
  | String c rest =>
      if Ascii.eqb c sep then EmptyString :: split sep rest
      else match split sep rest with
           | [] => [String c EmptyString]
           | p :: ps => String c p :: ps
           end
  end.

(** WhiteSpace and LineTerminator, by the bytes of their UTF-8 encoding.
    One byte: TAB, LF, VT, FF, CR, SP. *)
Definition isWhiteSpace1 (a : ascii) : bool :=
  let n := N_of_ascii a in
  (N.eqb n 9 || N.eqb n 10 || N.eqb n 11 || N.eqb n 12 || N.eqb n 13
   || N.eqb n 32)%bool.

(** Two bytes: U+00A0 (0xC2 0xA0). *)
Definition isWhiteSpace2 (a b : ascii) : bool :=
  (N.eqb (N_of_ascii a) 194 && N.eqb (N_of_ascii b) 160)%bool.

(** Three bytes: U+1680 (E1 9A 80), U+2000 to U+200A (E2 80 80 to E2 80 8A),
    U+2028 and U+2029 (E2 80 A8, E2 80 A9), U+202F (E2 80 AF),
    U+205F (E2 81 9F), U+3000 (E3 80 80) and U+FEFF (EF BB BF). *)
Definition isWhiteSpace3 (a b c : ascii) : bool :=
  let x := N_of_ascii a in
  let y := N_of_ascii b in
  let z := N_of_ascii c in
  ((N.eqb x 225 && N.eqb y 154 && N.eqb z 128)
   || (N.eqb x 226 && N.eqb y 128
       && ((N.leb 128 z && N.leb z 138) || N.eqb z 168 || N.eqb z 169 || N.eqb z 175))
   || (N.eqb x 226 && N.eqb y 129 && N.eqb z 159)
   || (N.eqb x 227 && N.eqb y 128 && N.eqb z 128)
   || (N.eqb x 239 && N.eqb y 187 && N.eqb z 191))%bool.

(** [String.prototype.trimStart]. *)
Fixpoint trimStart (s : string) : string :=
  match s with
  | EmptyString => s
  | String a r1 =>
      if isWhiteSpace1 a then trimStart r1
      else match r1 with
           | EmptyString => s
           | String b r2 =>
               if isWhiteSpace2 a b then trimStart r2
               else match r2 with
                    | EmptyString => s
                    | String c r3 => if isWhiteSpace3 a b c then trimStart r3 else s
                    end
           end
  end.

(** The text consists of white space only. *)
Fixpoint allWhiteSpace (s : string) : bool :=
  match s with
  | EmptyString => true
  | String a r1 =>
      if isWhiteSpace1 a then allWhiteSpace r1
      else match r1 with
           | EmptyString => false
           | String b r2 =>
               if isWhiteSpace2 a b then allWhiteSpace r2
               else match r2 with
                    | EmptyString => false
                    | String c r3 => if isWhiteSpace3 a b c then allWhiteSpace r3 else false
                    end
           end
  end.

(** [String.prototype.trimEnd]: the text is cut where only white space
    follows. *)
Fixpoint trimEnd (s : string) : string :=
  match s with
  | EmptyString => EmptyString
  | String a r => if allWhiteSpace s then EmptyString else String a (trimEnd r)
  end.

(** [String.prototype.trim]. *)
Definition trim (s : string) : string := trimEnd (trimStart s).

Definition isDigit (c : ascii) : bool :=
  let n := N_of_ascii c in (N.leb 48 n && N.leb n 57)%bool.

Definition digitValue (c : ascii) : Z := Z.of_N (N_of_ascii c) - 48.

(** The longest prefix of radix-10 digits, as digit values, and what follows. *)
Fixpoint takeDigits (s : string) : list Z * string :=
  match s with
  | EmptyString => ([], EmptyString)
  | String c rest =>
      if isDigit c
      then let (ds, tl) := takeDigits rest in (digitValue c :: ds, tl)
      else ([], s)
  end.

(** The mathematical integer value of a digit sequence, most significant
    digit first. *)
Definition digitsValue (ds : list Z) : Z :=
  fold_left (fun acc d => 10 * acc + d) ds 0.

(** The sign step of [parseInt]: a leading [-] or [+] is removed and
    gives the sign. *)
Definition splitSign (s : string) : Z * string :=
  match s with
  | String "-" r => (-1, r)
  | String "+" r => (1, r)
  | _ => (1, s)
  end.

(** [parseInt(s, 10)].  Leading white space is skipped, one sign is
    accepted, then the longest run of decimal digits is read; whatever
    follows the digits is ignored; no digit at all gives [NaN]; otherwise
    the result is the Number value of the signed integer read. *)
Definition parseInt (s : string) : number :=
  let '(sign, body) := splitSign (trimStart s) in
  match fst (takeDigits body) with
  | [] => NaN
  | ds => ofZ (sign * digitsValue ds)
  end.

(** [Number.prototype.toString] on an integer below [2^53] in magnitude,
    where it is the positional decimal numeral; [Date.now()] is such an
    integer. *)
Definition toString (n : Z) : string :=
  NilZero.string_of_int (Z.to_int n).

(** *** Numbers as text *)

(** [c] is read as the double [x]. *)
Definition roundsTo (x c : Z) : bool :=
  match ofZ c with
  | Finite y => y =? x
  | _ => false
  end.

(** The two multiples of [p] around [x], the closer one first; at equal
    distance the even multiple first. *)
Definition candidatesAt (x p : Z) : list Z :=
  let lo := x / p * p in
  let hi := lo + p in
  if x - lo <? hi - x then [lo; hi]
  else if hi - x <? x - lo then [hi; lo]
  else if Z.even (x / p) then [lo; hi]
  else [hi; lo].

Definition powersOfTen : list Z :=
  map (fun k => 10 ^ Z.of_nat k) (rev (seq 0 310)).

(** The decimal with the fewest significant digits that is read as the
    double [x > 0], the closest to [x] among those: the digits [s] and the
    exponent of step 5 of Number::toString, as the integer
    [s * 10^(n-k)]. *)
Definition shortestDecimal (x : Z) : Z :=
  match find (roundsTo x) (flat_map (candidatesAt x) powersOfTen) with
  | Some c => c
  | None => x
  end.

(** The digits of a numeral without its trailing zeros. *)
Fixpoint dropTrailingZeros (s : string) : string :=
  match s with
  | EmptyString => EmptyString
  | String c rest =>
      match dropTrailingZeros rest with
      | EmptyString => if Ascii.eqb c "0" then EmptyString else String c EmptyString
      | t => String c t
      end
  end.

(** The exponent form [d.ddde+N] of a positive integer. *)
Definition exponentForm (c : Z) : string :=
  let text := toString c in
  let n := Z.of_nat (String.length text) in
  match dropTrailingZeros text with
  | EmptyString => text
  | String d EmptyString => String d ("e+" ++ toString (n - 1))
  | String d more => String d ("." ++ more ++ "e+" ++ toString (n - 1))
  end.

(** [Number.prototype.toString], as a template literal applies it to a
    score: positional up to 21 digits, exponent form beyond. *)
Definition numberToString (x : number) : string :=
  match x with
  | NaN => "NaN"
  | Infinity => "Infinity"
  | NegInfinity => "-Infinity"
  | Finite z =>
      if z =? 0 then "0"
      else
        let c := shortestDecimal (Z.abs z) in
        (if z <? 0 then "-" else "")
          ++ (if c <? 10 ^ 21 then toString c else exponentForm c)
  end.

End JS.

(* ===================================================================== *)
(** ** Scores *)
(* ===================================================================== *)

Record Score := mkScore { runs : JS.number; wickets : JS.number }.

(** [parseScore] of both variants; [None] is the [null] result. *)
Definition parseScore (scoreStr : string) : option Score :=
  match JS.split "/" scoreStr with
  | [p0; p1] =>
      let runs := JS.parseInt (JS.trim p0) in
      let wickets := JS.parseInt (JS.trim p1) in
      if (JS.isNaN runs || JS.isNaN wickets)%bool then None
      else Some (mkScore runs wickets)
  | _ => None
  end.

(** The two variants of the program. *)
Inductive Variant := Baseline | Advanced.

(** [scoreDifference]: the baseline uses the runs difference only, the
    advanced variant adds five times the wickets difference. *)
Definition scoreDifference (v : Variant) (pred actual : Score) : JS.number :=
  match v with
  | Baseline => JS.abs (JS.sub (runs pred) (runs actual))
  | Advanced =>
      JS.add (JS.abs (JS.sub (runs pred) (runs actual)))
             (JS.mul (JS.Finite 5) (JS.abs (JS.sub (wickets pred) (wickets actual))))
  end.

(* ===================================================================== *)
(** ** The record store ([db.ts]) *)
(* ===================================================================== *)

(** A row of table [matches].  [isOpen] is stored as 0 or 1; the two
    actual-score columns are NULL ([None]) until the match is ended.  A
    number bound to an INTEGER column is read back as the same number. *)
Record MatchRow := mkMatchRow {
  id : string;
  teamName : string;
  toss : string;
  venue : string;
  matchDate : string;
  isOpen : Z;
  actualRuns : option JS.number;
  actualWickets : option JS.number
}.

(** A row of table [predictions]; columns [runs] and [wickets] are
    [predRuns] and [predWickets] here.  The baseline table has no [comment]
    column: its rows carry [None]. *)
Record PredictionRow := mkPredictionRow {
  matchId : string;
  userId : string;
  username : string;
  predRuns : JS.number;
  predWickets : JS.number;
  comment : option string
}.

(** A prediction joined with the actual score of its match
    ([PredictionWithMatch]). *)
Record PredictionWithMatch := mkPredictionWithMatch {
  prediction : PredictionRow;
  joinedActualRuns : JS.number;
  joinedActualWickets : JS.number
}.

Record Database := mkDatabase {
  matches : list MatchRow;
  predictions : list PredictionRow
}.

Definition emptyDatabase : Database := mkDatabase [] [].

(** SQL [COALESCE(@param, column)]; a parameter that was not supplied is
    bound as NULL. *)
Definition coalesce {A : Type} (param : option A) (column : A) : A :=
  match param with
  | Some x => x
  | None => column
  end.

Definition coalesceNullable {A : Type} (param column : option A) : option A :=
  match param with
  | Some x => Some x
  | None => column
  end.

(** [insertMatch]: the primary key rejects a second row with the same id;
    the INSERT then raises and the table is left as it was ([None]). *)
Definition insertMatch (d : Database)
    (mid team tossInfo place date : string) (open : bool) : option Database :=
  if existsb (fun m => String.eqb (id m) mid) (matches d) then None
  else Some (mkDatabase
               (matches d ++ [mkMatchRow mid team tossInfo place date
                                (if open then 1 else 0) None None])
               (predictions d)).

(** The argument of [updateMatch]: every field but the id is optional. *)
Record MatchPatch := mkMatchPatch {
  patchId : string;
  patchIsOpen : option bool;
  patchActualRuns : option JS.number;
  patchActualWickets : option JS.number;
  patchTeamName : option string;
  patchToss : option string;
  patchVenue : option string;
  patchMatchDate : option string
}.

Definition applyPatch (p : MatchPatch) (m : MatchRow) : MatchRow :=
  mkMatchRow (id m)
    (coalesce (patchTeamName p) (teamName m))
    (coalesce (patchToss p) (toss m))
    (coalesce (patchVenue p) (venue m))
    (coalesce (patchMatchDate p) (matchDate m))
    (coalesce (option_map (fun b : bool => if b then 1 else 0) (patchIsOpen p))
              (isOpen m))
    (coalesceNullable (patchActualRuns p) (actualRuns m))
    (coalesceNullable (patchActualWickets p) (actualWickets m)).

(** [updateMatch]: [UPDATE matches SET ... WHERE id = @id]. *)
Definition updateMatch (d : Database) (p : MatchPatch) : Database :=
  mkDatabase
    (map (fun m => if String.eqb (id m) (patchId p) then applyPatch p m else m)
         (matches d))
    (predictions d).

Definition sameKey (p q : PredictionRow) : bool :=
  (String.eqb (matchId p) (matchId q) && String.eqb (userId p) (userId q))%bool.

(** [insertOrUpdatePrediction]:
    [INSERT ... ON CONFLICT(matchId, userId) DO UPDATE SET username, runs,
    wickets, comment].  A row with the same key is overwritten where it
    stands; otherwise the new row is added.  The store checks the foreign
    key on [matchId]: the function is for a row whose match is stored, as
    the rows are that the handler submits in the states the process can be
    in (the current match is stored there, see [Consistent]). *)
Definition insertOrUpdatePrediction (d : Database) (p : PredictionRow) : Database :=
  mkDatabase (matches d)
    (if existsb (sameKey p) (predictions d)
     then map (fun q => if sameKey p q
                        then mkPredictionRow (matchId q) (userId q)
                               (username p) (predRuns p) (predWickets p) (comment p)
                        else q)
              (predictions d)
     else predictions d ++ [p]).

(** Insertion into a list kept in ascending [userId] order, the order of
    the index of the primary key; [String.ltb] is the binary collation. *)
Fixpoint insertByUserId (p : PredictionRow) (l : list PredictionRow) : list PredictionRow :=
  match l with
  | [] => [p]
  | x :: rest =>
      if String.ltb (userId x) (userId p) then x :: insertByUserId p rest
      else p :: l
  end.

(** [getPredictionsForMatch]: [SELECT * FROM predictions WHERE matchId = ?],
    answered from the index on [(matchId, userId)]. *)
Definition getPredictionsForMatch (d : Database) (mid : string) : list PredictionRow :=
  fold_right insertByUserId []
             (filter (fun p => String.eqb (matchId p) mid) (predictions d)).

(** Insertion into a list kept in descending [matchDate] order; a row goes
    before the rows of the same date that were stored after it. *)
Fixpoint insertByDateDesc (m : MatchRow) (l : list MatchRow) : list MatchRow :=
  match l with
  | [] => [m]
  | x :: rest =>
      if String.ltb (matchDate m) (matchDate x) then x :: insertByDateDesc m rest
      else m :: l
  end.

(** [getPastMatches]:
    [SELECT * FROM matches WHERE isOpen = 0 ORDER BY matchDate DESC]. *)
Definition getPastMatches (d : Database) : list MatchRow :=
  fold_right insertByDateDesc [] (filter (fun m => Z.eqb (isOpen m) 0) (matches d)).

(** [getMatchDetails]; [None] is the [null] result. *)
Definition getMatchDetails (d : Database) (mid : string)
  : option (MatchRow * list PredictionRow) :=
  match find (fun m => String.eqb (id m) mid) (matches d) with
  | None => None
  | Some m => Some (m, getPredictionsForMatch d mid)
  end.

(** The join shared by [getUserStats] and [getAllUserStats]: a prediction
    with each ended match ([isOpen = 0], both actual columns not NULL) it
    belongs to. *)
Definition joinEnded (d : Database) (p : PredictionRow) : list PredictionWithMatch :=
  flat_map
    (fun m =>
       if (String.eqb (matchId p) (id m) && Z.eqb (isOpen m) 0)%bool
       then match actualRuns m, actualWickets m with
            | Some r, Some w => [mkPredictionWithMatch p r w]
            | _, _ => []
            end
       else [])
    (matches d).

(** [getUserStats]. *)
Definition getUserStats (d : Database) (uid : string) : list PredictionWithMatch :=
  flat_map (joinEnded d)
           (filter (fun p => String.eqb (userId p) uid) (predictions d)).

(** One entry of the result of [getAllUserStats]. *)
Record UserStats := mkUserStats {
  statsUserId : string;
  statsUsername : string;
  statsPredictions : list PredictionWithMatch
}.

(** The grouping loop of [getAllUserStats]: a user is entered, with the
    username of the row seen first, when met for the first time; every row
    is pushed on its user's list.  The properties of [grouped] are kept
    here in creation order. *)
Fixpoint pushRow (row : PredictionWithMatch) (grouped : list UserStats) : list UserStats :=
  match grouped with
  | [] => [mkUserStats (userId (prediction row)) (username (prediction row)) [row]]
  | g :: rest =>
      if String.eqb (statsUserId g) (userId (prediction row))
      then mkUserStats (statsUserId g) (statsUsername g) (statsPredictions g ++ [row]) :: rest
      else g :: pushRow row rest
  end.

(** The value of a decimal numeral, read from the left. *)
Definition decimalValue (s : string) : Z :=
  fold_left (fun acc c => 10 * acc + JS.digitValue c) (list_ascii_of_string s) 0.

(** A property key that is an array index: the canonical decimal numeral
    of an integer below [2^32 - 1]. *)
Definition arrayIndex (key : string) : option Z :=
  let n := decimalValue key in
  if (String.eqb (JS.toString n) key && (0 <=? n) && (n <? 4294967295))%bool
  then Some n
  else None.

Definition isArrayIndex (g : UserStats) : bool :=
  match arrayIndex (statsUserId g) with
  | Some _ => true
  | None => false
  end.

(** Insertion into a list of entries kept in ascending order of their
    array index. *)
Fixpoint insertByIndex (g : UserStats) (l : list UserStats) : list UserStats :=
  match l with
  | [] => [g]
  | x :: rest =>
      if decimalValue (statsUserId x) <? decimalValue (statsUserId g)
      then x :: insertByIndex g rest
      else g :: l
  end.

(** [Object.entries]: the properties whose key is an array index come
    first, in ascending numeric order, then the others in creation
    order. *)
Definition objectEntries (grouped : list UserStats) : list UserStats :=
  (fold_right insertByIndex [] (filter isArrayIndex grouped)
   ++ filter (fun g => negb (isArrayIndex g)) grouped)%list.

(** [getAllUserStats].  The user ids are Discord snowflakes, decimal
    numerals: none is the name of a property that an object inherits. *)
Definition getAllUserStats (d : Database) : list UserStats :=
  objectEntries
    (fold_left (fun grouped row => pushRow row grouped)
               (flat_map (joinEnded d) (predictions d)) []).

(** [deleteMatch]: the predictions of the match first, then the match. *)
Definition deleteMatch (d : Database) (mid : string) : Database :=
  mkDatabase
    (filter (fun m => negb (String.eqb (id m) mid)) (matches d))
    (filter (fun p => negb (String.eqb (matchId p) mid)) (predictions d)).

(* ===================================================================== *)
(** ** The command handler ([bot.ts]) *)
(* ===================================================================== *)

(** The state of the process: the [currentMatch] variable ([None] is
    [null], [Some i] is [{ id: i }]) and the database. *)
Record State := mkState {
  currentMatch : option string;
  db : Database
}.

Definition initialState : State := mkState None emptyDatabase.

(** A slash command with its options; an optional option is [None] when
    the user left it out. *)
Inductive Command :=
| Setup (team tossInfo place date : string)
| Predict (score : string) (note : option string)
| Edit (score : string) (note : option string)
| Close
| ListPredictions
| End (score : string)
| Past
| Details (matchid : string)
| Mystats
| Leaderboard
| Editmatch (team tossInfo place date : option string)
| Export
| Cancelmatch
| Help.

(** What the handler reads from its environment for one interaction: the
    caller, the command, the clock ([Date.now()]) and the successive
    results of [Math.random()]. *)
Record Interaction := mkInteraction {
  callerId : string;
  callerName : string;
  command : Command;
  dateNow : Z;
  mathRandom : nat -> Q
}.

Inductive CommandName :=
| setupC | predictC | editC | closeC | listC | endC | editmatchC | exportC
| cancelmatchC.

(** The replies of the handler, one constructor for each message.
    [Uncaught] is an exception raised by the store that the handler does
    not catch: no reply is sent. *)
Inductive Reply :=
| OnlyAdmins (c : CommandName)
| AlreadyRunning
| SetupComplete (mid : string)
| NoActiveMatch (c : CommandName)
| InvalidScoreFormat (example : string)
| PredictionSaved (scoreStr note : string)
| PredictionUpdated (scoreStr note : string)
| PollClosed
| CurrentPredictions (l : list PredictionRow)
| Result (actual : Score) (winner : option PredictionRow)
| NoPastMatches
| PastMatches (l : list MatchRow)
| MatchIdNotFound
| MatchDetails (m : MatchRow) (l : list PredictionRow)
| NoPastPredictions
| MyStats (count : nat) (totalDiff : JS.number)
| NoLeaderboardData
| LeaderboardReply (l : list (string * Q))
| MatchDetailsUpdated
| Exported (past : list MatchRow) (details : list (MatchRow * list PredictionRow))
| MatchCancelled
| HelpText
| UnknownCommand
| Uncaught.

(** [value || ''] and [value || undefined] on an optional string option. *)
Definition orEmpty (o : option string) : string :=
  match o with
  | Some s => s
  | None => ""
  end.

Definition orUndefined (o : option string) : option string :=
  match o with
  | Some "" => None
  | other => other
  end.

(** The winner loop of [end], from the state [(winner, bestDiff)]. *)
Fixpoint winnerLoop (v : Variant) (actualScore : Score) (preds : list PredictionRow)
    (winner : option PredictionRow) (bestDiff : JS.number)
  : option PredictionRow * JS.number :=
  match preds with
  | [] => (winner, bestDiff)
  | pred :: rest =>
      let diff := scoreDifference v (mkScore (predRuns pred) (predWickets pred)) actualScore in
      if JS.ltb diff bestDiff
      then winnerLoop v actualScore rest (Some pred) diff
      else winnerLoop v actualScore rest winner bestDiff
  end.

(** [let winner = null; let bestDiff = Infinity; for (...) ...]. *)
Definition selectWinner (v : Variant) (actualScore : Score) (preds : list PredictionRow)
  : option PredictionRow :=
  fst (winnerLoop v actualScore preds None JS.Infinity).

(** The accumulation loop of [mystats]. *)
Definition totalDifference (v : Variant) (stats : list PredictionWithMatch) : JS.number :=
  fold_left
    (fun totalDiff stat =>
       JS.add totalDiff
              (scoreDifference v
                 (mkScore (predRuns (prediction stat)) (predWickets (prediction stat)))
                 (mkScore (joinedActualRuns stat) (joinedActualWickets stat))))
    stats (JS.Finite 0).

(** Insertion for [leaderboard.sort((a, b) => a.avgError - b.avgError)],
    a stable sort: an entry goes before the entries of the same figure
    that came after it. *)
Fixpoint insertByAvgError (e : string * Q) (l : list (string * Q)) : list (string * Q) :=
  match l with
  | [] => [e]
  | x :: rest =>
      if Qlt_le_dec (snd x) (snd e) then x :: insertByAvgError e rest
      else e :: l
  end.

Definition sortByAvgError (l : list (string * Q)) : list (string * Q) :=
  fold_right insertByAvgError [] l.

(** [userStats.map(...)] of [leaderboard]: the loop over the user's
    predictions adds 0 to a total that is not used, and the entry gets
    [Math.random() * 50]; the k-th entry takes the k-th random number. *)
Fixpoint placeholderEntries (userStats : list UserStats) (random : nat -> Q) (k : nat)
  : list (string * Q) :=
  match userStats with
  | [] => []
  | user :: rest =>
      (statsUsername user, (random k * 50)%Q) :: placeholderEntries rest random (S k)
  end.

Definition leaderboard (userStats : list UserStats) (random : nat -> Q) : list (string * Q) :=
  sortByAvgError (placeholderEntries userStats random 0).

Definition isAdminOf (ADMIN_IDS : list string) (uid : string) : bool :=
  existsb (String.eqb uid) ADMIN_IDS.

Definition endPatch (mid : string) (actualScore : Score) : MatchPatch :=
  mkMatchPatch mid (Some false) (Some (runs actualScore)) (Some (wickets actualScore))
               None None None None.

Definition closePatch (mid : string) : MatchPatch :=
  mkMatchPatch mid (Some false) None None None None None None.

(** The [comment] constant of [predict] and [edit]:
    [getString('comment') || ''] in the advanced variant; the baseline has
    no such option and stores no comment. *)
Definition commentOf (v : Variant) (note : option string) : option string :=
  match v with
  | Baseline => None
  | Advanced => Some (orEmpty note)
  end.

(** The [interactionCreate] listener: the reply and the next state. *)
Definition interactionCreate (v : Variant) (ADMIN_IDS : list string)
    (st : State) (i : Interaction) : Reply * State :=
  let uid := callerId i in
  let isAdmin := isAdminOf ADMIN_IDS uid in
  match command i, v with
  | Setup team tossInfo place date, _ =>
      if negb isAdmin then (OnlyAdmins setupC, st)
      else match currentMatch st with
           | Some _ => (AlreadyRunning, st)
           | None =>
               let mid := JS.toString (dateNow i) in
               match insertMatch (db st) mid team tossInfo place date true with
               | None => (Uncaught, st)
               | Some d => (SetupComplete mid, mkState (Some mid) d)
               end
           end
  | Predict scoreStr note, _ =>
      match currentMatch st with
      | None => (NoActiveMatch predictC, st)
      | Some mid =>
          let comment := commentOf v note in
          match parseScore scoreStr with
          | None => (InvalidScoreFormat "200/4", st)
          | Some score =>
              (PredictionSaved scoreStr (orEmpty comment),
               mkState (Some mid)
                 (insertOrUpdatePrediction (db st)
                    (mkPredictionRow mid uid (callerName i)
                       (runs score) (wickets score) comment)))
          end
      end
  | Edit scoreStr note, _ =>
      match currentMatch st with
      | None => (NoActiveMatch editC, st)
      | Some mid =>
          let comment := commentOf v note in
          match parseScore scoreStr with
          | None => (InvalidScoreFormat "200/4", st)
          | Some score =>
              (PredictionUpdated scoreStr (orEmpty comment),
               mkState (Some mid)
                 (insertOrUpdatePrediction (db st)
                    (mkPredictionRow mid uid (callerName i)
                       (runs score) (wickets score) comment)))
          end
      end
  | Close, _ =>
      if negb isAdmin then (OnlyAdmins closeC, st)
      else match currentMatch st with
           | None => (NoActiveMatch closeC, st)
           | Some mid =>
               (PollClosed, mkState (Some mid) (updateMatch (db st) (closePatch mid)))
           end
  | ListPredictions, _ =>
      match currentMatch st with
      | None => (NoActiveMatch listC, st)
      | Some mid => (CurrentPredictions (getPredictionsForMatch (db st) mid), st)
      end
  | End scoreStr, _ =>
      if negb isAdmin then (OnlyAdmins endC, st)
      else match currentMatch st with
           | None => (NoActiveMatch endC, st)
           | Some mid =>
               match parseScore scoreStr with
               | None => (InvalidScoreFormat "240/5", st)
               | Some actualScore =>
                   let d := updateMatch (db st) (endPatch mid actualScore) in
                   let preds := getPredictionsForMatch d mid in
                   (Result actualScore (selectWinner v actualScore preds),
                    mkState None d)
               end
           end
  | Past, _ =>
      match getPastMatches (db st) with
      | [] => (NoPastMatches, st)
      | past => (PastMatches past, st)
      end
  | Details mid, _ =>
      match getMatchDetails (db st) mid with
      | None => (MatchIdNotFound, st)
      | Some (m, preds) => (MatchDetails m preds, st)
      end
  | Mystats, Advanced =>
      match getUserStats (db st) uid with
      | [] => (NoPastPredictions, st)
      | stats => (MyStats (List.length stats) (totalDifference v stats), st)
      end
  | Leaderboard, Advanced =>
      match getAllUserStats (db st) with
      | [] => (NoLeaderboardData, st)
      | userStats => (LeaderboardReply (leaderboard userStats (mathRandom i)), st)
      end
  | Editmatch team tossInfo place date, Advanced =>
      if negb isAdmin then (OnlyAdmins editmatchC, st)
      else match currentMatch st with
           | None => (NoActiveMatch editmatchC, st)
           | Some mid =>
               (MatchDetailsUpdated,
                mkState (Some mid)
                  (updateMatch (db st)
                     (mkMatchPatch mid None None None
                        (orUndefined team) (orUndefined tossInfo)
                        (orUndefined place) (orUndefined date))))
           end
  | Export, Advanced =>
      if negb isAdmin then (OnlyAdmins exportC, st)
      else let past := getPastMatches (db st) in
           (Exported past
              (map (fun m => (m, getPredictionsForMatch (db st) (id m))) past),
            st)
  | Cancelmatch, Advanced =>
      if negb isAdmin then (OnlyAdmins cancelmatchC, st)
      else match currentMatch st with
           | None => (NoActiveMatch cancelmatchC, st)
           | Some mid => (MatchCancelled, mkState None (deleteMatch (db st) mid))
           end
  | Help, Advanced => (HelpText, st)
  | _, Baseline => (UnknownCommand, st)
  end.

(** The process serving a sequence of interactions. *)
Definition run (v : Variant) (ADMIN_IDS : list string) (st : State)
    (trace : list Interaction) : State :=
  fold_left (fun s i => snd (interactionCreate v ADMIN_IDS s i)) trace st.

(** [ADMIN_IDS]: [process.env.ADMINS?.split(',').map((id) => id.trim()) || []];
    [None] is an unset variable.  An array is never falsy, so the fallback
    applies to the unset variable only. *)
Definition adminIds (ADMINS : option string) : list string :=
  match ADMINS with
  | Some s => map JS.trim (JS.split "," s)
  | None => []
  end.

(** The fragment [${runs}/${wickets}] with which the list, the details and
    the result message display a score. *)
Definition scoreText (r w : JS.number) : string :=
  JS.numberToString r ++ "/" ++ JS.numberToString w.

(* ===================================================================== *)
(** ** A sample session *)
(* ===================================================================== *)

(** One administrator, two participants, one match: setup, two
    predictions, then close, end or cancel. *)
Definition sampleAdmins : list string := ["100"].

Definition noRandom : nat -> Q := fun _ => 0%Q.

Definition sampleSetup : Interaction :=
  mkInteraction "100" "admin"
    (Setup "TPF" "Batting first" "Pune" "2025-04-01") 1743500000000 noRandom.

Definition samplePredictA : Interaction :=
  mkInteraction "201" "userA" (Predict "180/5" None) 1743500001000 noRandom.

Definition samplePredictB : Interaction :=
  mkInteraction "202" "userB" (Predict "175/6" (Some "gut feeling"))
    1743500002000 noRandom.

Definition sampleEditA : Interaction :=
  mkInteraction "201" "userA" (Edit "181/5" None) 1743500003000 noRandom.

Definition sampleClose : Interaction :=
  mkInteraction "100" "admin" Close 1743500004000 noRandom.

Definition sampleEnd : Interaction :=
  mkInteraction "100" "admin" (End "178/5") 1743500005000 noRandom.

Definition sampleBadEnd : Interaction :=
  mkInteraction "100" "admin" (End "178-5") 1743500005000 noRandom.

Definition sampleCancel : Interaction :=
  mkInteraction "100" "admin" Cancelmatch 1743500006000 noRandom.

(** The state after the setup and the two predictions. *)
Definition sampleState (v : Variant) : State :=
  run v sampleAdmins initialState [sampleSetup; samplePredictA; samplePredictB].

(** A finished match for the statistics: the actual score is 178/5, alice
    predicted 182/5 (distance 4) and bob 176/5 (distance 2). *)
Definition statsState : State :=
  run Advanced sampleAdmins initialState
    [ sampleSetup;
      mkInteraction "301" "alice" (Predict "182/5" None) 1743500001000 noRandom;
      mkInteraction "302" "bob" (Predict "176/5" None) 1743500002000 noRandom;
      sampleEnd ].

(** [Math.random()] returning 0.1 on the first call and 0.9 afterwards. *)
Definition sampleRandom : nat -> Q :=
  fun k => match k with
           | O => 1 # 10
           | _ => 9 # 10
           end.

Definition leaderboardRequest : Interaction :=
  mkInteraction "302" "bob" Leaderboard 1743500007000 sampleRandom.

Definition mystatsOf (uid uname : string) : Interaction :=
  mkInteraction uid uname Mystats 1743500007000 sampleRandom.

(** A second match, set up after the first one was ended. *)
Definition sampleSecondSetup : Interaction :=
  mkInteraction "100" "admin"
    (Setup "TPF" "Bowling first" "Mumbai" "2025-04-08") 1744100000000 noRandom.

Definition twoMatchesState : State :=
  run Advanced sampleAdmins statsState [sampleSecondSetup].

(** A numeral of 310 digits: a runs figure beyond the largest double. *)
Definition hugeNumeral : string := string_of_list_ascii (repeat "9"%char 310).

(** A match whose only prediction is of [hugeNumeral] runs. *)
Definition hugePredict : Interaction :=
  mkInteraction "201" "userA" (Predict (hugeNumeral ++ "/0") None) 1743500001000 noRandom.


(** That match ended with [hugeNumeral] runs as well. *)
Definition hugeEnd : Interaction :=
  mkInteraction "100" "admin" (End (hugeNumeral ++ "/0")) 1743500005000 noRandom.

Definition hugeStatsState : State :=
  run Advanced sampleAdmins initialState [sampleSetup; hugePredict; hugeEnd].

(** The text of the given bytes. *)
Definition bytes (l : list Z) : string :=
  string_of_list_ascii (map (fun b => ascii_of_N (Z.to_N b)) l).

(* ===================================================================== *)
(** ** Notions used to state the properties *)
(* ===================================================================== *)

(** The number is neither an infinity nor [NaN]. *)
Definition isFinite (x : JS.number) : bool :=
  match x with
  | JS.Finite _ => true
  | _ => false
  end.

Definition finiteScore (s : Score) : bool :=
  (isFinite (runs s) && isFinite (wickets s))%bool.

(** The distance of a joined row: of its prediction to the actual score
    of its match. *)
Definition rowDifference (v : Variant) (r : PredictionWithMatch) : JS.number :=
  scoreDifference v
    (mkScore (predRuns (prediction r)) (predWickets (prediction r)))
    (mkScore (joinedActualRuns r) (joinedActualWickets r)).

(** The predicted and the actual score of a joined row are finite. *)
Definition finiteRow (r : PredictionWithMatch) : bool :=
  (finiteScore (mkScore (predRuns (prediction r)) (predWickets (prediction r)))
   && finiteScore (mkScore (joinedActualRuns r) (joinedActualWickets r)))%bool.

(** The prediction of a joined row has the runs and the wickets of the
    actual score. *)
Definition exactRow (r : PredictionWithMatch) : Prop :=
  predRuns (prediction r) = joinedActualRuns r
  /\ predWickets (prediction r) = joinedActualWickets r.

(** [x] is a non-negative number or [Infinity]. *)
Definition nonNegative (x : JS.number) : Prop :=
  match x with
  | JS.Finite d => 0 <= d
  | JS.Infinity => True
  | _ => False
  end.

(** The integer [y] is a double: [k * 2^j] with a [k] of at most 53 bits,
    below [2^1024] in magnitude. *)
Definition representable (y : Z) : Prop :=
  exists k j, 0 <= j /\ Z.abs k < 2 ^ 53 /\ y = k * 2 ^ j /\ Z.abs y < 2 ^ 1024.

(** The distance of a stored prediction to the actual score, as the winner
    loop computes it. *)
Definition distanceOf (v : Variant) (actualScore : Score) (p : PredictionRow) : JS.number :=
  scoreDifference v (mkScore (predRuns p) (predWickets p)) actualScore.

(** The distance is below [Infinity]: the prediction can win. *)
Definition canWin (v : Variant) (actualScore : Score) (p : PredictionRow) : Prop :=
  JS.ltb (distanceOf v actualScore p) JS.Infinity = true.

(** The states of the winner loop: nobody yet and [bestDiff = Infinity],
    or a prediction that can win, with its distance. *)
Definition loopState (v : Variant) (actualScore : Score)
    (winner : option PredictionRow) (bestDiff : JS.number) : Prop :=
  match winner with
  | None => bestDiff = JS.Infinity
  | Some w => bestDiff = distanceOf v actualScore w /\ canWin v actualScore w
  end.

(** [p] comes before [q] in the index of the primary key, for rows of one
    match: its user id is not above that of [q]. *)
Definition userIdNotAbove (p q : PredictionRow) : Prop :=
  String.ltb (userId q) (userId p) = false.

(** [preds] is the enumeration of the predictions of match [mid] in [d]:
    each stored row of the match once, in ascending user id. *)
Definition enumerationOf (d : Database) (mid : string) (preds : list PredictionRow) : Prop :=
  Permutation (filter (fun p => String.eqb (matchId p) mid) (predictions d)) preds
  /\ (forall p, In p preds <-> In p (predictions d) /\ matchId p = mid)
  /\ StronglySorted userIdNotAbove preds.

(** [winner] is the first of the closest among [preds]: a prediction that
    can win, than which none is closer, and which is strictly closer than
    every prediction enumerated before it whose distance is a number. *)
Definition firstClosest (v : Variant) (actualScore : Score)
    (preds : list PredictionRow) (w : PredictionRow) : Prop :=
  exists before after,
    preds = (before ++ w :: after)%list
    /\ canWin v actualScore w
    /\ (forall p, In p preds ->
          JS.ltb (distanceOf v actualScore p) (distanceOf v actualScore w) = false)
    /\ (forall p, In p before ->
          JS.ltb (distanceOf v actualScore w) (distanceOf v actualScore p) = true
          \/ distanceOf v actualScore p = JS.NaN).

(** The outcome of winner resolution over [preds]: nobody when no
    prediction can win, otherwise the first of the closest. *)
Definition resolvedWinner (v : Variant) (actualScore : Score)
    (preds : list PredictionRow) (winner : option PredictionRow) : Prop :=
  match winner with
  | None => forall p, In p preds -> ~ canWin v actualScore p
  | Some w => firstClosest v actualScore preds w
  end.


(** Spec wording of the scoring contract: on scores that hold integers the
    distance is the value of the formula, and every score is at distance 0
    from itself. *)
Definition exactScoringFormula : Prop :=
  forall pr pw ar aw : Z,
    representable pr -> representable pw -> representable ar -> representable aw ->
    scoreDifference Advanced (mkScore (JS.Finite pr) (JS.Finite pw))
                    (mkScore (JS.Finite ar) (JS.Finite aw))
    = JS.Finite (Z.abs (pr - ar) + 5 * Z.abs (pw - aw)).

Definition zeroSelfDistance : Prop :=
  forall (v : Variant) (s : string) (x : Score),
    parseScore s = Some x -> scoreDifference v x x = JS.Finite 0.

(** The primary key of a prediction row. *)
Definition predictionKey (p : PredictionRow) : string * string :=
  (matchId p, userId p).

Fixpoint containsChar (c : ascii) (s : string) : bool :=
  match s with
  | EmptyString => false
  | String x rest => (Ascii.eqb x c || containsChar c rest)%bool
  end.

Fixpoint countChar (c : ascii) (s : string) : nat :=
  match s with
  | EmptyString => 0%nat
  | String x rest => if Ascii.eqb x c then S (countChar c rest) else countChar c rest
  end.

Fixpoint allDigits (s : string) : bool :=
  match s with
  | EmptyString => true
  | String c rest => (JS.isDigit c && allDigits rest)%bool
  end.

Definition startsWithDigit (s : string) : bool :=
  match s with
  | EmptyString => false
  | String c _ => JS.isDigit c
  end.

(** The text of a sign and its value. *)
Definition signOf (sgText : string) (sg : Z) : Prop :=
  (sgText = "" /\ sg = 1) \/ (sgText = "+" /\ sg = 1) \/ (sgText = "-" /\ sg = -1).

(** [t] starts with an optional sign and a non-empty run of decimal digits
    whose signed value is [n]; [rest], which does not start with a digit,
    is whatever follows. *)
Definition LeadingInt (t : string) (n : Z) : Prop :=
  exists (sgText ds rest : string) (sg : Z),
    signOf sgText sg /\ t = sgText ++ ds ++ rest /\ ds <> "" /\
    allDigits ds = true /\ startsWithDigit rest = false /\
    n = sg * decimalValue ds.

(** Spec wording: a segment that _is_ a base-10 integer, an optional
    sign followed by decimal digits and nothing else. *)
Definition specBase10Integer (t : string) : bool :=
  match t with
  | String "-" r | String "+" r => (negb (String.eqb r "") && allDigits r)%bool
  | _ => (negb (String.eqb t "") && allDigits t)%bool
  end.

(** The value of a segment that is a base-10 integer. *)
Definition specIntegerValue (t : string) : Z :=
  match t with
  | String "-" r => - decimalValue r
  | String "+" r => decimalValue r
  | _ => decimalValue t
  end.

(** Spec wording of the parser contract: every accepted text consists of
    exactly two segments that are base-10 integers once trimmed. *)
Definition strictParserContract : Prop :=
  forall s sc, parseScore s = Some sc ->
    exists a b, JS.split "/" s = [a; b] /\
      specBase10Integer (JS.trim a) = true /\
      specBase10Integer (JS.trim b) = true.

(** The outcome of a submission, whatever the wording of the reply. *)
Inductive SubmitOutcome :=
| Accepted (scoreStr note : string)
| RejectedNoActiveMatch
| RejectedInvalidScore
| NotASubmission.

Definition submitOutcome (r : Reply) : SubmitOutcome :=
  match r with
  | PredictionSaved s n | PredictionUpdated s n => Accepted s n
  | NoActiveMatch predictC | NoActiveMatch editC => RejectedNoActiveMatch
  | InvalidScoreFormat _ => RejectedInvalidScore
  | _ => NotASubmission
  end.

(** The commands whose handler assigns [null] to [currentMatch]. *)
Definition clearsPointer (c : Command) : bool :=
  match c with
  | End _ | Cancelmatch => true
  | _ => false
  end.

(** The matches whose [isOpen] flag is set. *)
Definition openMatches (d : Database) : list MatchRow :=
  filter (fun m => negb (Z.eqb (isOpen m) 0)) (matches d).

(** What holds of every state the process can be in: match ids and
    prediction keys are unique, only the current match can be open, the
    current match and the match of every prediction exist. *)
Record Consistent (st : State) : Prop := mkConsistent {
  uniqueIds : NoDup (map id (matches (db st)));
  uniqueKeys : NoDup (map predictionKey (predictions (db st)));
  openIsCurrent :
    forall m, In m (matches (db st)) -> isOpen m <> 0 ->
              currentMatch st = Some (id m);
  currentExists :
    forall mid, currentMatch st = Some mid -> In mid (map id (matches (db st)));
  predictionsHaveMatch :
    forall p, In p (predictions (db st)) -> In (matchId p) (map id (matches (db st)))
}.

(** The effect of an UPDATE that closes match [mid] on one row: [before]
    and [after] agree except that a row of [mid] has its flag cleared and,
    when [actual] is given, its actual score set. *)
Definition closedRow (mid : string) (actual : option Score) (before after : MatchRow) : Prop :=
  id after = id before /\ teamName after = teamName before /\
  toss after = toss before /\ venue after = venue before /\
  matchDate after = matchDate before /\
  (id before <> mid -> after = before) /\
  (id before = mid ->
     isOpen after = 0 /\
     match actual with
     | None => actualRuns after = actualRuns before /\
               actualWickets after = actualWickets before
     | Some a => actualRuns after = Some (runs a) /\
                 actualWickets after = Some (wickets a)
     end).

(** [a] is not dated before [b], in the binary order of the date texts. *)
Definition dateNotBefore (a b : MatchRow) : Prop :=
  String.ltb (matchDate a) (matchDate b) = false.

Definition avgErrorLe (a b : string * Q) : Prop := (snd a <= snd b)%Q.

(** The match has been ended: it is closed and both score columns are set. *)
Definition isEnded (m : MatchRow) : bool :=
  (Z.eqb (isOpen m) 0
   && match actualRuns m, actualWickets m with
      | Some _, Some _ => true
      | _, _ => false
      end)%bool.

(** A match of id [mid] has been ended. *)
Definition endedMatch (d : Database) (mid : string) : bool :=
  existsb (fun m => (String.eqb (id m) mid && isEnded m)%bool) (matches d).

(** The shape of the match rows in the states the process can be in. *)
Record Shaped (st : State) : Prop := mkShaped {
  flagIsBit : forall m, In m (matches (db st)) -> isOpen m = 0 \/ isOpen m = 1;
  scoreTogether :
    forall m, In m (matches (db st)) ->
              (actualRuns m = None <-> actualWickets m = None);
  scoredIsOver :
    forall m, In m (matches (db st)) -> actualRuns m <> None ->
              isOpen m = 0 /\ currentMatch st <> Some (id m)
}.

(** A descriptive field after [editmatch]: the text given for it when that
    is not empty, the field as it was when the option was left out or is
    the empty text. *)
Definition mergedField (given : option string) (before after : string) : Prop :=
  match given with
  | None => after = before
  | Some text => if String.eqb text "" then after = before else after = text
  end.

(** The effect of [editmatch] on one row: only the four descriptive fields
    of a row of [mid] may change, each to the value given for it. *)
Definition redescribedRow (mid : string) (team tossInfo place date : option string)
    (before after : MatchRow) : Prop :=
  id after = id before /\ isOpen after = isOpen before /\
  actualRuns after = actualRuns before /\
  actualWickets after = actualWickets before /\
  (id before <> mid -> after = before) /\
  (id before = mid ->
     mergedField team (teamName before) (teamName after) /\
     mergedField tossInfo (toss before) (toss after) /\
     mergedField place (venue before) (venue after) /\
     mergedField date (matchDate before) (matchDate after)).

(** Nothing is given for the field. *)
Definition notGiven (o : option string) : Prop := o = None \/ o = Some "".

(** The joined rows of one user, in the order of the query. *)
Definition rowsOf (uid : string) (rows : list PredictionWithMatch)
  : list PredictionWithMatch :=
  filter (fun r => String.eqb (userId (prediction r)) uid) rows.

(** [g] is the group of its user among [rows]: it holds all the rows of
    the user, at least one, and the username of the first of them. *)
Definition groupOf (rows : list PredictionWithMatch) (g : UserStats) : Prop :=
  statsPredictions g = rowsOf (statsUserId g) rows
  /\ exists first rest,
       statsPredictions g = first :: rest
       /\ statsUsername g = username (prediction first).

(** [acc] groups [rows] by user: one group for each user met. *)
Definition Grouped (rows : list PredictionWithMatch) (acc : list UserStats) : Prop :=
  NoDup (map statsUserId acc)
  /\ Forall (groupOf rows) acc
  /\ (forall r, In r rows -> In (userId (prediction r)) (map statsUserId acc)).

(** A white-space character starts the text. *)
Definition startsWithWhiteSpace (s : string) : bool :=
  match s with
  | EmptyString => false
  | String a r1 =>
      (JS.isWhiteSpace1 a
       || match r1 with
          | EmptyString => false
          | String b r2 =>
              (JS.isWhiteSpace2 a b
               || match r2 with
                  | EmptyString => false
                  | String c _ => JS.isWhiteSpace3 a b c
                  end)%bool
          end)%bool
  end.

(** No white-space character occurs in the text. *)
Fixpoint noWhiteSpace (s : string) : bool :=
  match s with
  | EmptyString => true
  | String c rest => (negb (startsWithWhiteSpace s) && noWhiteSpace rest)%bool
  end.

(** The commands that only read. *)
Definition readsOnly (c : Command) : bool :=
  match c with
  | ListPredictions | Past | Details _ | Mystats | Leaderboard | Export | Help => true
  | _ => false
  end.

Definition isSetup (c : Command) : bool :=
  match c with
  | Setup _ _ _ _ => true
  | _ => false
  end.

Arguments JS.ofZ : simpl never.
Arguments JS.roundMagnitude : simpl never.
Arguments JS.shortestDecimal : simpl never.

(* ===================================================================== *)
(** ** Numbers *)
(* ===================================================================== *)

Lemma pow2_53 : 2 ^ 53 = 9007199254740992.
Proof. reflexivity. Qed.

Lemma roundMagnitude_small (m : Z) : m < 2 ^ 53 -> JS.roundMagnitude m = m.
Proof.
  intro H. unfold JS.roundMagnitude.
  destruct (Z.ltb_spec m (2 ^ 53)) as [_ | Hge]; [reflexivity | lia].
Qed.

(** From [2^53] on: the quotient by the spacing has 53 bits, and the
    rounded value is one of the two multiples of the spacing around [m]. *)
Lemma roundMagnitude_large (m : Z) :
  2 ^ 53 <= m ->
  let e := Z.log2 m - 52 in
  let q := m / 2 ^ e in
  let r := m mod 2 ^ e in
  1 <= e /\ 2 ^ 52 <= q < 2 ^ 53 /\ m = q * 2 ^ e + r /\ 0 <= r < 2 ^ e
  /\ 2 ^ e = 2 * 2 ^ (e - 1)
  /\ ((JS.roundMagnitude m = q * 2 ^ e /\ r <= 2 ^ (e - 1))
      \/ (JS.roundMagnitude m = (q + 1) * 2 ^ e /\ 2 ^ (e - 1) <= r)).
Proof.
  intros Hm e q r.
  assert (Hpos : 0 < m) by (rewrite pow2_53 in Hm; lia).
  pose proof (Z.log2_spec m Hpos) as [Hlo Hhi].
  assert (Hlog : 53 <= Z.log2 m).
  { apply Z.log2_le_pow2; [exact Hpos | exact Hm]. }
  assert (He : 1 <= e) by (unfold e; lia).
  assert (Hpe : 0 < 2 ^ e) by (apply Z.pow_pos_nonneg; lia).
  assert (Hsplit : 2 ^ Z.log2 m = 2 ^ 52 * 2 ^ e).
  { rewrite <- Z.pow_add_r by lia. f_equal. unfold e. lia. }
  assert (Hsucc : 2 ^ Z.succ (Z.log2 m) = 2 ^ 53 * 2 ^ e).
  { rewrite <- Z.pow_add_r by lia. f_equal. unfold e. lia. }
  assert (Hhalf : 2 ^ e = 2 * 2 ^ (e - 1)).
  { replace e with (Z.succ (e - 1)) at 1 by lia. apply Z.pow_succ_r. lia. }
  pose proof (Z.div_mod m (2 ^ e) ltac:(lia)) as Hdm.
  pose proof (Z.mod_pos_bound m (2 ^ e) Hpe) as Hr.
  fold q in Hdm. fold r in Hdm, Hr.
  assert (Hq : 2 ^ 52 <= q < 2 ^ 53).
  { split.
    - unfold q. apply Z.div_le_lower_bound; [exact Hpe |]. rewrite Z.mul_comm.
      rewrite <- Hsplit. exact Hlo.
    - unfold q. apply Z.div_lt_upper_bound; [exact Hpe |]. rewrite Z.mul_comm.
      rewrite <- Hsucc. exact Hhi. }
  split; [exact He |]. split; [exact Hq |]. split; [lia |]. split; [exact Hr |].
  split; [exact Hhalf |].
  unfold JS.roundMagnitude.
  destruct (Z.ltb_spec m (2 ^ 53)) as [Hlt | _]; [lia |].
  fold e. fold q. fold r.
  destruct (Z.ltb_spec r (2 ^ (e - 1))) as [Hlt | Hge]; simpl orb.
  - left. split; [reflexivity | lia].
  - destruct (Z.eqb_spec r (2 ^ (e - 1))) as [Heq | Hne]; simpl andb.
    + destruct (Z.even q); [left | right]; split; (reflexivity || lia).
    + right. split; [reflexivity | lia].
Qed.

Lemma roundMagnitude_lower (m : Z) : 0 <= m -> m <= 2 * JS.roundMagnitude m /\ (0 < m -> 0 < JS.roundMagnitude m).
Proof.
  intro H0. destruct (Z.lt_ge_cases m (2 ^ 53)) as [Hlt | Hge].
  - rewrite (roundMagnitude_small m Hlt). lia.
  - destruct (roundMagnitude_large m Hge) as (He & Hq & Hm & Hr & Hhalf & Hcases).
    set (e := Z.log2 m - 52) in *. set (q := m / 2 ^ e) in *. set (r := m mod 2 ^ e) in *.
    assert (0 < 2 ^ e) by (apply Z.pow_pos_nonneg; lia).
    assert (0 < 2 ^ 52) by reflexivity.
    destruct Hcases as [[-> Hle] | [-> Hle]]; nia.
Qed.

Lemma roundMagnitude_nonneg (m : Z) : 0 <= m -> 0 <= JS.roundMagnitude m.
Proof. intro H. pose proof (roundMagnitude_lower m H). lia. Qed.

Lemma roundMagnitude_zero_iff (m : Z) : 0 <= m -> (JS.roundMagnitude m = 0 <-> m = 0).
Proof.
  intro H. pose proof (roundMagnitude_lower m H) as [H1 H2]. split.
  - intro E. lia.
  - intros ->. reflexivity.
Qed.

(** An integer of magnitude at most [2^53] is a double. *)
Lemma ofZ_exact (z : Z) : Z.abs z <= 2 ^ 53 -> JS.ofZ z = JS.Finite z.
Proof.
  intro H. unfold JS.ofZ.
  assert (Hr : JS.roundMagnitude (Z.abs z) = Z.abs z).
  { destruct (Z.eq_dec (Z.abs z) (2 ^ 53)) as [-> | Hne]; [reflexivity |].
    apply roundMagnitude_small. lia. }
  rewrite Hr.
  destruct (Z.leb_spec (2 ^ 1024) (Z.abs z)) as [Hbig | _].
  - exfalso. assert (2 ^ 53 < 2 ^ 1024) by reflexivity. lia.
  - f_equal. rewrite Z.mul_comm. apply Z.abs_sgn.
Qed.

Lemma ofZ_not_NaN (z : Z) : JS.ofZ z <> JS.NaN.
Proof.
  unfold JS.ofZ. destruct (2 ^ 1024 <=? JS.roundMagnitude (Z.abs z)); [| discriminate].
  destruct (z <? 0); discriminate.
Qed.

(** The sign is kept by the rounding: a non-negative integer is read as a
    non-negative number or as [Infinity], and as zero only when it is zero. *)
Lemma ofZ_nonneg (z : Z) :
  0 <= z ->
  JS.ofZ z = JS.Infinity
  \/ exists w, JS.ofZ z = JS.Finite w /\ 0 <= w /\ (w = 0 <-> z = 0).
Proof.
  intro H. unfold JS.ofZ. rewrite (Z.abs_eq z H).
  destruct (2 ^ 1024 <=? JS.roundMagnitude z).
  - left. destruct (Z.ltb_spec z 0); [lia | reflexivity].
  - right. exists (Z.sgn z * JS.roundMagnitude z). split; [reflexivity |].
    pose proof (roundMagnitude_lower z H) as [H1 H2].
    pose proof (roundMagnitude_zero_iff z H) as H3.
    destruct (Z.eq_dec z 0) as [-> | Hne]; [split; [lia | split; reflexivity] |].
    rewrite (Z.sgn_pos z) by lia. split; [lia |]. split; lia.
Qed.

Lemma ofZ_opp_abs (z : Z) : JS.abs (JS.ofZ (- z)) = JS.abs (JS.ofZ z).
Proof.
  unfold JS.ofZ. rewrite Z.abs_opp.
  destruct (2 ^ 1024 <=? JS.roundMagnitude (Z.abs z)).
  - destruct (- z <? 0), (z <? 0); reflexivity.
  - simpl. f_equal. rewrite Z.sgn_opp. lia.
Qed.

Lemma ofZ_zero_iff (z : Z) : JS.ofZ z = JS.Finite 0 <-> z = 0.
Proof.
  split; [| intros ->; reflexivity].
  unfold JS.ofZ. destruct (2 ^ 1024 <=? JS.roundMagnitude (Z.abs z)).
  - destruct (z <? 0); discriminate.
  - intro E. injection E as E.
    pose proof (roundMagnitude_zero_iff (Z.abs z) (Z.abs_nonneg z)) as Hz.
    destruct (Z.eq_dec z 0) as [-> | Hne]; [reflexivity |].
    assert (JS.roundMagnitude (Z.abs z) <> 0) by (intro E0; apply Hz in E0; lia).
    assert (Z.sgn z <> 0) by (destruct z; [congruence | discriminate | discriminate]).
    nia.
Qed.

Lemma pow2_split (a b : Z) : 0 <= a -> 0 <= b -> 2 ^ (a + b) = 2 ^ a * 2 ^ b.
Proof. intros. apply Z.pow_add_r; assumption. Qed.

(** No double lies strictly between two neighbouring multiples of the
    spacing. *)
Lemma no_double_between (k j e q : Z) :
  0 <= j -> 0 <= e -> 0 <= k < 2 ^ 53 -> 2 ^ 52 <= q ->
  k * 2 ^ j <= q * 2 ^ e \/ (q + 1) * 2 ^ e <= k * 2 ^ j.
Proof.
  intros Hj He Hk Hq.
  assert (Hpe : 0 < 2 ^ e) by (apply Z.pow_pos_nonneg; lia).
  assert (Hpj : 0 < 2 ^ j) by (apply Z.pow_pos_nonneg; lia).
  destruct (Z.lt_ge_cases j e) as [Hlt | Hge].
  - left. assert (He' : 2 ^ e = 2 ^ j * 2 ^ (e - j)).
    { rewrite <- pow2_split by lia. f_equal. lia. }
    assert (Hd : 2 <= 2 ^ (e - j)).
    { change 2 with (2 ^ 1) at 1. apply Z.pow_le_mono_r; lia. }
    assert (H53 : 2 ^ 53 = 2 * 2 ^ 52) by reflexivity.
    rewrite He'. nia.
  - assert (Hj' : 2 ^ j = 2 ^ e * 2 ^ (j - e)).
    { rewrite <- pow2_split by lia. f_equal. lia. }
    assert (Hd : 0 < 2 ^ (j - e)) by (apply Z.pow_pos_nonneg; lia).
    rewrite Hj'.
    destruct (Z.le_gt_cases (k * 2 ^ (j - e)) q) as [Hle | Hgt]; [left | right]; nia.
Qed.

(** The rounded magnitude is a double, and no double is nearer. *)
Lemma roundMagnitude_nearest (m : Z) :
  0 <= m ->
  (exists k j, 0 <= j /\ 0 <= k < 2 ^ 53 /\ JS.roundMagnitude m = k * 2 ^ j)
  /\ forall k j, 0 <= j -> 0 <= k < 2 ^ 53 ->
       Z.abs (JS.roundMagnitude m - m) <= Z.abs (k * 2 ^ j - m).
Proof.
  intro H0. destruct (Z.lt_ge_cases m (2 ^ 53)) as [Hlt | Hge].
  - rewrite (roundMagnitude_small m Hlt). split.
    + exists m, 0. split; [lia |]. split; [lia |]. simpl. lia.
    + intros. lia.
  - destruct (roundMagnitude_large m Hge) as (He & Hq & Hm & Hr & Hhalf & Hcases).
    set (e := Z.log2 m - 52) in *. set (q := m / 2 ^ e) in *. set (r := m mod 2 ^ e) in *.
    assert (Hpe : 0 < 2 ^ e) by (apply Z.pow_pos_nonneg; lia).
    assert (H52 : 0 < 2 ^ 52) by reflexivity.
    assert (H53 : 2 ^ 53 = 2 * 2 ^ 52) by reflexivity.
    split.
    + destruct Hcases as [[-> _] | [-> _]].
      * exists q, e. split; [lia |]. split; [lia | reflexivity].
      * destruct (Z.eq_dec (q + 1) (2 ^ 53)) as [E | NE].
        -- exists (2 ^ 52), (e + 1). split; [lia |]. split; [lia |].
           rewrite E, H53, (pow2_split e 1) by lia. change (2 ^ 1) with 2. lia.
        -- exists (q + 1), e. split; [lia |]. split; [lia | reflexivity].
    + intros k j Hj Hk.
      destruct (no_double_between k j e q Hj ltac:(lia) Hk ltac:(lia)) as [Hy | Hy];
        destruct Hcases as [[-> Hh] | [-> Hh]]; lia.
Qed.

(** Numbers are read through [JS.ofZ]: the double nearest to the integer,
    with the sign of the integer. *)
Lemma ofZ_nearest (z w : Z) :
  JS.ofZ z = JS.Finite w ->
  representable w
  /\ forall y, representable y -> Z.abs (w - z) <= Z.abs (y - z).
Proof.
  unfold JS.ofZ.
  destruct (Z.leb_spec (2 ^ 1024) (JS.roundMagnitude (Z.abs z))) as [Hbig | Hsmall];
    [destruct (z <? 0); discriminate |].
  intro E. injection E as <-.
  destruct (roundMagnitude_nearest (Z.abs z) (Z.abs_nonneg z)) as [(k & j & Hj & Hk & Hrm) Hnear].
  pose proof (roundMagnitude_nonneg (Z.abs z) (Z.abs_nonneg z)) as Hnn.
  set (m := JS.roundMagnitude (Z.abs z)) in *.
  assert (Hs : Z.sgn z = 0 /\ z = 0 \/ Z.sgn z = 1 /\ 0 < z \/ Z.sgn z = -1 /\ z < 0)
    by (destruct z; simpl; lia).
  split.
  - exists (Z.sgn z * k), j. split; [exact Hj |]. split; [| split].
    + destruct Hs as [[-> _] | [[-> _] | [-> _]]]; lia.
    + rewrite Hrm; ring.
    + destruct Hs as [[-> _] | [[-> _] | [-> _]]]; lia.
  - intros y (k' & j' & Hj' & Hk' & -> & _).
    specialize (Hnear (Z.abs k') j' Hj' ltac:(lia)).
    assert (Hpj : 0 < 2 ^ j') by (apply Z.pow_pos_nonneg; lia).
    assert (Habs : Z.abs (k' * 2 ^ j') = Z.abs k' * 2 ^ j').
    { rewrite Z.abs_mul. f_equal. lia. }
    destruct Hs as [[-> Hz] | [[-> Hz] | [-> Hz]]]; lia.
Qed.

Lemma roundMagnitude_unfold (m : Z) :
  2 ^ 53 <= m ->
  let e := Z.log2 m - 52 in
  let q := m / 2 ^ e in
  let r := m mod 2 ^ e in
  JS.roundMagnitude m
  = (if ((r <? 2 ^ (e - 1)) || ((r =? 2 ^ (e - 1)) && Z.even q))%bool then q else q + 1)
    * 2 ^ e.
Proof.
  intros H e q r. unfold JS.roundMagnitude.
  destruct (Z.ltb_spec m (2 ^ 53)) as [Hlt | _]; [lia | reflexivity].
Qed.

(** The rounding overflows exactly from [2^1024 - 2^970] on, half a
    spacing above the largest double. *)
Lemma roundMagnitude_overflow (m : Z) :
  0 <= m -> (2 ^ 1024 <= JS.roundMagnitude m <-> 2 ^ 1024 - 2 ^ 970 <= m).
Proof.
  intro H0.
  assert (K1 : 2 ^ 53 < 2 ^ 1024 - 2 ^ 970) by reflexivity.
  assert (K2 : 2 ^ 1023 < 2 ^ 1024 - 2 ^ 970) by reflexivity.
  assert (K3 : 2 ^ 1024 = 2 ^ 53 * 2 ^ 971) by reflexivity.
  assert (K4 : 2 ^ 971 = 2 * 2 ^ 970) by reflexivity.
  assert (K5 : 2 ^ 1024 = 2 * 2 ^ 1023) by reflexivity.
  assert (K6 : 0 < 2 ^ 970) by reflexivity.
  destruct (Z.lt_ge_cases m (2 ^ 53)) as [Hlt | Hge].
  - rewrite (roundMagnitude_small m Hlt). lia.
  - destruct (roundMagnitude_large m Hge) as (He & Hq & Hm & Hr & Hhalf & Hcases).
    pose proof (roundMagnitude_unfold m Hge) as Hrm. cbv zeta in Hrm.
    assert (Hpos : 0 < m) by lia.
    pose proof (Z.log2_spec m Hpos) as [Hlo Hhi].
    set (e := Z.log2 m - 52) in *. set (q := m / 2 ^ e) in *. set (r := m mod 2 ^ e) in *.
    assert (Hpe : 0 < 2 ^ e) by (apply Z.pow_pos_nonneg; lia).
    assert (Hsplit : 2 ^ Z.log2 m = 2 ^ 52 * 2 ^ e).
    { rewrite <- pow2_split by lia. f_equal. unfold e. lia. }
    assert (Hsucc : 2 ^ Z.succ (Z.log2 m) = 2 ^ 53 * 2 ^ e).
    { rewrite <- pow2_split by lia. f_equal. unfold e. lia. }
    assert (H52 : 0 < 2 ^ 52) by reflexivity.
    assert (H53 : 2 ^ 53 = 2 * 2 ^ 52) by reflexivity.
    destruct (Z.lt_trichotomy (Z.log2 m) 1023) as [Hl | [Hl | Hl]].
    + (* below 2^1023 *)
      assert (2 ^ Z.succ (Z.log2 m) <= 2 ^ 1023) by (apply Z.pow_le_mono_r; lia).
      split; intro Hx; exfalso.
      * destruct Hcases as [[E _] | [E _]]; rewrite E in Hx; nia.
      * lia.
    + (* between 2^1023 and 2^1024 *)
      assert (Ee : e = 971) by (unfold e; lia).
      rewrite Ee in *. change (2 ^ (971 - 1)) with (2 ^ 970) in *.
      rewrite Hl in Hsucc. change (Z.succ 1023) with 1024 in Hsucc.
      rewrite Hrm. clear Hrm Hcases.
      destruct (Z.ltb_spec r (2 ^ 970)) as [Hlt | Hge']; cbn [orb]; [lia |].
      destruct (Z.eqb_spec r (2 ^ 970)) as [Heq | Hne]; cbn [andb]; [| lia].
      destruct (Z.even q) eqn:Ev; [| lia].
      split; intro Hx; [lia |]. exfalso.
      assert (Eq : q = 2 ^ 53 - 1) by lia.
      rewrite Eq in Ev. discriminate Ev.
    + (* from 2^1024 on *)
      assert (2 ^ 1024 <= 2 ^ Z.log2 m) by (apply Z.pow_le_mono_r; lia).
      split; intro Hx; [lia |].
      destruct Hcases as [[E _] | [E _]]; rewrite E; nia.
Qed.

Lemma ofZ_infinite (z : Z) :
  (JS.ofZ z = JS.Infinity <-> 2 ^ 1024 - 2 ^ 970 <= z)
  /\ (JS.ofZ z = JS.NegInfinity <-> z <= - (2 ^ 1024 - 2 ^ 970)).
Proof.
  pose proof (roundMagnitude_overflow (Z.abs z) (Z.abs_nonneg z)) as Hov.
  assert (K : 0 < 2 ^ 1024 - 2 ^ 970) by reflexivity.
  unfold JS.ofZ.
  destruct (Z.leb_spec (2 ^ 1024) (JS.roundMagnitude (Z.abs z))) as [Hbig | Hsmall].
  - apply Hov in Hbig.
    destruct (Z.ltb_spec z 0) as [Hneg | Hpos]; split; split; intro H;
      try discriminate; try reflexivity; lia.
  - assert (Hno : ~ 2 ^ 1024 - 2 ^ 970 <= Z.abs z) by (intro H; apply Hov in H; lia).
    split; split; intro H; try discriminate; lia.
Qed.

(* ===================================================================== *)
(** ** The order of numbers *)
(* ===================================================================== *)

Lemma ltb_irrefl (x : JS.number) : JS.ltb x x = false.
Proof. destruct x; simpl; [apply Z.ltb_irrefl | reflexivity ..]. Qed.

Lemma ltb_trans (x y z : JS.number) :
  JS.ltb x y = true -> JS.ltb y z = true -> JS.ltb x z = true.
Proof.
  destruct x, y, z; simpl; try discriminate; try reflexivity.
  rewrite !Z.ltb_lt. lia.
Qed.

(** Two numbers, neither of them [NaN], are comparable. *)
Lemma ltb_total (x y : JS.number) :
  x <> JS.NaN -> y <> JS.NaN ->
  JS.ltb x y = true \/ x = y \/ JS.ltb y x = true.
Proof.
  destruct x as [a| | |], y as [b| | |]; simpl; intros Hx Hy; auto;
    try (exfalso; apply Hx; reflexivity); try (exfalso; apply Hy; reflexivity).
  rewrite !Z.ltb_lt. destruct (Z.lt_trichotomy a b) as [H | [-> | H]]; auto.
Qed.

Lemma ltb_not_NaN (x y : JS.number) : JS.ltb x y = true -> x <> JS.NaN /\ y <> JS.NaN.
Proof. destruct x, y; simpl; intro H; split; discriminate. Qed.

(** [x < y] and [y] not above [z]: then [x < z]. *)
Lemma ltb_le_trans (x y z : JS.number) :
  JS.ltb x y = true -> JS.ltb z y = false -> z <> JS.NaN -> JS.ltb x z = true.
Proof.
  intros Hxy Hzy Hz. destruct (ltb_not_NaN x y Hxy) as [_ Hy].
  destruct (ltb_total y z Hy Hz) as [H | [<- | H]]; [| exact Hxy | congruence].
  exact (ltb_trans x y z Hxy H).
Qed.

(* ===================================================================== *)
(** ** Scoring function *)
(* ===================================================================== *)

Lemma nonNegative_ofZ (z : Z) : 0 <= z -> nonNegative (JS.ofZ z).
Proof.
  intro H. destruct (ofZ_nonneg z H) as [-> | (w & -> & Hw & _)]; simpl; auto.
Qed.

(** The absolute value of a difference is a non-negative number,
    [Infinity], or [NaN] when two infinities of the same sign meet. *)
Lemma abs_sub_cases (x y : JS.number) :
  (JS.abs (JS.sub x y) = JS.NaN /\ (isFinite x = false \/ isFinite y = false))
  \/ nonNegative (JS.abs (JS.sub x y)).
Proof.
  destruct x as [a| | |], y as [b| | |]; simpl; auto.
  right. unfold JS.ofZ.
  destruct (2 ^ 1024 <=? JS.roundMagnitude (Z.abs (a - b)));
    [destruct (a - b <? 0); exact I | simpl; lia].
Qed.

Lemma abs_sub_finite (a b : Z) :
  exists d, JS.abs (JS.sub (JS.Finite a) (JS.Finite b)) = d
            /\ (d = JS.Infinity \/ exists w, d = JS.Finite w /\ 0 <= w /\ (w = 0 <-> a = b)).
Proof.
  simpl. unfold JS.ofZ.
  destruct (2 ^ 1024 <=? JS.roundMagnitude (Z.abs (a - b))) eqn:E.
  - eexists. split; [reflexivity |]. left. destruct (a - b <? 0); reflexivity.
  - eexists. split; [reflexivity |]. right. eexists. split; [reflexivity |].
    pose proof (roundMagnitude_zero_iff (Z.abs (a - b)) (Z.abs_nonneg _)) as Hz.
    pose proof (roundMagnitude_nonneg (Z.abs (a - b)) (Z.abs_nonneg _)) as Hn.
    split; [lia |]. split.
    + intro H0.
      assert (JS.roundMagnitude (Z.abs (a - b)) = 0) as H1 by lia.
      apply Hz in H1. lia.
    + intros ->. rewrite Z.sub_diag. reflexivity.
Qed.

Lemma five_times_cases (d : JS.number) :
  nonNegative d -> nonNegative (JS.mul (JS.Finite 5) d).
Proof.
  destruct d as [w| | |]; cbn [JS.mul nonNegative JS.signedInfinity];
    try contradiction; [| exact (fun _ => I)].
  intro H. apply nonNegative_ofZ. lia.
Qed.

Lemma add_nonNegative (x y : JS.number) :
  nonNegative x -> nonNegative y -> nonNegative (JS.add x y).
Proof.
  destruct x as [a| | |], y as [b| | |]; cbn [JS.add nonNegative]; try contradiction; auto.
  intros Ha Hb. apply nonNegative_ofZ. lia.
Qed.

(** The sum of two non-negative numbers is zero only when both are. *)
Lemma add_zero_iff (x y : JS.number) :
  nonNegative x -> nonNegative y ->
  (JS.add x y = JS.Finite 0 <-> x = JS.Finite 0 /\ y = JS.Finite 0).
Proof.
  destruct x as [a| | |], y as [b| | |]; cbn [JS.add nonNegative]; try contradiction;
    intros Ha Hb; try (split; [discriminate | intros [H1 H2]; discriminate]).
  rewrite ofZ_zero_iff. split.
  - intro H. split; f_equal; lia.
  - intros [H1 H2]. injection H1 as ->. injection H2 as ->. reflexivity.
Qed.

Lemma five_times_zero_iff (d : JS.number) :
  nonNegative d -> (JS.mul (JS.Finite 5) d = JS.Finite 0 <-> d = JS.Finite 0).
Proof.
  destruct d as [w| | |]; cbn [JS.mul nonNegative JS.signedInfinity];
    try contradiction; intro H.
  - rewrite ofZ_zero_iff. split; [intro E; f_equal; lia | intro E; injection E as ->; reflexivity].
  - split; discriminate.
Qed.

(** The distance is never negative: it is a non-negative number or
    [Infinity], or else [NaN], which takes a score that is not finite. *)
Lemma scoreDifference_cases (v : Variant) (p a : Score) :
  (scoreDifference v p a = JS.NaN /\ (finiteScore p = false \/ finiteScore a = false))
  \/ nonNegative (scoreDifference v p a).
Proof.
  unfold scoreDifference, finiteScore.
  destruct (abs_sub_cases (runs p) (runs a)) as [[Er Hr] | Hr];
    destruct (abs_sub_cases (wickets p) (wickets a)) as [[Ew Hw] | Hw];
    destruct v.
  - left. split; [exact Er |].
    destruct Hr as [-> | ->]; [left | right]; reflexivity.
  - left. rewrite Er. split; [reflexivity |].
    destruct Hr as [-> | ->]; [left | right]; reflexivity.
  - left. split; [exact Er |].
    destruct Hr as [-> | ->]; [left | right]; reflexivity.
  - left. rewrite Er. split; [reflexivity |].
    destruct Hr as [-> | ->]; [left | right]; reflexivity.
  - right. exact Hr.
  - left. rewrite Ew. split.
    + destruct (JS.abs (JS.sub (runs p) (runs a))); reflexivity.
    + destruct Hw as [-> | ->]; [left | right]; apply andb_false_r.
  - right. exact Hr.
  - right. apply add_nonNegative; [exact Hr | apply five_times_cases, Hw].
Qed.

Lemma scoreDifference_finite (v : Variant) (p a : Score) :
  finiteScore p = true -> finiteScore a = true -> nonNegative (scoreDifference v p a).
Proof.
  intros Hp Ha. destruct (scoreDifference_cases v p a) as [[_ [H | H]] | H];
    [congruence | congruence | exact H].
Qed.

Lemma scoreDifference_self (v : Variant) (r w : Z) :
  scoreDifference v (mkScore (JS.Finite r) (JS.Finite w))
                  (mkScore (JS.Finite r) (JS.Finite w)) = JS.Finite 0.
Proof.
  unfold scoreDifference. cbn [runs wickets JS.sub]. rewrite !Z.sub_diag.
  destruct v; reflexivity.
Qed.

(** While the value of the formula does not exceed [2^53], every step is
    exact. *)
Lemma scoreDifference_exact (pr pw ar aw : Z) :
  Z.abs (pr - ar) + 5 * Z.abs (pw - aw) <= 2 ^ 53 ->
  scoreDifference Baseline (mkScore (JS.Finite pr) (JS.Finite pw))
                  (mkScore (JS.Finite ar) (JS.Finite aw))
  = JS.Finite (Z.abs (pr - ar))
  /\ scoreDifference Advanced (mkScore (JS.Finite pr) (JS.Finite pw))
                     (mkScore (JS.Finite ar) (JS.Finite aw))
     = JS.Finite (Z.abs (pr - ar) + 5 * Z.abs (pw - aw)).
Proof.
  intro H. unfold scoreDifference. cbn [runs wickets JS.sub].
  assert (K : 0 < 2 ^ 53) by reflexivity.
  rewrite (ofZ_exact (pr - ar)) by lia.
  rewrite (ofZ_exact (pw - aw)) by lia.
  cbn [JS.abs JS.mul]. rewrite (ofZ_exact (5 * Z.abs (pw - aw))) by lia.
  cbn [JS.add]. rewrite (ofZ_exact (Z.abs (pr - ar) + 5 * Z.abs (pw - aw))) by lia.
  split; reflexivity.
Qed.

Lemma representable_small (z : Z) : Z.abs z <= 2 ^ 53 -> representable z.
Proof.
  intro H. assert (K : 2 ^ 53 < 2 ^ 1024) by reflexivity.
  destruct (Z.eq_dec (Z.abs z) (2 ^ 53)) as [E | NE].
  - exists (Z.sgn z), 53. split; [lia |]. split; [| split].
    + destruct z; simpl; lia.
    + rewrite <- E. rewrite Z.mul_comm. symmetry. apply Z.abs_sgn.
    + lia.
  - exists z, 0. split; [lia |]. split; [lia |]. split; [simpl; lia | lia].
Qed.

(** C5, as the code has it.  While the value of the formula does not
    exceed 2^53 (as for all cricket scores), the simple variant returns
    |predicted.runs - actual.runs| and the advanced variant
    |predicted.runs - actual.runs| + 5 * |predicted.wickets - actual.wickets|.
    For all scores the distance is a function of the two scores and is
    never negative: it is a non-negative number or Infinity, or NaN, which
    takes a score that is not finite.  The distance of a finite score to
    itself is 0.  The advanced distance of 195/3 to 200/4 is 10. *)
Theorem scoreDifference_contract :
  (forall pr pw ar aw : Z,
      Z.abs (pr - ar) + 5 * Z.abs (pw - aw) <= 2 ^ 53 ->
      let predicted := mkScore (JS.Finite pr) (JS.Finite pw) in
      let actual := mkScore (JS.Finite ar) (JS.Finite aw) in
      scoreDifference Baseline predicted actual = JS.Finite (Z.abs (pr - ar))
      /\ scoreDifference Advanced predicted actual
         = JS.Finite (Z.abs (pr - ar) + 5 * Z.abs (pw - aw)))
  /\ (forall v predicted actual,
        (scoreDifference v predicted actual = JS.NaN
         /\ (finiteScore predicted = false \/ finiteScore actual = false))
        \/ nonNegative (scoreDifference v predicted actual))
  /\ (forall v r w,
        scoreDifference v (mkScore (JS.Finite r) (JS.Finite w))
                        (mkScore (JS.Finite r) (JS.Finite w)) = JS.Finite 0)
  /\ scoreDifference Advanced (mkScore (JS.Finite 195) (JS.Finite 3))
                     (mkScore (JS.Finite 200) (JS.Finite 4)) = JS.Finite 10
  /\ scoreDifference Baseline (mkScore (JS.Finite 195) (JS.Finite 4))
                     (mkScore (JS.Finite 200) (JS.Finite 4)) = JS.Finite 5.
Proof.
  split; [exact scoreDifference_exact |].
  split; [exact scoreDifference_cases |].
  split; [exact scoreDifference_self |].
  split; vm_compute; reflexivity.
Qed.

Lemma scoreDifference_contract_witness :
  scoreDifference Baseline (mkScore (JS.Finite 182) (JS.Finite 5))
                  (mkScore (JS.Finite 178) (JS.Finite 4)) = JS.Finite (Z.abs (182 - 178))
  /\ scoreDifference Advanced (mkScore (JS.Finite 182) (JS.Finite 5))
                     (mkScore (JS.Finite 178) (JS.Finite 4))
     = JS.Finite (Z.abs (182 - 178) + 5 * Z.abs (5 - 4)).
Proof.
  apply (proj1 scoreDifference_contract 182 5 178 4). vm_compute. discriminate.
Defined.

(** C5, as worded, does not hold.  The scores 9007199254740992/1 and 0/0
    hold integers; the formula gives 9007199254740997, the code
    9007199254740996.  The score read from a runs figure of 310 digits is
    at distance NaN from itself. *)
Lemma scoringContract_fails :
  ~ exactScoringFormula /\ ~ zeroSelfDistance
  /\ scoreDifference Advanced (mkScore (JS.Finite 9007199254740992) (JS.Finite 1))
                     (mkScore (JS.Finite 0) (JS.Finite 0))
     = JS.Finite 9007199254740996
  /\ (exists x, parseScore (hugeNumeral ++ "/0") = Some x
                /\ scoreDifference Baseline x x = JS.NaN).
Proof.
  split; [| split; [| split]].
  - intro H.
    assert (K : forall z, (Z.abs z <=? 9007199254740992) = true -> representable z).
    { intros z Hz. apply representable_small. apply Z.leb_le in Hz. exact Hz. }
    specialize (H 9007199254740992 1 0 0 (K 9007199254740992 eq_refl) (K 1 eq_refl)
                  (K 0 eq_refl) (K 0 eq_refl)).
    vm_compute in H. discriminate H.
  - intro H.
    assert (E : parseScore (hugeNumeral ++ "/0") = Some (mkScore JS.Infinity (JS.Finite 0)))
      by (vm_compute; reflexivity).
    specialize (H Baseline _ _ E). discriminate H.
  - vm_compute. reflexivity.
  - exists (mkScore JS.Infinity (JS.Finite 0)). split; vm_compute; reflexivity.
Qed.

(* ===================================================================== *)
(** ** The enumeration of the predictions of a match *)
(* ===================================================================== *)

Lemma ltb_asym (a b : string) : String.ltb a b = true -> String.ltb b a = false.
Proof.
  unfold String.ltb. rewrite (String.compare_antisym b a).
  destruct (String.compare a b); simpl; congruence.
Qed.

Lemma ltb_lt (a b : string) : String.ltb a b = true <-> OrderedTypeEx.String_as_OT.lt a b.
Proof.
  unfold String.ltb. rewrite <- OrderedTypeEx.String_as_OT.cmp_lt.
  unfold OrderedTypeEx.String_as_OT.cmp.
  destruct (String.compare a b); split; congruence.
Qed.

(** The binary order of texts: [a <= b] and [b <= c] give [a <= c]. *)
Lemma string_le_trans (a b c : string) :
  String.ltb b a = false -> String.ltb c b = false -> String.ltb c a = false.
Proof.
  intros Hab Hbc.
  destruct (String.ltb c a) eqn:Hca; [| reflexivity]. exfalso.
  destruct (String.compare a b) eqn:Cab.
  - apply String.compare_eq_iff in Cab. subst b. congruence.
  - assert (String.ltb a b = true) as H1 by (unfold String.ltb; now rewrite Cab).
    apply ltb_lt in H1. apply ltb_lt in Hca.
    pose proof (OrderedTypeEx.String_as_OT.lt_trans _ _ _ Hca H1) as H2.
    apply ltb_lt in H2. congruence.
  - unfold String.ltb in Hab. rewrite (String.compare_antisym b a), Cab in Hab.
    discriminate Hab.
Qed.

Lemma insertByUserId_perm (p : PredictionRow) (l : list PredictionRow) :
  Permutation (p :: l) (insertByUserId p l).
Proof.
  induction l as [|x rest IH]; simpl; [apply Permutation_refl |].
  destruct (String.ltb (userId x) (userId p)); [| apply Permutation_refl].
  eapply perm_trans; [apply perm_swap | apply perm_skip, IH].
Qed.

Lemma insertByUserId_sorted (p : PredictionRow) (l : list PredictionRow) :
  Sorted userIdNotAbove l -> Sorted userIdNotAbove (insertByUserId p l).
Proof.
  induction l as [|x rest IH]; simpl; intro Hs.
  - repeat constructor.
  - destruct (String.ltb (userId x) (userId p)) eqn:E.
    + inversion Hs as [|? ? Hrest Hhd]; subst.
      constructor; [apply IH, Hrest |].
      destruct rest as [|y rest']; simpl.
      * constructor. apply ltb_asym, E.
      * destruct (String.ltb (userId y) (userId p));
          constructor; [inversion Hhd; assumption | apply ltb_asym, E].
    + constructor; [exact Hs |]. constructor. exact E.
Qed.

Lemma sortByUserId_perm (l : list PredictionRow) :
  Permutation l (fold_right insertByUserId [] l).
Proof.
  induction l as [|p l IH]; simpl; [constructor |].
  eapply perm_trans; [apply perm_skip, IH | apply insertByUserId_perm].
Qed.

Lemma userIdNotAbove_trans (a b c : PredictionRow) :
  userIdNotAbove a b -> userIdNotAbove b c -> userIdNotAbove a c.
Proof. unfold userIdNotAbove. apply string_le_trans. Qed.

Lemma sortByUserId_sorted (l : list PredictionRow) :
  StronglySorted userIdNotAbove (fold_right insertByUserId [] l).
Proof.
  apply Sorted_StronglySorted; [intros a b c; apply userIdNotAbove_trans |].
  induction l as [|p l IH]; simpl; [constructor |].
  apply insertByUserId_sorted, IH.
Qed.

Lemma getPredictionsForMatch_perm (d : Database) (mid : string) :
  Permutation (filter (fun p => String.eqb (matchId p) mid) (predictions d))
              (getPredictionsForMatch d mid).
Proof. apply sortByUserId_perm. Qed.

Lemma getPredictionsForMatch_in (d : Database) (mid : string) (p : PredictionRow) :
  In p (getPredictionsForMatch d mid) <-> In p (predictions d) /\ matchId p = mid.
Proof.
  rewrite <- String.eqb_eq.
  rewrite <- (filter_In (fun q => String.eqb (matchId q) mid) p (predictions d)).
  split; intro H.
  - exact (Permutation_in _ (Permutation_sym (getPredictionsForMatch_perm d mid)) H).
  - exact (Permutation_in _ (getPredictionsForMatch_perm d mid) H).
Qed.

(** The query enumerates exactly the stored rows of the match, each once,
    in ascending user id. *)
Lemma getPredictionsForMatch_enumerates (d : Database) (mid : string) :
  enumerationOf d mid (getPredictionsForMatch d mid).
Proof.
  split; [apply getPredictionsForMatch_perm |].
  split; [intro p; apply getPredictionsForMatch_in | apply sortByUserId_sorted].
Qed.

Lemma getPredictionsForMatch_updateMatch (d : Database) (p : MatchPatch) (mid : string) :
  getPredictionsForMatch (updateMatch d p) mid = getPredictionsForMatch d mid.
Proof. reflexivity. Qed.

(** A sorted list into which a row is inserted keeps, after a filter, the
    rows it had. *)
Lemma filter_insertByUserId (P : PredictionRow -> bool) (p : PredictionRow)
      (l : list PredictionRow) :
  StronglySorted userIdNotAbove l ->
  filter P (insertByUserId p l)
  = if P p then insertByUserId p (filter P l) else filter P l.
Proof.
  induction l as [|x rest IH]; intro Hs.
  - simpl. destruct (P p); reflexivity.
  - inversion Hs as [|? ? Hrest Hall]; subst. specialize (IH Hrest).
    cbn [insertByUserId].
    destruct (String.ltb (userId x) (userId p)) eqn:E.
    + cbn [filter]. rewrite IH.
      destruct (P x); destruct (P p); try reflexivity.
      cbn [insertByUserId]. rewrite E. reflexivity.
    + cbn [filter]. destruct (P p); [| reflexivity].
      destruct (P x) eqn:Px.
      * cbn [insertByUserId]. rewrite E. reflexivity.
      * f_equal. clear IH.
        assert (Hfirst : forall y, In y (filter P rest) ->
                                   String.ltb (userId y) (userId p) = false).
        { intros y Hy. apply filter_In in Hy. destruct Hy as [Hy _].
          rewrite Forall_forall in Hall. specialize (Hall y Hy).
          unfold userIdNotAbove in Hall.
          destruct (String.ltb (userId y) (userId p)) eqn:Ey; [| reflexivity].
          exfalso.
          assert (String.ltb (userId x) (userId p) = true) as Hx; [| congruence].
          apply ltb_lt. apply ltb_lt in Ey.
          destruct (String.compare (userId x) (userId y)) eqn:C.
          - apply String.compare_eq_iff in C. rewrite C. exact Ey.
          - assert (String.ltb (userId x) (userId y) = true) as H1
                by (unfold String.ltb; now rewrite C).
            apply ltb_lt in H1.
            exact (OrderedTypeEx.String_as_OT.lt_trans _ _ _ H1 Ey).
          - unfold String.ltb in Hall.
            rewrite (String.compare_antisym (userId y) (userId x)), C in Hall.
            discriminate Hall. }
        destruct (filter P rest) as [|y l']; [reflexivity |].
        cbn [insertByUserId]. rewrite (Hfirst y (or_introl eq_refl)). reflexivity.
Qed.

Lemma filter_sortByUserId (P : PredictionRow -> bool) (l : list PredictionRow) :
  filter P (fold_right insertByUserId [] l) = fold_right insertByUserId [] (filter P l).
Proof.
  induction l as [|p l IH]; [reflexivity |].
  cbn [fold_right filter].
  rewrite (filter_insertByUserId P p _ (sortByUserId_sorted l)), IH.
  destruct (P p); reflexivity.
Qed.

(* ===================================================================== *)
(** ** Winner resolution *)
(* ===================================================================== *)

Section WinnerLoop.

Variable v : Variant.
Variable actualScore : Score.

Local Abbreviation dist := (distanceOf v actualScore).
Local Abbreviation held := (loopState v actualScore).

Lemma held_not_NaN (winner : option PredictionRow) (bestDiff : JS.number) :
  held winner bestDiff -> bestDiff <> JS.NaN.
Proof.
  destruct winner as [w|]; simpl.
  - intros [-> H]. exact (proj1 (ltb_not_NaN _ _ H)).
  - intros ->. discriminate.
Qed.

(** What the loop returns from a state [(winner, bestDiff)]: the state is
    kept when no prediction is below [bestDiff]; otherwise the first of the
    closest predictions is taken. *)
Lemma winnerLoop_spec :
  forall preds winner bestDiff,
    held winner bestDiff ->
    exists winner' bestDiff',
      winnerLoop v actualScore preds winner bestDiff = (winner', bestDiff')
      /\ held winner' bestDiff'
      /\ (forall p, In p preds -> JS.ltb (dist p) bestDiff' = false)
      /\ ((winner' = winner /\ bestDiff' = bestDiff)
          \/ exists w before after,
               winner' = Some w
               /\ preds = (before ++ w :: after)%list
               /\ JS.ltb (dist w) bestDiff = true
               /\ forall p, In p before ->
                    JS.ltb (dist w) (dist p) = true \/ dist p = JS.NaN).
Proof.
  induction preds as [|p rest IH]; intros winner bestDiff Hheld.
  - exists winner, bestDiff. split; [reflexivity |]. split; [exact Hheld |].
    split; [intros ? [] | left; split; reflexivity].
  - cbn [winnerLoop]. fold (distanceOf v actualScore p). fold dist.
    destruct (JS.ltb (dist p) bestDiff) eqn:Hlt.
    + assert (Hp : held (Some p) (dist p)).
      { split; [reflexivity |].
        destruct winner as [w0|]; simpl in Hheld.
        - destruct Hheld as [-> Hw0]. exact (ltb_trans _ _ _ Hlt Hw0).
        - rewrite Hheld in Hlt. exact Hlt. }
      destruct (IH (Some p) (dist p) Hp) as (w' & b' & Hrun & Hheld' & Hall & Hpos).
      exists w', b'. split; [exact Hrun |]. split; [exact Hheld' |].
      destruct Hpos as [[-> ->] | (w & before & after & -> & -> & Hw & Hbefore)].
      * split.
        -- intros q [<- | Hq]; [apply ltb_irrefl | apply Hall, Hq].
        -- right. exists p, [], rest.
           split; [reflexivity |]. split; [reflexivity |]. split; [exact Hlt |].
           intros ? [].
      * split.
        -- intros q [Hq | Hq]; [subst q | apply Hall, Hq].
           destruct Hheld' as [-> _].
           destruct (JS.ltb (dist p) (dist w)) eqn:E; [| reflexivity].
           pose proof (ltb_trans _ _ _ E Hw) as Habs.
           rewrite ltb_irrefl in Habs. discriminate Habs.
        -- right. exists w, (p :: before), after.
           split; [reflexivity |]. split; [reflexivity |].
           split; [exact (ltb_trans _ _ _ Hw Hlt) |].
           intros q [<- | Hq]; [left; exact Hw | apply Hbefore, Hq].
    + destruct (IH winner bestDiff Hheld) as (w' & b' & Hrun & Hheld' & Hall & Hpos).
      exists w', b'. split; [exact Hrun |]. split; [exact Hheld' |].
      pose proof (held_not_NaN _ _ Hheld) as Hbest.
      destruct Hpos as [[-> ->] | (w & before & after & -> & -> & Hw & Hbefore)].
      * split; [| left; split; reflexivity].
        intros q [<- | Hq]; [exact Hlt | apply Hall, Hq].
      * split.
        -- intros q [Hq | Hq]; [subst q | apply Hall, Hq].
           destruct Hheld' as [-> _].
           destruct (JS.ltb (dist p) (dist w)) eqn:E; [| reflexivity].
           pose proof (ltb_trans _ _ _ E Hw). congruence.
        -- right. exists w, (p :: before), after.
           split; [reflexivity |]. split; [reflexivity |]. split; [exact Hw |].
           intros q [Hq | Hq]; [subst q | apply Hbefore, Hq].
           destruct (dist p) eqn:Eq; try (right; reflexivity); left;
             rewrite <- Eq in *;
             (apply (ltb_le_trans _ bestDiff); [exact Hw | exact Hlt | congruence]).
Qed.

(** The whole loop returns nobody when no prediction can win, and
    otherwise the first of the closest predictions. *)
Lemma selectWinner_resolved (preds : list PredictionRow) :
  resolvedWinner v actualScore preds (selectWinner v actualScore preds).
Proof.
  unfold selectWinner.
  destruct (winnerLoop_spec preds None JS.Infinity eq_refl)
    as (w' & b' & Hrun & Hheld & Hall & Hpos).
  rewrite Hrun. cbn [fst].
  destruct Hpos as [[-> ->] | (w & before & after & -> & -> & Hw & Hbefore)].
  - intros p Hp Hcan. unfold canWin in Hcan. fold dist in Hcan.
    rewrite (Hall p Hp) in Hcan. discriminate Hcan.
  - exists before, after. split; [reflexivity |]. split; [exact Hw |].
    destruct Hheld as [-> _]. split; [exact Hall | exact Hbefore].
Qed.

End WinnerLoop.


Lemma end_reply (v : Variant) (ADMIN_IDS : list string) (st : State) (i : Interaction)
      (scoreStr mid : string) (actualScore : Score) :
  command i = End scoreStr ->
  isAdminOf ADMIN_IDS (callerId i) = true ->
  currentMatch st = Some mid ->
  parseScore scoreStr = Some actualScore ->
  interactionCreate v ADMIN_IDS st i
  = (Result actualScore
       (selectWinner v actualScore (getPredictionsForMatch (db st) mid)),
     mkState None (updateMatch (db st) (endPatch mid actualScore))).
Proof.
  intros Hcmd Hadmin Hcur Hparse. unfold interactionCreate.
  rewrite Hcmd, Hadmin, Hcur, Hparse. destruct v; reflexivity.
Qed.




(** The session of the sample: A predicts 180/5, B predicts 175/6, the
    actual score is 178/5; A wins under both metrics (2 against 3, and 2
    against 8). *)
Example sample_session_winner :
  forall v,
    exists winner,
      fst (interactionCreate v sampleAdmins (sampleState v) sampleEnd)
      = Result (mkScore (JS.Finite 178) (JS.Finite 5)) (Some winner)
      /\ userId winner = "201" /\ predRuns winner = JS.Finite 180
      /\ predWickets winner = JS.Finite 5.
Proof.
  intros [|]; eexists; (split; [vm_compute; reflexivity | repeat split]).
Qed.

(* ===================================================================== *)
(** ** Score parser *)
(* ===================================================================== *)

Example split_examples :
  JS.split "/" "a/b" = ["a"; "b"] /\ JS.split "/" "" = [""]
  /\ JS.split "/" "200/" = ["200"; ""] /\ JS.split "/" "1/2/3" = ["1"; "2"; "3"].
Proof. repeat split. Qed.

(** EM SPACE is E2 80 83, NO-BREAK SPACE is 0xC2 0xA0, the byte order mark is
    EF BB BF; the euro sign, E2 82 AC, is not white space. *)
Example trim_examples :
  JS.trim "  200 " = "200" /\ JS.trim " a b " = "a b" /\ JS.trim "   " = ""
  /\ JS.trim (bytes [226; 128; 131] ++ "200" ++ bytes [194; 160; 239; 187; 191]) = "200"
  /\ JS.trim (bytes [226; 130; 172] ++ " ") = bytes [226; 130; 172].
Proof. repeat split. Qed.

Example parseInt_examples :
  JS.parseInt "42" = JS.Finite 42 /\ JS.parseInt "-7" = JS.Finite (-7)
  /\ JS.parseInt "+7" = JS.Finite 7 /\ JS.parseInt "007" = JS.Finite 7
  /\ JS.parseInt "4abc" = JS.Finite 4 /\ JS.parseInt "12.5" = JS.Finite 12
  /\ JS.parseInt "" = JS.NaN /\ JS.parseInt "abc" = JS.NaN
  /\ JS.parseInt "-" = JS.NaN /\ JS.parseInt "--1" = JS.NaN
  /\ JS.parseInt "9007199254740993" = JS.Finite 9007199254740992
  /\ JS.parseInt hugeNumeral = JS.Infinity
  /\ JS.parseInt ("-" ++ hugeNumeral) = JS.NegInfinity.
Proof. repeat split; vm_compute; reflexivity. Qed.

Section Split.

Variable sep : ascii.

Lemma split_not_nil (s : string) : JS.split sep s <> [].
Proof.
  destruct s as [|c rest]; simpl; [discriminate |].
  destruct (Ascii.eqb c sep); [discriminate |].
  destruct (JS.split sep rest); discriminate.
Qed.

(** A text without the separator is its own single segment. *)
Lemma split_without_separator (s : string) :
  containsChar sep s = false -> JS.split sep s = [s].
Proof.
  induction s as [|c rest IH]; simpl; [reflexivity |].
  destruct (Ascii.eqb c sep); simpl; [discriminate |].
  intro H. rewrite (IH H). reflexivity.
Qed.

(** The first separator ends the first segment. *)
Lemma split_at_first_separator (a b : string) :
  containsChar sep a = false ->
  JS.split sep (a ++ String sep b) = a :: JS.split sep b.
Proof.
  induction a as [|c rest IH]; simpl.
  - intros _. rewrite Ascii.eqb_refl. reflexivity.
  - destruct (Ascii.eqb c sep); simpl; [discriminate |].
    intro H. rewrite (IH H). reflexivity.
Qed.

(** No segment contains the separator. *)
Lemma split_segments_clean (s : string) :
  Forall (fun p => containsChar sep p = false) (JS.split sep s).
Proof.
  induction s as [|c rest IH]; simpl.
  - constructor; [reflexivity | constructor].
  - destruct (Ascii.eqb c sep) eqn:E.
    + constructor; [reflexivity | exact IH].
    + destruct (JS.split sep rest) as [|p ps]; [repeat constructor; simpl; now rewrite E |].
      inversion IH as [|? ? Hp Hps]; subst.
      constructor; [simpl; rewrite E; exact Hp | exact Hps].
Qed.

(** Joining the segments with the separator gives the text back. *)
Lemma split_join (s : string) :
  String.concat (String sep "") (JS.split sep s) = s.
Proof.
  induction s as [|c rest IH]; simpl; [reflexivity |].
  destruct (Ascii.eqb_spec c sep) as [-> | Hne].
  - pose proof (split_not_nil rest) as Hnil.
    destruct (JS.split sep rest) as [|p ps]; [contradiction |].
    simpl in *. rewrite IH. reflexivity.
  - pose proof (split_not_nil rest) as Hnil.
    destruct (JS.split sep rest) as [|p ps]; [contradiction |].
    destruct ps as [|q qs]; simpl in *; rewrite <- IH; reflexivity.
Qed.

(** Exactly two segments: the text is [a], one separator, [b]. *)
Lemma split_two_iff (s a b : string) :
  JS.split sep s = [a; b] <->
  s = a ++ String sep b /\ containsChar sep a = false /\ containsChar sep b = false.
Proof.
  split.
  - intro H. pose proof (split_join s) as Hj. pose proof (split_segments_clean s) as Hc.
    rewrite H in Hj, Hc. simpl in Hj.
    inversion Hc as [|? ? Ha Hrest]. inversion Hrest as [|? ? Hb _].
    split; [symmetry; exact Hj | split; assumption].
  - intros (-> & Ha & Hb).
    rewrite (split_at_first_separator a b Ha), (split_without_separator b Hb). reflexivity.
Qed.

End Split.

(** A text that does not start with white space is left by [trimStart]. *)
Lemma trimStart_fixed (s : string) :
  startsWithWhiteSpace s = false -> JS.trimStart s = s.
Proof.
  destruct s as [|a [|b [|c r]]]; cbn [startsWithWhiteSpace];
    try reflexivity; intro H; cbn [JS.trimStart].
  - rewrite orb_false_r in H. rewrite H. reflexivity.
  - destruct (JS.isWhiteSpace1 a); [discriminate |].
    destruct (JS.isWhiteSpace2 a b); [discriminate | reflexivity].
  - destruct (JS.isWhiteSpace1 a); [discriminate |].
    destruct (JS.isWhiteSpace2 a b); [discriminate |].
    destruct (JS.isWhiteSpace3 a b c); [discriminate | reflexivity].
Qed.

Lemma trimStart_step (s : string) :
  JS.trimStart s
  = match s with
    | EmptyString => s
    | String a r1 =>
        if JS.isWhiteSpace1 a then JS.trimStart r1
        else match r1 with
             | EmptyString => s
             | String b r2 =>
                 if JS.isWhiteSpace2 a b then JS.trimStart r2
                 else match r2 with
                      | EmptyString => s
                      | String c r3 =>
                          if JS.isWhiteSpace3 a b c then JS.trimStart r3 else s
                      end
             end
    end.
Proof. destruct s; reflexivity. Qed.

Lemma trimStart_clean_upto (n : nat) (s : string) :
  (String.length s <= n)%nat -> startsWithWhiteSpace (JS.trimStart s) = false.
Proof.
  revert s. induction n as [|n IH]; intros s Hlen.
  - destruct s; [reflexivity | simpl in Hlen; lia].
  - rewrite trimStart_step.
    destruct s as [|a [|b [|c r]]]; [reflexivity | ..]; cbn [String.length] in Hlen.
    + destruct (JS.isWhiteSpace1 a) eqn:E1; [reflexivity |].
      cbn [startsWithWhiteSpace]. rewrite E1. reflexivity.
    + destruct (JS.isWhiteSpace1 a) eqn:E1; [apply IH; simpl; lia |].
      destruct (JS.isWhiteSpace2 a b) eqn:E2; [reflexivity |].
      cbn [startsWithWhiteSpace]. rewrite E1, E2. reflexivity.
    + destruct (JS.isWhiteSpace1 a) eqn:E1; [apply IH; simpl; lia |].
      destruct (JS.isWhiteSpace2 a b) eqn:E2; [apply IH; simpl; lia |].
      destruct (JS.isWhiteSpace3 a b c) eqn:E3; [apply IH; simpl; lia |].
      cbn [startsWithWhiteSpace]. rewrite E1, E2, E3. reflexivity.
Qed.

Lemma trimStart_clean (s : string) : startsWithWhiteSpace (JS.trimStart s) = false.
Proof. exact (trimStart_clean_upto (String.length s) s (Nat.le_refl _)). Qed.

Lemma trimEnd_cons (a : ascii) (r : string) :
  JS.trimEnd (String a r) = "" \/ JS.trimEnd (String a r) = String a (JS.trimEnd r).
Proof.
  cbn [JS.trimEnd]. destruct (JS.allWhiteSpace (String a r)); [left | right]; reflexivity.
Qed.

(** Cutting the end of a text does not bring white space to its start. *)
Lemma trimEnd_keeps_start (t : string) :
  startsWithWhiteSpace t = false -> startsWithWhiteSpace (JS.trimEnd t) = false.
Proof.
  destruct t as [|a r1]; [reflexivity |].
  intro H. destruct (trimEnd_cons a r1) as [-> | ->]; [reflexivity |].
  cbn [startsWithWhiteSpace] in *.
  destruct (JS.isWhiteSpace1 a); [discriminate H |]. cbn [orb] in *.
  destruct r1 as [|b r2]; [reflexivity |].
  destruct (trimEnd_cons b r2) as [-> | ->]; [reflexivity |].
  destruct (JS.isWhiteSpace2 a b); [discriminate H |]. cbn [orb] in *.
  destruct r2 as [|c r3]; [reflexivity |].
  destruct (trimEnd_cons c r3) as [-> | ->]; [reflexivity | exact H].
Qed.

(** A trimmed text has no leading white space left for [parseInt] to skip. *)
Lemma trimStart_trim (s : string) : JS.trimStart (JS.trim s) = JS.trim s.
Proof.
  unfold JS.trim. apply trimStart_fixed, trimEnd_keeps_start, trimStart_clean.
Qed.

(** A byte below 128 that is not itself white space does not start a
    white-space character. *)
Lemma ascii_not_space (a : ascii) (r : string) :
  (N_of_ascii a < 128)%N -> JS.isWhiteSpace1 a = false ->
  startsWithWhiteSpace (String a r) = false.
Proof.
  intros Hlow H1. cbn [startsWithWhiteSpace]. rewrite H1. cbn [orb].
  assert (E2 : forall b, JS.isWhiteSpace2 a b = false).
  { intro b. unfold JS.isWhiteSpace2.
    destruct (N.eqb_spec (N_of_ascii a) 194) as [E | _]; [lia | reflexivity]. }
  assert (E3 : forall b c, JS.isWhiteSpace3 a b c = false).
  { intros b c. unfold JS.isWhiteSpace3.
    destruct (N.eqb_spec (N_of_ascii a) 225) as [E | _]; [lia |].
    destruct (N.eqb_spec (N_of_ascii a) 226) as [E | _]; [lia |].
    destruct (N.eqb_spec (N_of_ascii a) 227) as [E | _]; [lia |].
    destruct (N.eqb_spec (N_of_ascii a) 239) as [E | _]; [lia |].
    reflexivity. }
  destruct r as [|b [|c r3]]; [reflexivity | ..]; rewrite E2; [reflexivity |].
  rewrite E3. reflexivity.
Qed.

Lemma digit_not_space (c : ascii) (r : string) :
  JS.isDigit c = true -> startsWithWhiteSpace (String c r) = false.
Proof.
  unfold JS.isDigit. intro H.
  apply andb_true_iff in H. destruct H as [H1 H2].
  apply N.leb_le in H1. apply N.leb_le in H2.
  apply ascii_not_space; [lia |].
  unfold JS.isWhiteSpace1.
  repeat (apply orb_false_iff; split); apply N.eqb_neq; lia.
Qed.

Lemma digit_not_sign (c : ascii) :
  JS.isDigit c = true -> c <> "-"%char /\ c <> "+"%char.
Proof.
  intro H. split; intros ->; discriminate H.
Qed.

Lemma digitsValue_decimalValue (cs : list ascii) (acc : Z) :
  fold_left (fun a d => 10 * a + d) (map JS.digitValue cs) acc =
  fold_left (fun a c => 10 * a + JS.digitValue c) cs acc.
Proof.
  revert acc. induction cs as [|c rest IH]; intro acc; simpl; [reflexivity | apply IH].
Qed.

(** [takeDigits] cuts the text into its longest digit prefix and the rest. *)
Lemma takeDigits_spec (s : string) :
  exists ds,
    s = ds ++ snd (JS.takeDigits s)
    /\ allDigits ds = true
    /\ startsWithDigit (snd (JS.takeDigits s)) = false
    /\ fst (JS.takeDigits s) = map JS.digitValue (list_ascii_of_string ds).
Proof.
  induction s as [|c rest (ds & Hs & Hd & Hr & Hv)]; simpl.
  - exists "". repeat split.
  - destruct (JS.isDigit c) eqn:E.
    + destruct (JS.takeDigits rest) as [vs tl]; simpl in *.
      exists (String c ds). simpl. rewrite E, Hd, Hv. repeat split; try assumption.
      f_equal. exact Hs.
    + exists "". simpl. rewrite E. repeat split.
Qed.

Lemma takeDigits_app (ds rest : string) :
  allDigits ds = true -> startsWithDigit rest = false ->
  JS.takeDigits (ds ++ rest) = (map JS.digitValue (list_ascii_of_string ds), rest).
Proof.
  intros Hd Hr. induction ds as [|c ds' IH]; simpl in *.
  - destruct rest as [|c r]; simpl in *; [reflexivity | rewrite Hr; reflexivity].
  - apply andb_true_iff in Hd. destruct Hd as [Hc Hd'].
    rewrite Hc, (IH Hd'). reflexivity.
Qed.

(** Reading digits: the value of the digit prefix, nothing without one. *)
Lemma readDigits_spec (body : string) :
  match fst (JS.takeDigits body) with
  | [] => startsWithDigit body = false
  | vs =>
      exists ds rest, body = ds ++ rest /\ ds <> "" /\ allDigits ds = true
                      /\ startsWithDigit rest = false
                      /\ JS.digitsValue vs = decimalValue ds
  end.
Proof.
  destruct (takeDigits_spec body) as (ds & Hs & Hd & Hr & Hv).
  destruct ds as [|c ds'].
  - rewrite Hv. simpl in *. rewrite Hs at 1. exact Hr.
  - rewrite Hv. simpl map.
    exists (String c ds'), (snd (JS.takeDigits body)).
    repeat split; try assumption; [discriminate |].
    exact (digitsValue_decimalValue (list_ascii_of_string (String c ds')) 0).
Qed.

Lemma splitSign_cons (c : ascii) (r : string) :
  JS.splitSign (String c r) =
  if Ascii.eqb c "-" then (-1, r)
  else if Ascii.eqb c "+" then (1, r)
  else (1, String c r).
Proof.
  destruct c as [[] [] [] [] [] [] [] []]; reflexivity.
Qed.

(** The sign and the digits that [parseInt] reads from a text without
    leading white space. *)
Lemma parseInt_sound (t : string) :
  JS.trimStart t = t -> JS.parseInt t <> JS.NaN ->
  exists n, LeadingInt t n /\ JS.parseInt t = JS.ofZ n.
Proof.
  unfold JS.parseInt. intros -> H.
  destruct t as [|c r]; [exfalso; apply H; reflexivity |].
  rewrite splitSign_cons in *.
  destruct (Ascii.eqb_spec c "-") as [-> | Hminus];
    [| destruct (Ascii.eqb_spec c "+") as [-> | Hplus]].
  - pose proof (readDigits_spec r) as Hr.
    destruct (fst (JS.takeDigits r)) as [|d vs]; [exfalso; apply H; reflexivity |].
    destruct Hr as (ds & rest & -> & Hne & Hd & Hrest & Hval).
    exists (-1 * decimalValue ds). split; [| now rewrite Hval].
    exists "-", ds, rest, (-1).
    repeat split; try assumption. right; right; split; reflexivity.
  - pose proof (readDigits_spec r) as Hr.
    destruct (fst (JS.takeDigits r)) as [|d vs]; [exfalso; apply H; reflexivity |].
    destruct Hr as (ds & rest & -> & Hne & Hd & Hrest & Hval).
    exists (1 * decimalValue ds). split; [| now rewrite Hval].
    exists "+", ds, rest, 1.
    repeat split; try assumption. right; left; split; reflexivity.
  - pose proof (readDigits_spec (String c r)) as Hr.
    destruct (fst (JS.takeDigits (String c r))) as [|d vs];
      [exfalso; apply H; reflexivity |].
    destruct Hr as (ds & rest & Heq & Hne & Hd & Hrest & Hval).
    exists (1 * decimalValue ds). split; [| now rewrite Hval].
    exists "", ds, rest, 1.
    repeat split; try assumption. left; split; reflexivity.
Qed.

Lemma parseInt_complete (t : string) (n : Z) :
  LeadingInt t n -> JS.parseInt t = JS.ofZ n.
Proof.
  intros (sgText & ds & rest & sg & Hsign & -> & Hne & Hd & Hrest & ->).
  destruct ds as [|c ds']; [contradiction |].
  assert (Hc : JS.isDigit c = true)
    by (simpl in Hd; apply andb_true_iff in Hd; tauto).
  assert (Hread : forall sign,
             match fst (JS.takeDigits (String c ds' ++ rest)) with
             | [] => JS.NaN
             | vs => JS.ofZ (sign * JS.digitsValue vs)
             end = JS.ofZ (sign * decimalValue (String c ds'))).
  { intro sign. rewrite (takeDigits_app (String c ds') rest Hd Hrest).
    change (JS.ofZ (sign * JS.digitsValue
                              (map JS.digitValue (list_ascii_of_string (String c ds'))))
            = JS.ofZ (sign * decimalValue (String c ds'))).
    unfold JS.digitsValue, decimalValue.
    rewrite digitsValue_decimalValue. reflexivity. }
  unfold JS.parseInt.
  destruct Hsign as [[-> ->] | [[-> ->] | [-> ->]]].
  - change ("" ++ String c ds' ++ rest) with (String c (ds' ++ rest)).
    rewrite (trimStart_fixed _ (digit_not_space c (ds' ++ rest) Hc)).
    rewrite splitSign_cons.
    destruct (digit_not_sign c Hc) as [Hm Hp].
    destruct (Ascii.eqb_spec c "-"); [contradiction |].
    destruct (Ascii.eqb_spec c "+"); [contradiction |].
    exact (Hread 1).
  - change ("+" ++ String c ds' ++ rest) with (String "+" (String c ds' ++ rest)).
    rewrite (trimStart_fixed (String "+" (String c ds' ++ rest)))
      by (apply ascii_not_space; [vm_compute | ]; reflexivity).
    exact (Hread 1).
  - change ("-" ++ String c ds' ++ rest) with (String "-" (String c ds' ++ rest)).
    rewrite (trimStart_fixed (String "-" (String c ds' ++ rest)))
      by (apply ascii_not_space; [vm_compute | ]; reflexivity).
    exact (Hread (-1)).
Qed.

(** [parseInt] never fails on a text that starts with an integer. *)
Lemma parseInt_leading (t : string) (n : Z) :
  LeadingInt t n -> JS.isNaN (JS.parseInt t) = false.
Proof.
  intro H. rewrite (parseInt_complete t n H).
  pose proof (ofZ_not_NaN n). destruct (JS.ofZ n); [reflexivity .. | contradiction].
Qed.

Lemma isNaN_false (x : JS.number) : JS.isNaN x = false -> x <> JS.NaN.
Proof. intros H ->. discriminate H. Qed.

Lemma parseScore_iff (s : string) (sc : Score) :
  parseScore s = Some sc <->
  exists a b r w,
    s = a ++ "/" ++ b
    /\ containsChar "/" a = false /\ containsChar "/" b = false
    /\ LeadingInt (JS.trim a) r
    /\ LeadingInt (JS.trim b) w
    /\ sc = mkScore (JS.ofZ r) (JS.ofZ w).
Proof.
  unfold parseScore. split.
  - intro H.
    destruct (JS.split "/" s) as [|a [|b [|c l]]] eqn:E; try discriminate H.
    apply split_two_iff in E. destruct E as (Hs & Ha & Hb).
    cbv zeta in H.
    destruct (JS.isNaN (JS.parseInt (JS.trim a))) eqn:Er; [discriminate H |].
    destruct (JS.isNaN (JS.parseInt (JS.trim b))) eqn:Ew; [discriminate H |].
    injection H as <-.
    destruct (parseInt_sound (JS.trim a) (trimStart_trim a) (isNaN_false _ Er))
      as (r & Hr & Hvr).
    destruct (parseInt_sound (JS.trim b) (trimStart_trim b) (isNaN_false _ Ew))
      as (w & Hw & Hvw).
    exists a, b, r, w. rewrite Hvr, Hvw. repeat split; assumption.
  - intros (a & b & r & w & Hs & Ha & Hb & Hr & Hw & ->).
    assert (E : JS.split "/" s = [a; b]) by (apply split_two_iff; tauto).
    rewrite E. cbv zeta.
    rewrite (parseInt_leading _ _ Hr), (parseInt_leading _ _ Hw).
    rewrite (parseInt_complete _ _ Hr), (parseInt_complete _ _ Hw). reflexivity.
Qed.

(** There is one segment more than there are separators. *)
Lemma split_length (sep : ascii) (s : string) :
  List.length (JS.split sep s) = S (countChar sep s).
Proof.
  induction s as [|c rest IH]; simpl; [reflexivity |].
  destruct (Ascii.eqb c sep); simpl; [now rewrite IH |].
  pose proof (split_not_nil sep rest) as Hnil.
  destruct (JS.split sep rest) as [|p ps]; [contradiction | exact IH].
Qed.

Lemma parseScore_needs_one_separator (s : string) :
  countChar "/" s <> 1%nat -> parseScore s = None.
Proof.
  intro H. unfold parseScore.
  pose proof (split_length "/" s) as Hl.
  destruct (JS.split "/" s) as [|a [|b [|c l]]]; try reflexivity.
  simpl in Hl. exfalso. apply H. lia.
Qed.

Lemma specBase10Integer_cons (c : ascii) (r : string) :
  specBase10Integer (String c r) =
  if (Ascii.eqb c "-" || Ascii.eqb c "+")%bool
  then (negb (String.eqb r "") && allDigits r)%bool
  else allDigits (String c r).
Proof.
  destruct c as [[] [] [] [] [] [] [] []]; reflexivity.
Qed.

Lemma specIntegerValue_cons (c : ascii) (r : string) :
  specIntegerValue (String c r) =
  if Ascii.eqb c "-" then - decimalValue r
  else if Ascii.eqb c "+" then decimalValue r
  else decimalValue (String c r).
Proof.
  destruct c as [[] [] [] [] [] [] [] []]; reflexivity.
Qed.

Lemma append_empty_r (s : string) : s ++ "" = s.
Proof.
  induction s as [|c r IH]; simpl; [reflexivity | now rewrite IH].
Qed.

(** A segment that is a base-10 integer starts with that integer. *)
Lemma specBase10Integer_leading (t : string) :
  specBase10Integer t = true -> LeadingInt t (specIntegerValue t).
Proof.
  destruct t as [|c r]; [discriminate |].
  rewrite specBase10Integer_cons, specIntegerValue_cons.
  destruct (Ascii.eqb_spec c "-") as [-> | Hminus];
    [| destruct (Ascii.eqb_spec c "+") as [-> | Hplus]]; simpl orb; cbv iota.
  - intro H. apply andb_true_iff in H. destruct H as [Hne Hd].
    exists "-", r, "", (-1). split; [right; right; split; reflexivity |].
    split; [now rewrite append_empty_r |].
    split; [intros ->; discriminate Hne |].
    split; [exact Hd |]. split; [reflexivity | lia].
  - intro H. apply andb_true_iff in H. destruct H as [Hne Hd].
    exists "+", r, "", 1. split; [right; left; split; reflexivity |].
    split; [now rewrite append_empty_r |].
    split; [intros ->; discriminate Hne |].
    split; [exact Hd |]. split; [reflexivity | lia].
  - intro Hd.
    exists "", (String c r), "", 1. split; [left; split; reflexivity |].
    split; [simpl; now rewrite append_empty_r |].
    split; [discriminate |].
    split; [exact Hd |]. split; [reflexivity | lia].
Qed.

(** Two base-10 integers around one separator are accepted with the
    numbers of their values. *)
Lemma parseScore_accepts_integers (a b : string) :
  containsChar "/" a = false -> containsChar "/" b = false ->
  specBase10Integer (JS.trim a) = true -> specBase10Integer (JS.trim b) = true ->
  parseScore (a ++ "/" ++ b)
  = Some (mkScore (JS.ofZ (specIntegerValue (JS.trim a)))
                  (JS.ofZ (specIntegerValue (JS.trim b)))).
Proof.
  intros Ha Hb Hia Hib. apply parseScore_iff.
  exists a, b, (specIntegerValue (JS.trim a)), (specIntegerValue (JS.trim b)).
  split; [reflexivity |]. split; [exact Ha |]. split; [exact Hb |].
  split; [apply specBase10Integer_leading, Hia |].
  split; [apply specBase10Integer_leading, Hib | reflexivity].
Qed.

(** C2, as the code has it.  A text is accepted exactly when it is two
    segments around a single [/] and each segment, once trimmed of white
    space, starts with an optional sign and at least one decimal digit;
    whatever follows the digits of a segment is ignored.  The runs and the
    wickets are the JavaScript numbers of the signed values of those
    leading digits: the value itself up to 2^53 in magnitude, in general
    the double nearest to the value, and an infinity from 2^1024 - 2^970
    on.  A text with no or with several separators is rejected; two
    base-10 integers around one separator are accepted.  The function is
    total.  ["200/4"] gives 200/4; ["200"], ["a/4"] and ["200/"] are
    rejected; ["200/4abc"] gives 200/4; ["9007199254740993/1"] gives
    9007199254740992/1; a segment in EM SPACE and NO-BREAK SPACE is
    trimmed. *)
Theorem parseScore_contract :
  (forall s sc,
      parseScore s = Some sc <->
      exists a b r w,
        s = a ++ "/" ++ b
        /\ containsChar "/" a = false /\ containsChar "/" b = false
        /\ LeadingInt (JS.trim a) r
        /\ LeadingInt (JS.trim b) w
        /\ sc = mkScore (JS.ofZ r) (JS.ofZ w))
  /\ (forall z, Z.abs z <= 2 ^ 53 -> JS.ofZ z = JS.Finite z)
  /\ (forall z y, JS.ofZ z = JS.Finite y ->
        representable y
        /\ forall y', representable y' -> Z.abs (y - z) <= Z.abs (y' - z))
  /\ (forall z,
        (JS.ofZ z = JS.Infinity <-> 2 ^ 1024 - 2 ^ 970 <= z)
        /\ (JS.ofZ z = JS.NegInfinity <-> z <= - (2 ^ 1024 - 2 ^ 970)))
  /\ (forall s, countChar "/" s <> 1%nat -> parseScore s = None)
  /\ (forall a b,
        containsChar "/" a = false -> containsChar "/" b = false ->
        specBase10Integer (JS.trim a) = true ->
        specBase10Integer (JS.trim b) = true ->
        parseScore (a ++ "/" ++ b)
        = Some (mkScore (JS.ofZ (specIntegerValue (JS.trim a)))
                        (JS.ofZ (specIntegerValue (JS.trim b)))))
  /\ (forall s, exists r, parseScore s = r)
  /\ parseScore "200/4" = Some (mkScore (JS.Finite 200) (JS.Finite 4))
  /\ parseScore "200" = None
  /\ parseScore "a/4" = None
  /\ parseScore "200/" = None
  /\ parseScore "200/4abc" = Some (mkScore (JS.Finite 200) (JS.Finite 4))
  /\ parseScore "9007199254740993/1"
     = Some (mkScore (JS.Finite 9007199254740992) (JS.Finite 1))
  /\ parseScore (hugeNumeral ++ "/0") = Some (mkScore JS.Infinity (JS.Finite 0))
  /\ parseScore (bytes [226; 128; 131] ++ "200 /" ++ bytes [194; 160] ++ "4")
     = Some (mkScore (JS.Finite 200) (JS.Finite 4)).
Proof.
  split; [exact parseScore_iff |].
  split; [exact ofZ_exact |].
  split; [exact ofZ_nearest |].
  split; [exact ofZ_infinite |].
  split; [exact parseScore_needs_one_separator |].
  split; [exact parseScore_accepts_integers |].
  split; [intro s; exists (parseScore s); reflexivity |].
  repeat split; vm_compute; reflexivity.
Qed.

Lemma parseScore_contract_witness :
  parseScore " 12/7 overs" = Some (mkScore (JS.Finite 12) (JS.Finite 7))
  /\ JS.ofZ 9007199254740992 = JS.Finite 9007199254740992.
Proof.
  split.
  - apply (proj1 parseScore_contract " 12/7 overs" (mkScore (JS.Finite 12) (JS.Finite 7))).
    exists " 12", "7 overs", 12, 7.
    split; [reflexivity |]. split; [reflexivity |]. split; [reflexivity |]. split.
    + exists "", "12", "", 1.
      split; [left; split; reflexivity |]. split; [reflexivity |].
      split; [discriminate |]. repeat split.
    + split; [| vm_compute; reflexivity].
      exists "", "7", " overs", 1.
      split; [left; split; reflexivity |]. split; [reflexivity |].
      split; [discriminate |]. repeat split.
  - apply (proj1 (proj2 parseScore_contract)). vm_compute. discriminate.
Defined.

(** C2, as worded, does not hold: ["200/4abc"] is accepted although its
    second segment is not a base-10 integer. *)
Lemma strictParserContract_fails : ~ strictParserContract.
Proof.
  intro H.
  assert (E : parseScore "200/4abc" = Some (mkScore (JS.Finite 200) (JS.Finite 4)))
    by (vm_compute; reflexivity).
  destruct (H "200/4abc" _ E) as (a & b & Hs & Ha & Hb).
  injection Hs as <- <-. discriminate Hb.
Qed.

(* ===================================================================== *)
(** ** The record store *)
(* ===================================================================== *)

Lemma sameKey_iff (p q : PredictionRow) :
  sameKey p q = true <-> predictionKey p = predictionKey q.
Proof.
  unfold sameKey, predictionKey. rewrite andb_true_iff, !String.eqb_eq.
  split; [intros [-> ->]; reflexivity | intro H; injection H; auto].
Qed.

Lemma overwritten_row (p q : PredictionRow) :
  sameKey p q = true ->
  mkPredictionRow (matchId q) (userId q) (username p) (predRuns p) (predWickets p)
                  (comment p) = p.
Proof.
  intro H. apply sameKey_iff in H. unfold predictionKey in H.
  injection H as <- <-. destruct p; reflexivity.
Qed.

Lemma NoDup_map_filter {A B : Type} (f : A -> B) (P : A -> bool) (l : list A) :
  NoDup (map f l) -> NoDup (map f (filter P l)).
Proof.
  induction l as [|a l IH]; simpl; intro H; [constructor |].
  inversion H as [|? ? Hnotin Hrest]; subst.
  destruct (P a); simpl; [constructor |]; auto.
  intro Hin. apply Hnotin.
  apply in_map_iff in Hin. destruct Hin as (x & Hx & Hin).
  apply in_map_iff. exists x. split; [exact Hx |].
  apply filter_In in Hin. tauto.
Qed.

Lemma updateMatch_ids (d : Database) (p : MatchPatch) :
  map id (matches (updateMatch d p)) = map id (matches d).
Proof.
  unfold updateMatch; simpl. rewrite map_map. apply map_ext.
  intro m. destruct (String.eqb (id m) (patchId p)); reflexivity.
Qed.

Lemma updateMatch_in (d : Database) (p : MatchPatch) (m' : MatchRow) :
  In m' (matches (updateMatch d p)) ->
  exists m, In m (matches d)
            /\ m' = if String.eqb (id m) (patchId p) then applyPatch p m else m.
Proof.
  unfold updateMatch; simpl. intro H. apply in_map_iff in H.
  destruct H as (m & <- & Hin). exists m. split; [exact Hin | reflexivity].
Qed.

Lemma insertMatch_some (d d' : Database) (mid team tossInfo place date : string) :
  insertMatch d mid team tossInfo place date true = Some d' ->
  ~ In mid (map id (matches d))
  /\ d' = mkDatabase (matches d ++ [mkMatchRow mid team tossInfo place date 1 None None])
                     (predictions d).
Proof.
  unfold insertMatch.
  destruct (existsb (fun m => String.eqb (id m) mid) (matches d)) eqn:E; [discriminate |].
  intro H. injection H as <-. split; [| reflexivity].
  intro Hin. apply in_map_iff in Hin. destruct Hin as (m & Hm & Hin).
  assert (existsb (fun m => String.eqb (id m) mid) (matches d) = true) as E'.
  { apply existsb_exists. exists m. split; [exact Hin | now apply String.eqb_eq]. }
  congruence.
Qed.

(** The upsert keeps the keys of the registry pairwise different. *)
Lemma upsert_keeps_keys_unique (d : Database) (p : PredictionRow) :
  NoDup (map predictionKey (predictions d)) ->
  NoDup (map predictionKey (predictions (insertOrUpdatePrediction d p))).
Proof.
  intro H. unfold insertOrUpdatePrediction; simpl.
  destruct (existsb (sameKey p) (predictions d)) eqn:E.
  - rewrite map_map.
    rewrite (map_ext _ predictionKey); [exact H |].
    intro q. destruct (sameKey p q); reflexivity.
  - rewrite map_app. apply NoDup_app; [exact H | repeat constructor; intros [] |].
    intros k Hin [<- | []].
    apply in_map_iff in Hin. destruct Hin as (q & Hq & Hin).
    assert (existsb (sameKey p) (predictions d) = true) as E'.
    { apply existsb_exists. exists q. split; [exact Hin |].
      apply sameKey_iff. symmetry. exact Hq. }
    congruence.
Qed.

(** A first submission adds the row at the end of the registry. *)
Lemma upsert_creates (d : Database) (p : PredictionRow) :
  ~ In (predictionKey p) (map predictionKey (predictions d)) ->
  predictions (insertOrUpdatePrediction d p) = (predictions d ++ [p])%list.
Proof.
  intro H. unfold insertOrUpdatePrediction; simpl.
  destruct (existsb (sameKey p) (predictions d)) eqn:E; [| reflexivity].
  exfalso. apply H. apply existsb_exists in E. destruct E as (q & Hin & Hq).
  apply in_map_iff. exists q. split; [| exact Hin].
  symmetry. apply sameKey_iff. exact Hq.
Qed.

(** A later submission overwrites the row of its key where it stands. *)
Lemma upsert_replaces (d : Database) (p : PredictionRow) :
  NoDup (map predictionKey (predictions d)) ->
  In (predictionKey p) (map predictionKey (predictions d)) ->
  exists before old after,
    predictionKey old = predictionKey p
    /\ predictions d = (before ++ old :: after)%list
    /\ predictions (insertOrUpdatePrediction d p) = (before ++ p :: after)%list.
Proof.
  intros Hnd Hin.
  apply in_map_iff in Hin. destruct Hin as (old & Hkey & Hin).
  apply in_split in Hin. destruct Hin as (before & after & Hsplit).
  exists before, old, after. split; [exact Hkey |]. split; [exact Hsplit |].
  unfold insertOrUpdatePrediction; simpl.
  assert (existsb (sameKey p) (predictions d) = true) as E.
  { apply existsb_exists. exists old. split.
    - rewrite Hsplit. apply in_or_app. right. left. reflexivity.
    - apply sameKey_iff. symmetry. exact Hkey. }
  rewrite E, Hsplit in *. clear E Hsplit.
  rewrite map_app in Hnd. simpl in Hnd.
  assert (Hother : forall q, In q before \/ In q after -> sameKey p q = false).
  { intros q Hq. destruct (sameKey p q) eqn:Eq; [| reflexivity]. exfalso.
    apply sameKey_iff in Eq.
    apply NoDup_remove_2 in Hnd. apply Hnd.
    rewrite Hkey, Eq. apply in_or_app.
    destruct Hq as [Hq | Hq]; [left | right]; apply in_map; exact Hq. }
  rewrite map_app. simpl.
  assert (Hsame : sameKey p old = true) by (apply sameKey_iff; symmetry; exact Hkey).
  rewrite Hsame, (overwritten_row p old Hsame).
  f_equal; [| f_equal].
  - rewrite <- (map_id before) at 2. apply map_ext_in.
    intros q Hq. rewrite (Hother q (or_introl Hq)). reflexivity.
  - rewrite <- (map_id after) at 2. apply map_ext_in.
    intros q Hq. rewrite (Hother q (or_intror Hq)). reflexivity.
Qed.

(** With unique keys, the rows of a key are the one row that holds it. *)
Lemma single_row_of_key (l : list PredictionRow) (p : PredictionRow) :
  NoDup (map predictionKey l) -> In p l -> filter (sameKey p) l = [p].
Proof.
  induction l as [|q l IH]; simpl; intros Hnd Hin; [contradiction |].
  inversion Hnd as [|? ? Hnotin Hrest]; subst.
  destruct Hin as [-> | Hin].
  - assert (sameKey p p = true) as -> by (now apply sameKey_iff).
    f_equal. clear IH Hrest Hnd. revert Hnotin.
    induction l as [|r l IHl]; simpl; intro Hnotin; [reflexivity |].
    destruct (sameKey p r) eqn:E.
    + exfalso. apply Hnotin. left. symmetry. apply sameKey_iff. exact E.
    + apply IHl. intro H. apply Hnotin. right. exact H.
  - destruct (sameKey p q) eqn:E.
    + exfalso. apply Hnotin. apply sameKey_iff in E. rewrite <- E.
      apply in_map. exact Hin.
    + apply IH; assumption.
Qed.

Lemma upsert_holds_row (d : Database) (p : PredictionRow) :
  In p (predictions (insertOrUpdatePrediction d p)).
Proof.
  unfold insertOrUpdatePrediction; simpl.
  destruct (existsb (sameKey p) (predictions d)) eqn:E.
  - apply existsb_exists in E. destruct E as (q & Hin & Hq).
    apply in_map_iff. exists q. split; [| exact Hin].
    rewrite Hq. apply overwritten_row. exact Hq.
  - apply in_or_app. right. left. reflexivity.
Qed.

Lemma upsert_matchIds (d : Database) (p q : PredictionRow) :
  In q (predictions (insertOrUpdatePrediction d p)) ->
  matchId q = matchId p \/ In q (predictions d).
Proof.
  unfold insertOrUpdatePrediction; simpl.
  destruct (existsb (sameKey p) (predictions d)).
  - intro H. apply in_map_iff in H. destruct H as (r & <- & Hin).
    destruct (sameKey p r) eqn:E; [left | right; exact Hin].
    simpl. apply sameKey_iff in E. unfold predictionKey in E. congruence.
  - intro H. apply in_app_or in H. destruct H as [H | [<- | []]]; auto.
Qed.

(* ===================================================================== *)
(** ** Consistency of the reachable states *)
(* ===================================================================== *)

Lemma initialState_consistent : Consistent initialState.
Proof.
  constructor; simpl; try constructor; try contradiction; discriminate.
Qed.

Lemma consistent_setup (st : State) (d : Database)
      (mid team tossInfo place date : string) :
  Consistent st -> currentMatch st = None ->
  insertMatch (db st) mid team tossInfo place date true = Some d ->
  Consistent (mkState (Some mid) d).
Proof.
  intros [Hids Hkeys Hopen Hcur Hfk] Hnone Hins.
  apply insertMatch_some in Hins. destruct Hins as [Hfresh ->].
  constructor; simpl.
  - rewrite map_app. apply NoDup_app; [exact Hids | repeat constructor; intros [] |].
    intros k Hin [<- | []]. exact (Hfresh Hin).
  - exact Hkeys.
  - intros m Hin Hop. apply in_app_or in Hin. destruct Hin as [Hin | [<- | []]].
    + specialize (Hopen m Hin Hop). congruence.
    + reflexivity.
  - intros k Hk. injection Hk as <-. rewrite map_app. apply in_or_app.
    right. left. reflexivity.
  - intros p Hp. rewrite map_app. apply in_or_app. left. apply Hfk, Hp.
Qed.

Lemma consistent_upsert (st : State) (mid : string) (p : PredictionRow) :
  Consistent st -> currentMatch st = Some mid -> matchId p = mid ->
  Consistent (mkState (Some mid) (insertOrUpdatePrediction (db st) p)).
Proof.
  intros [Hids Hkeys Hopen Hcur Hfk] Hsome Hp.
  constructor.
  - exact Hids.
  - apply upsert_keeps_keys_unique, Hkeys.
  - intros m Hin Hop. simpl. rewrite <- Hsome. apply Hopen; assumption.
  - intros k Hk. simpl in Hk. apply Hcur. congruence.
  - intros q Hq. simpl in Hq. apply upsert_matchIds in Hq.
    destruct Hq as [Hq | Hq]; [| apply Hfk, Hq].
    rewrite Hq, Hp. apply Hcur, Hsome.
Qed.

(** An update of the current match that does not open it: the pointer may
    stay or be cleared when the update closes the match. *)
Lemma consistent_update (st : State) (mid : string) (p : MatchPatch)
      (next : option string) :
  Consistent st -> currentMatch st = Some mid -> patchId p = mid ->
  patchIsOpen p <> Some true ->
  next = Some mid \/ (next = None /\ patchIsOpen p = Some false) ->
  Consistent (mkState next (updateMatch (db st) p)).
Proof.
  intros [Hids Hkeys Hopen Hcur Hfk] Hsome Hid Hflag Hnext.
  constructor.
  - simpl db. rewrite updateMatch_ids. exact Hids.
  - exact Hkeys.
  - intros m' Hin Hop. apply updateMatch_in in Hin.
    destruct Hin as (m & Hin & ->). simpl currentMatch.
    destruct (String.eqb_spec (id m) (patchId p)) as [E | E].
    + destruct Hnext as [-> | [-> Hclose]].
      * simpl. congruence.
      * exfalso. apply Hop. simpl. rewrite Hclose. reflexivity.
    + specialize (Hopen m Hin Hop). exfalso. apply E. congruence.
  - intros k Hk. simpl in Hk. simpl db. rewrite updateMatch_ids.
    destruct Hnext as [-> | [-> _]]; [| discriminate].
    apply Hcur. congruence.
  - intros q Hq. simpl db. rewrite updateMatch_ids. apply Hfk, Hq.
Qed.

Lemma consistent_delete (st : State) (mid : string) :
  Consistent st -> currentMatch st = Some mid ->
  Consistent (mkState None (deleteMatch (db st) mid)).
Proof.
  intros [Hids Hkeys Hopen Hcur Hfk] Hsome.
  constructor; simpl.
  - apply NoDup_map_filter, Hids.
  - apply NoDup_map_filter, Hkeys.
  - intros m Hin Hop. apply filter_In in Hin. destruct Hin as [Hin Hne].
    specialize (Hopen m Hin Hop). rewrite Hsome in Hopen. injection Hopen as Hmid.
    apply negb_true_iff, String.eqb_neq in Hne. congruence.
  - discriminate.
  - intros q Hq. apply filter_In in Hq. destruct Hq as [Hq Hne].
    specialize (Hfk q Hq). apply in_map_iff in Hfk. destruct Hfk as (m & Hm & Hin).
    apply in_map_iff. exists m. split; [exact Hm |].
    apply filter_In. split; [exact Hin | rewrite Hm; exact Hne].
Qed.

(** Every command keeps the state consistent. *)
Lemma interactionCreate_consistent (v : Variant) (ADMIN_IDS : list string)
      (st : State) (i : Interaction) :
  Consistent st -> Consistent (snd (interactionCreate v ADMIN_IDS st i)).
Proof.
  intro H. unfold interactionCreate.
  destruct (command i) as [team tossInfo place date | score note | score note | | |
                           score | | mid | | | team tossInfo place date | | |].
  - (* setup *)
    destruct (negb (isAdminOf ADMIN_IDS (callerId i))); [destruct v; exact H |].
    destruct (currentMatch st) eqn:Hcur; [destruct v; exact H |].
    destruct (insertMatch (db st) (JS.toString (dateNow i)) team tossInfo place date true)
      as [d|] eqn:Hins; [| destruct v; exact H].
    destruct v; simpl; exact (consistent_setup _ _ _ _ _ _ _ H Hcur Hins).
  - (* predict *)
    destruct (currentMatch st) as [mid|] eqn:Hcur; [| destruct v; exact H].
    destruct (parseScore score) as [sc|]; [| destruct v; exact H].
    destruct v; simpl; apply consistent_upsert; auto.
  - (* edit *)
    destruct (currentMatch st) as [mid|] eqn:Hcur; [| destruct v; exact H].
    destruct (parseScore score) as [sc|]; [| destruct v; exact H].
    destruct v; simpl; apply consistent_upsert; auto.
  - (* close *)
    destruct (negb (isAdminOf ADMIN_IDS (callerId i))); [destruct v; exact H |].
    destruct (currentMatch st) as [mid|] eqn:Hcur; [| destruct v; exact H].
    destruct v; simpl; apply (consistent_update _ mid); auto; discriminate.
  - (* list *)
    destruct (currentMatch st); destruct v; exact H.
  - (* end *)
    destruct (negb (isAdminOf ADMIN_IDS (callerId i))); [destruct v; exact H |].
    destruct (currentMatch st) as [mid|] eqn:Hcur; [| destruct v; exact H].
    destruct (parseScore score) as [sc|]; [| destruct v; exact H].
    destruct v; simpl; apply (consistent_update _ mid); auto; discriminate.
  - (* past *)
    destruct (getPastMatches (db st)); destruct v; exact H.
  - (* details *)
    destruct (getMatchDetails (db st) mid) as [[m l]|]; destruct v; exact H.
  - (* mystats *)
    destruct v; [exact H |]. destruct (getUserStats (db st) (callerId i)); exact H.
  - (* leaderboard *)
    destruct v; [exact H |]. destruct (getAllUserStats (db st)); exact H.
  - (* editmatch *)
    destruct v; [exact H |].
    destruct (negb (isAdminOf ADMIN_IDS (callerId i))); [exact H |].
    destruct (currentMatch st) as [mid|] eqn:Hcur; [| exact H].
    simpl. apply (consistent_update _ mid); auto; discriminate.
  - (* export *)
    destruct v; [exact H |].
    destruct (negb (isAdminOf ADMIN_IDS (callerId i))); exact H.
  - (* cancelmatch *)
    destruct v; [exact H |].
    destruct (negb (isAdminOf ADMIN_IDS (callerId i))); [exact H |].
    destruct (currentMatch st) as [mid|] eqn:Hcur; [| exact H].
    simpl. apply consistent_delete; assumption.
  - (* help *)
    destruct v; exact H.
Qed.

Lemma run_consistent (v : Variant) (ADMIN_IDS : list string)
      (trace : list Interaction) (st : State) :
  Consistent st -> Consistent (run v ADMIN_IDS st trace).
Proof.
  revert st. induction trace as [|i rest IH]; intros st H; [exact H |].
  simpl. apply IH, interactionCreate_consistent, H.
Qed.

(** With unique ids, the matches that can only be one match are at most one. *)
Lemma at_most_one_of_id (l : list MatchRow) (P : MatchRow -> bool) (k : string) :
  NoDup (map id l) ->
  (forall m, In m l -> P m = true -> id m = k) ->
  (List.length (filter P l) <= 1)%nat.
Proof.
  induction l as [|m l IH]; simpl; intros Hnd Hk; [lia |].
  inversion Hnd as [|? ? Hnotin Hrest]; subst.
  destruct (P m) eqn:E.
  - simpl. assert (filter P l = []) as ->; [| simpl; lia].
    destruct (filter P l) as [|x xs] eqn:F; [reflexivity |]. exfalso.
    assert (In x (filter P l)) as Hx by (rewrite F; left; reflexivity).
    apply filter_In in Hx. destruct Hx as [Hx Px].
    apply Hnotin. rewrite (Hk m (or_introl eq_refl) E), <- (Hk x (or_intror Hx) Px).
    apply in_map, Hx.
  - apply IH; [exact Hrest |]. intros x Hx Px. apply Hk; [right; exact Hx | exact Px].
Qed.

Lemma consistent_at_most_one_open (st : State) :
  Consistent st -> (List.length (openMatches (db st)) <= 1)%nat.
Proof.
  intros [Hids _ Hopen _ _]. unfold openMatches.
  destruct (currentMatch st) as [mid|] eqn:Hcur.
  - apply (at_most_one_of_id _ _ mid Hids).
    intros m Hin Hop. apply negb_true_iff, Z.eqb_neq in Hop.
    specialize (Hopen m Hin Hop). congruence.
  - apply (at_most_one_of_id _ _ "" Hids).
    intros m Hin Hop. apply negb_true_iff, Z.eqb_neq in Hop.
    specialize (Hopen m Hin Hop). discriminate.
Qed.

(* ===================================================================== *)
(** ** Match lifecycle *)
(* ===================================================================== *)

(** Only [end] and [cancelmatch] clear the pointer to the current match. *)
Lemma pointer_kept (v : Variant) (ADMIN_IDS : list string) (st : State)
      (i : Interaction) (mid : string) :
  currentMatch st = Some mid -> clearsPointer (command i) = false ->
  currentMatch (snd (interactionCreate v ADMIN_IDS st i)) = Some mid.
Proof.
  intros Hcur Hkeep. unfold interactionCreate. rewrite Hcur.
  destruct (command i); try discriminate Hkeep; destruct v; simpl;
    repeat match goal with
           | |- context [if ?b then _ else _] => destruct b; simpl
           | |- context [match ?x with _ => _ end] => destruct x; simpl
           end; auto.
Qed.

Lemma pointer_kept_run (v : Variant) (ADMIN_IDS : list string)
      (trace : list Interaction) (st : State) (mid : string) :
  currentMatch st = Some mid ->
  forallb (fun j => negb (clearsPointer (command j))) trace = true ->
  currentMatch (run v ADMIN_IDS st trace) = Some mid.
Proof.
  revert st. induction trace as [|i rest IH]; intros st Hcur Hall; [exact Hcur |].
  simpl in *. apply andb_true_iff in Hall. destruct Hall as [Hi Hrest].
  apply IH; [| exact Hrest].
  apply pointer_kept; [exact Hcur | now apply negb_true_iff].
Qed.

Lemma setup_sets_pointer (v : Variant) (ADMIN_IDS : list string) (st : State)
      (i : Interaction) (mid : string) :
  fst (interactionCreate v ADMIN_IDS st i) = SetupComplete mid ->
  currentMatch (snd (interactionCreate v ADMIN_IDS st i)) = Some mid.
Proof.
  unfold interactionCreate.
  destruct (command i); destruct v; simpl;
    repeat match goal with
           | |- context [if ?b then _ else _] => destruct b; simpl
           | |- context [match ?x with _ => _ end] => destruct x; simpl
           end; try discriminate; intro H; injection H as <-; reflexivity.
Qed.

Lemma setup_while_active (v : Variant) (ADMIN_IDS : list string) (st : State)
      (i : Interaction) (team tossInfo place date mid : string) :
  command i = Setup team tossInfo place date ->
  isAdminOf ADMIN_IDS (callerId i) = true ->
  currentMatch st = Some mid ->
  interactionCreate v ADMIN_IDS st i = (AlreadyRunning, st).
Proof.
  intros Hcmd Hadmin Hcur. unfold interactionCreate.
  rewrite Hcmd, Hadmin, Hcur. destruct v; reflexivity.
Qed.

(** C4. In every state reached from the initial state by any sequence of
    commands, at most one match has its open flag set.  After a successful
    setup, as long as no end or cancel command was issued, a further setup
    by an administrator is answered "already running" and changes nothing
    in the state: matches, flags and predictions are as they were. *)
Theorem single_active_match :
  forall (v : Variant) (ADMIN_IDS : list string),
    (forall trace,
        (List.length (openMatches (db (run v ADMIN_IDS initialState trace))) <= 1)%nat)
    /\ (forall st first between second mid team tossInfo place date,
           fst (interactionCreate v ADMIN_IDS st first) = SetupComplete mid ->
           forallb (fun j => negb (clearsPointer (command j))) between = true ->
           command second = Setup team tossInfo place date ->
           isAdminOf ADMIN_IDS (callerId second) = true ->
           let st1 := run v ADMIN_IDS (snd (interactionCreate v ADMIN_IDS st first)) between in
           interactionCreate v ADMIN_IDS st1 second = (AlreadyRunning, st1)).
Proof.
  intros v ADMIN_IDS. split.
  - intro trace. apply consistent_at_most_one_open, run_consistent,
      initialState_consistent.
  - intros st first between second mid team tossInfo place date Hfirst Hbetween
           Hcmd Hadmin st1.
    apply (setup_while_active v ADMIN_IDS st1 second team tossInfo place date mid);
      try assumption.
    apply pointer_kept_run; [| exact Hbetween].
    apply setup_sets_pointer, Hfirst.
Qed.

Lemma single_active_match_witness :
  (List.length
     (openMatches
        (db (run Advanced sampleAdmins initialState
                 [sampleSetup; samplePredictA; sampleClose]))) <= 1)%nat
  /\ let st1 := run Advanced sampleAdmins
                    (snd (interactionCreate Advanced sampleAdmins initialState sampleSetup))
                    [samplePredictA; sampleClose] in
     interactionCreate Advanced sampleAdmins st1 sampleSetup = (AlreadyRunning, st1).
Proof.
  split.
  - apply (proj1 (single_active_match Advanced sampleAdmins)).
  - apply (proj2 (single_active_match Advanced sampleAdmins)
                 initialState sampleSetup [samplePredictA; sampleClose] sampleSetup
                 "1743500000000" "TPF" "Batting first" "Pune" "2025-04-01");
      reflexivity.
Defined.

Lemma closePatch_rows (mid : string) (l : list MatchRow) :
  Forall2 (closedRow mid None) l
          (map (fun m => if String.eqb (id m) (patchId (closePatch mid))
                         then applyPatch (closePatch mid) m else m) l).
Proof.
  induction l as [|m l IH]; simpl; constructor; [| exact IH].
  unfold closedRow. destruct (String.eqb_spec (id m) mid) as [E | E]; simpl.
  - do 5 (split; [reflexivity |]).
    split; [intro Hne; contradiction | intros _; repeat split].
  - do 5 (split; [reflexivity |]).
    split; [reflexivity | intro He; contradiction].
Qed.

Lemma endPatch_rows (mid : string) (actualScore : Score) (l : list MatchRow) :
  Forall2 (closedRow mid (Some actualScore)) l
          (map (fun m => if String.eqb (id m) (patchId (endPatch mid actualScore))
                         then applyPatch (endPatch mid actualScore) m else m) l).
Proof.
  induction l as [|m l IH]; simpl; constructor; [| exact IH].
  unfold closedRow. destruct (String.eqb_spec (id m) mid) as [E | E]; simpl.
  - do 5 (split; [reflexivity |]).
    split; [intro Hne; contradiction | intros _; repeat split].
  - do 5 (split; [reflexivity |]).
    split; [reflexivity | intro He; contradiction].
Qed.

(** C7. When the end command is issued for the current match with a
    malformed score text, the state is left exactly as it was (match row,
    predictions and pointer), whoever the caller is, and an administrator is
    answered "invalid score format".  When an administrator issues it with
    a well-formed text, the rows of the current match are closed and get
    the actual score, every other row and all predictions are as they were,
    the pointer is cleared, and the reply reports the outcome of winner
    resolution over the predictions of the match, each taken once in
    ascending user id: nobody when no prediction has a distance below
    Infinity, otherwise the first of the closest predictions. *)
Theorem end_is_atomic :
  forall (v : Variant) (ADMIN_IDS : list string) (st : State) (i : Interaction)
         (scoreStr mid : string),
    command i = End scoreStr ->
    currentMatch st = Some mid ->
    (parseScore scoreStr = None ->
       snd (interactionCreate v ADMIN_IDS st i) = st
       /\ (isAdminOf ADMIN_IDS (callerId i) = true ->
           fst (interactionCreate v ADMIN_IDS st i) = InvalidScoreFormat "240/5"))
    /\ (forall actualScore,
          parseScore scoreStr = Some actualScore ->
          isAdminOf ADMIN_IDS (callerId i) = true ->
          let st' := snd (interactionCreate v ADMIN_IDS st i) in
          (exists preds winner,
              fst (interactionCreate v ADMIN_IDS st i) = Result actualScore winner
              /\ enumerationOf (db st) mid preds
              /\ resolvedWinner v actualScore preds winner)
          /\ currentMatch st' = None
          /\ predictions (db st') = predictions (db st)
          /\ Forall2 (closedRow mid (Some actualScore))
                     (matches (db st)) (matches (db st'))).
Proof.
  intros v ADMIN_IDS st i scoreStr mid Hcmd Hcur. apply conj.
  - intro Hbad. unfold interactionCreate. rewrite Hcmd, Hcur, Hbad.
    destruct (isAdminOf ADMIN_IDS (callerId i)); destruct v; simpl;
      (split; [reflexivity | intro H; (reflexivity || discriminate H)]).
  - intros actualScore Hok Hadmin.
    rewrite (end_reply v ADMIN_IDS st i scoreStr mid actualScore Hcmd Hadmin Hcur Hok).
    cbn [fst snd currentMatch db]. split; [| split; [| split]].
    + exists (getPredictionsForMatch (db st) mid),
             (selectWinner v actualScore (getPredictionsForMatch (db st) mid)).
      split; [reflexivity |].
      split; [apply getPredictionsForMatch_enumerates | apply selectWinner_resolved].
    + reflexivity.
    + reflexivity.
    + apply endPatch_rows.
Qed.

Lemma end_is_atomic_witness :
  snd (interactionCreate Baseline sampleAdmins (sampleState Baseline) sampleBadEnd)
  = sampleState Baseline
  /\ fst (interactionCreate Baseline sampleAdmins (sampleState Baseline) sampleBadEnd)
     = InvalidScoreFormat "240/5"
  /\ currentMatch (snd (interactionCreate Baseline sampleAdmins (sampleState Baseline) sampleEnd))
     = None
  /\ exists preds w,
       fst (interactionCreate Baseline sampleAdmins (sampleState Baseline) sampleEnd)
       = Result (mkScore (JS.Finite 178) (JS.Finite 5)) (Some w)
       /\ enumerationOf (db (sampleState Baseline)) "1743500000000" preds
       /\ firstClosest Baseline (mkScore (JS.Finite 178) (JS.Finite 5)) preds w
       /\ userId w = "201".
Proof.
  destruct (end_is_atomic Baseline sampleAdmins (sampleState Baseline) sampleBadEnd
              "178-5" "1743500000000" eq_refl eq_refl) as [Hbad _].
  destruct (end_is_atomic Baseline sampleAdmins (sampleState Baseline) sampleEnd
              "178/5" "1743500000000" eq_refl eq_refl) as [_ Hgood].
  destruct (Hbad eq_refl) as [Hsame Hreply].
  split; [exact Hsame |]. split; [exact (Hreply eq_refl) |].
  destruct (Hgood (mkScore (JS.Finite 178) (JS.Finite 5)) eq_refl eq_refl)
    as ((preds & winner & Hres & Henum & Hwin) & Hcur & _).
  split; [exact Hcur |].
  destruct winner as [w|]; [| discriminate Hres].
  exists preds, w. split; [exact Hres |]. split; [exact Henum |].
  split; [exact Hwin |].
  injection Hres as <-. reflexivity.
Defined.

(** C8. When an administrator closes the poll, the rows of the current
    match get their open flag cleared and nothing else changes: no actual
    score is recorded, the other rows and all predictions are as they were,
    and the pointer to the current match is kept; it is kept by every later
    command except end and cancel.  A prediction submitted after the close
    is accepted, stored, and listed among the predictions of the match. *)
Theorem close_frame_and_late_submission :
  forall (v : Variant) (ADMIN_IDS : list string) (st : State) (i : Interaction)
         (mid : string),
    command i = Close ->
    isAdminOf ADMIN_IDS (callerId i) = true ->
    currentMatch st = Some mid ->
    let st' := snd (interactionCreate v ADMIN_IDS st i) in
    fst (interactionCreate v ADMIN_IDS st i) = PollClosed
    /\ currentMatch st' = Some mid
    /\ predictions (db st') = predictions (db st)
    /\ Forall2 (closedRow mid None) (matches (db st)) (matches (db st'))
    /\ (forall j, clearsPointer (command j) = false ->
          currentMatch (snd (interactionCreate v ADMIN_IDS st' j)) = Some mid)
    /\ (forall j scoreStr note score,
          command j = Predict scoreStr note ->
          parseScore scoreStr = Some score ->
          let row := mkPredictionRow mid (callerId j) (callerName j)
                       (runs score) (wickets score) (commentOf v note) in
          let st'' := snd (interactionCreate v ADMIN_IDS st' j) in
          fst (interactionCreate v ADMIN_IDS st' j)
          = PredictionSaved scoreStr (orEmpty (commentOf v note))
          /\ In row (getPredictionsForMatch (db st'') mid)
          /\ forall k, command k = ListPredictions ->
               exists l, fst (interactionCreate v ADMIN_IDS st'' k) = CurrentPredictions l
                         /\ In row l).
Proof.
  intros v ADMIN_IDS st i mid Hcmd Hadmin Hcur st'.
  assert (Hst' : st' = mkState (Some mid) (updateMatch (db st) (closePatch mid))).
  { unfold st', interactionCreate. rewrite Hcmd, Hadmin, Hcur. destruct v; reflexivity. }
  split.
  { unfold interactionCreate. rewrite Hcmd, Hadmin, Hcur. destruct v; reflexivity. }
  rewrite Hst'. simpl currentMatch. simpl db.
  split; [reflexivity |]. split; [reflexivity |].
  split; [apply closePatch_rows |]. split.
  - intros j Hj. apply pointer_kept; [reflexivity | exact Hj].
  - intros j scoreStr note score Hj Hparse row st''.
    assert (Hst'' : st'' = mkState (Some mid)
                             (insertOrUpdatePrediction
                                (updateMatch (db st) (closePatch mid)) row)).
    { unfold st'', interactionCreate. rewrite Hj. simpl currentMatch.
      rewrite Hparse. destruct v; reflexivity. }
    assert (Hrow : In row (getPredictionsForMatch (db st'') mid)).
    { rewrite Hst''. apply getPredictionsForMatch_in. split;
        [apply upsert_holds_row | reflexivity]. }
    split; [| split].
    + unfold interactionCreate. rewrite Hj. simpl currentMatch.
      rewrite Hparse. destruct v; reflexivity.
    + exact Hrow.
    + intros k Hk. exists (getPredictionsForMatch (db st'') mid). split; [| exact Hrow].
      unfold interactionCreate. rewrite Hk.
      replace (currentMatch st'') with (Some mid) by (rewrite Hst''; reflexivity).
      destruct v; reflexivity.
Qed.

Lemma close_frame_and_late_submission_witness :
  let st' := snd (interactionCreate Advanced sampleAdmins (sampleState Advanced) sampleClose) in
  fst (interactionCreate Advanced sampleAdmins (sampleState Advanced) sampleClose) = PollClosed
  /\ currentMatch st' = Some "1743500000000"
  /\ predictions (db st') = predictions (db (sampleState Advanced))
  /\ In (mkPredictionRow "1743500000000" "201" "userA" (JS.Finite 181) (JS.Finite 5) (Some ""))
        (getPredictionsForMatch
           (db (snd (interactionCreate Advanced sampleAdmins st'
                       (mkInteraction "201" "userA" (Predict "181/5" None)
                                      1743500004500 noRandom))))
           "1743500000000").
Proof.
  pose proof (close_frame_and_late_submission Advanced sampleAdmins
                (sampleState Advanced) sampleClose "1743500000000"
                eq_refl eq_refl eq_refl) as (Hreply & Hcur & Hpreds & _ & _ & Hlate).
  split; [exact Hreply |]. split; [exact Hcur |]. split; [exact Hpreds |].
  exact (proj1 (proj2 (Hlate (mkInteraction "201" "userA" (Predict "181/5" None)
                                            1743500004500 noRandom)
                             "181/5" None (mkScore (JS.Finite 181) (JS.Finite 5)) eq_refl eq_refl))).
Defined.

Lemma deleteMatch_details (d : Database) (mid : string) :
  getMatchDetails (deleteMatch d mid) mid = None.
Proof.
  unfold getMatchDetails, deleteMatch; simpl.
  destruct (find (fun m => String.eqb (id m) mid)
                 (filter (fun m => negb (String.eqb (id m) mid)) (matches d)))
    as [m|] eqn:F; [| reflexivity].
  apply find_some in F. destruct F as [Hin Hid].
  apply filter_In in Hin. destruct Hin as [_ Hne].
  rewrite Hid in Hne. discriminate.
Qed.

Lemma deleteMatch_predictions (d : Database) (mid : string) :
  getPredictionsForMatch (deleteMatch d mid) mid = [].
Proof.
  unfold getPredictionsForMatch, deleteMatch; simpl.
  assert (filter (fun p => String.eqb (matchId p) mid)
                 (filter (fun p => negb (String.eqb (matchId p) mid)) (predictions d))
          = []) as ->; [| reflexivity].
  induction (predictions d) as [|p l IH]; simpl; [reflexivity |].
  destruct (String.eqb (matchId p) mid) eqn:E; simpl; [exact IH |].
  rewrite E. exact IH.
Qed.

(** C9. When an administrator cancels (advanced variant): with a current
    match, the match row and every prediction of the match are deleted,
    every other row is kept, and the pointer is cleared; afterwards the
    details of that id are "not found" and its predictions are the empty
    sequence.  Without a current match the reply is "no active match" and
    nothing changes. *)
Theorem cancel_cascades :
  forall (ADMIN_IDS : list string) (st : State) (i : Interaction),
    command i = Cancelmatch ->
    isAdminOf ADMIN_IDS (callerId i) = true ->
    (forall mid,
        currentMatch st = Some mid ->
        let st' := snd (interactionCreate Advanced ADMIN_IDS st i) in
        fst (interactionCreate Advanced ADMIN_IDS st i) = MatchCancelled
        /\ currentMatch st' = None
        /\ (forall m, In m (matches (db st')) <-> In m (matches (db st)) /\ id m <> mid)
        /\ (forall p, In p (predictions (db st')) <->
                      In p (predictions (db st)) /\ matchId p <> mid)
        /\ getMatchDetails (db st') mid = None
        /\ getPredictionsForMatch (db st') mid = []
        /\ (forall j, command j = Details mid ->
              interactionCreate Advanced ADMIN_IDS st' j = (MatchIdNotFound, st')))
    /\ (currentMatch st = None ->
        interactionCreate Advanced ADMIN_IDS st i = (NoActiveMatch cancelmatchC, st)).
Proof.
  intros ADMIN_IDS st i Hcmd Hadmin. split.
  - intros mid Hcur st'.
    assert (Hst' : st' = mkState None (deleteMatch (db st) mid)).
    { unfold st', interactionCreate. rewrite Hcmd, Hadmin, Hcur. reflexivity. }
    split.
    { unfold interactionCreate. rewrite Hcmd, Hadmin, Hcur. reflexivity. }
    rewrite Hst'. simpl currentMatch. simpl db.
    split; [reflexivity |]. split; [| split; [| split; [| split]]].
    + intro m. unfold deleteMatch; simpl. rewrite filter_In, negb_true_iff, String.eqb_neq.
      reflexivity.
    + intro p. unfold deleteMatch; simpl. rewrite filter_In, negb_true_iff, String.eqb_neq.
      reflexivity.
    + apply deleteMatch_details.
    + apply deleteMatch_predictions.
    + intros j Hj. unfold interactionCreate. rewrite Hj. simpl db.
      rewrite deleteMatch_details. reflexivity.
  - intro Hnone. unfold interactionCreate. rewrite Hcmd, Hadmin, Hnone. reflexivity.
Qed.

Lemma cancel_cascades_witness :
  let st' := snd (interactionCreate Advanced sampleAdmins (sampleState Advanced) sampleCancel) in
  fst (interactionCreate Advanced sampleAdmins (sampleState Advanced) sampleCancel)
  = MatchCancelled
  /\ currentMatch st' = None
  /\ getMatchDetails (db st') "1743500000000" = None
  /\ getPredictionsForMatch (db st') "1743500000000" = []
  /\ interactionCreate Advanced sampleAdmins initialState sampleCancel
     = (NoActiveMatch cancelmatchC, initialState).
Proof.
  pose proof (cancel_cascades sampleAdmins (sampleState Advanced) sampleCancel
                eq_refl eq_refl) as [Hsome _].
  pose proof (cancel_cascades sampleAdmins initialState sampleCancel
                eq_refl eq_refl) as [_ Hnone].
  destruct (Hsome "1743500000000" eq_refl) as (H1 & H2 & _ & _ & H5 & H6 & _).
  split; [exact H1 |]. split; [exact H2 |]. split; [exact H5 |]. split; [exact H6 |].
  exact (Hnone eq_refl).
Defined.

(* ===================================================================== *)
(** ** Prediction registry *)
(* ===================================================================== *)

(** C6. In every state reached from the initial state no two rows of the
    registry have the same (matchId, userId) key.  On a registry with
    unique keys the upsert keeps the keys unique and leaves exactly one row
    for the submitted key, the submitted one; a first submission adds the
    row, a resubmission puts the new row (score, username, comment) in the
    place of the old one, whose values are gone, and no other row changes. *)
Theorem registry_single_slot_upsert :
  (forall v ADMIN_IDS trace,
      NoDup (map predictionKey (predictions (db (run v ADMIN_IDS initialState trace)))))
  /\ (forall d p,
        NoDup (map predictionKey (predictions d)) ->
        let d' := insertOrUpdatePrediction d p in
        NoDup (map predictionKey (predictions d'))
        /\ matches d' = matches d
        /\ filter (sameKey p) (predictions d') = [p]
        /\ (~ In (predictionKey p) (map predictionKey (predictions d)) ->
            predictions d' = (predictions d ++ [p])%list)
        /\ (In (predictionKey p) (map predictionKey (predictions d)) ->
            exists before old after,
              predictionKey old = predictionKey p
              /\ predictions d = (before ++ old :: after)%list
              /\ predictions d' = (before ++ p :: after)%list)).
Proof.
  split.
  - intros v ADMIN_IDS trace.
    apply uniqueKeys, run_consistent, initialState_consistent.
  - intros d p Hnd d'. split; [apply upsert_keeps_keys_unique, Hnd |].
    split; [reflexivity |]. split; [| split].
    + apply single_row_of_key;
        [apply upsert_keeps_keys_unique, Hnd | apply upsert_holds_row].
    + apply upsert_creates.
    + apply upsert_replaces, Hnd.
Qed.

Lemma registry_single_slot_upsert_witness :
  let d := db (sampleState Advanced) in
  let p := mkPredictionRow "1743500000000" "201" "renamedA" (JS.Finite 190) (JS.Finite 2) (Some "changed my mind") in
  filter (sameKey p) (predictions (insertOrUpdatePrediction d p)) = [p]
  /\ exists before old after,
       predictionKey old = predictionKey p
       /\ predictions d = (before ++ old :: after)%list
       /\ predictions (insertOrUpdatePrediction d p) = (before ++ p :: after)%list.
Proof.
  intros d p.
  assert (Hnd : NoDup (map predictionKey (predictions d))).
  { apply (proj1 registry_single_slot_upsert Advanced sampleAdmins
                 [sampleSetup; samplePredictA; samplePredictB]). }
  destruct (proj2 registry_single_slot_upsert d p Hnd) as (_ & _ & Hone & _ & Hrepl).
  split; [exact Hone |].
  apply Hrepl. left. reflexivity.
Defined.

(** C10. For the same caller, score text and comment, [edit] leaves the
    same state as [predict] and has the same outcome (accepted, no active
    match, invalid score), the two replies differing in wording only:
    both are refused exactly when there is no current match, both refuse a
    malformed score text with the same message and no change, and both
    perform the same upsert; when the caller has no prediction for the
    current match yet, [edit] creates it. *)
Theorem edit_behaves_as_predict :
  forall (v : Variant) (ADMIN_IDS : list string) (st : State)
         (uid uname scoreStr : string) (note : option string)
         (clock : Z) (random : nat -> Q),
    let predict := interactionCreate v ADMIN_IDS st
                     (mkInteraction uid uname (Predict scoreStr note) clock random) in
    let edit := interactionCreate v ADMIN_IDS st
                  (mkInteraction uid uname (Edit scoreStr note) clock random) in
    snd edit = snd predict
    /\ submitOutcome (fst edit) = submitOutcome (fst predict)
    /\ (currentMatch st = None ->
        edit = (NoActiveMatch editC, st) /\ predict = (NoActiveMatch predictC, st))
    /\ (forall mid, currentMatch st = Some mid -> parseScore scoreStr = None ->
        edit = (InvalidScoreFormat "200/4", st) /\ predict = edit)
    /\ (forall mid score,
          currentMatch st = Some mid -> parseScore scoreStr = Some score ->
          let row := mkPredictionRow mid uid uname (runs score) (wickets score)
                       (commentOf v note) in
          fst edit = PredictionUpdated scoreStr (orEmpty (commentOf v note))
          /\ fst predict = PredictionSaved scoreStr (orEmpty (commentOf v note))
          /\ snd edit = mkState (Some mid) (insertOrUpdatePrediction (db st) row)
          /\ (~ In (predictionKey row) (map predictionKey (predictions (db st))) ->
              predictions (db (snd edit)) = (predictions (db st) ++ [row])%list)).
Proof.
  intros v ADMIN_IDS st uid uname scoreStr note clock random predict edit.
  unfold predict, edit, interactionCreate. simpl command. simpl callerId.
  simpl callerName.
  destruct (currentMatch st) as [mid|] eqn:Hcur.
  - destruct (parseScore scoreStr) as [score|] eqn:Hparse.
    + apply conj; [destruct v; reflexivity |].
      apply conj; [destruct v; reflexivity |].
      apply conj; [discriminate |].
      apply conj; [discriminate |].
      intros mid' score' Hmid Hscore.
      injection Hmid as <-. injection Hscore as <-.
      apply conj; [reflexivity |].
      apply conj; [reflexivity |].
      apply conj; [reflexivity |].
      intro Hfresh. exact (upsert_creates (db st) _ Hfresh).
    + apply conj; [destruct v; reflexivity |].
      apply conj; [destruct v; reflexivity |].
      apply conj; [discriminate |].
      apply conj; [| discriminate].
      intros mid' _ _. destruct v; split; reflexivity.
  - apply conj; [destruct v; reflexivity |].
    apply conj; [destruct v; reflexivity |].
    apply conj; [| apply conj; discriminate].
    intros _. destruct v; split; reflexivity.
Qed.

Lemma edit_behaves_as_predict_witness :
  let newcomer := mkInteraction "203" "userC" (Edit "170/7" None) 1743500003500 noRandom in
  predictions (db (snd (interactionCreate Advanced sampleAdmins (sampleState Advanced) newcomer)))
  = (predictions (db (sampleState Advanced))
       ++ [mkPredictionRow "1743500000000" "203" "userC" (JS.Finite 170) (JS.Finite 7) (Some "")])%list.
Proof.
  intro newcomer.
  destruct (edit_behaves_as_predict Advanced sampleAdmins (sampleState Advanced)
              "203" "userC" "170/7" None 1743500003500 noRandom)
    as (_ & _ & _ & _ & Hcreate).
  destruct (Hcreate "1743500000000" (mkScore (JS.Finite 170) (JS.Finite 7)) eq_refl eq_refl)
    as (_ & _ & _ & Hfresh).
  apply Hfresh.
  intros [H | [H | []]]; discriminate H.
Defined.

(* ===================================================================== *)
(** ** Leaderboard *)
(* ===================================================================== *)

(** The entries of the leaderboard carry the usernames and, as averages,
    the successive random numbers scaled by 50; no distance enters. *)
Lemma placeholderEntries_spec (userStats : list UserStats) (random : nat -> Q) (k : nat) :
  map fst (placeholderEntries userStats random k) = map statsUsername userStats
  /\ map snd (placeholderEntries userStats random k)
     = map (fun n => (random n * 50)%Q) (seq k (List.length userStats)).
Proof.
  revert k. induction userStats as [|u rest IH]; intro k; simpl; [split; reflexivity |].
  destruct (IH (S k)) as [Hn Hv]. rewrite Hn, Hv. split; reflexivity.
Qed.

(** C3, on the code.  With alice at average distance 4 and bob at average
    distance 2 (as [mystats] reports them), and [Math.random()] returning
    0.1 then 0.9, the leaderboard lists alice first with 5 and bob second
    with 45: the figures are the random numbers times 50, whatever the
    predictions were. *)
Theorem leaderboard_ranks_by_placeholder :
  fst (interactionCreate Advanced sampleAdmins statsState (mystatsOf "301" "alice"))
  = MyStats 1 (JS.Finite 4)
  /\ fst (interactionCreate Advanced sampleAdmins statsState (mystatsOf "302" "bob"))
     = MyStats 1 (JS.Finite 2)
  /\ fst (interactionCreate Advanced sampleAdmins statsState leaderboardRequest)
     = LeaderboardReply [("alice", 50 # 10); ("bob", 450 # 10)]
  /\ forall userStats random,
       map snd (placeholderEntries userStats random 0)
       = map (fun n => (random n * 50)%Q) (seq 0 (List.length userStats)).
Proof.
  split; [reflexivity |]. split; [reflexivity |]. split; [reflexivity |].
  intros userStats random. apply placeholderEntries_spec.
Qed.

(* ===================================================================== *)
(** ** Past matches *)
(* ===================================================================== *)

Lemma dateNotBefore_trans (a b c : MatchRow) :
  dateNotBefore a b -> dateNotBefore b c -> dateNotBefore a c.
Proof.
  unfold dateNotBefore. intros Hab Hbc.
  exact (string_le_trans (matchDate c) (matchDate b) (matchDate a) Hbc Hab).
Qed.

Lemma insertByDateDesc_perm (m : MatchRow) (l : list MatchRow) :
  Permutation (m :: l) (insertByDateDesc m l).
Proof.
  induction l as [|x rest IH]; simpl; [apply Permutation_refl |].
  destruct (String.ltb (matchDate m) (matchDate x)); [| apply Permutation_refl].
  eapply perm_trans; [apply perm_swap | apply perm_skip, IH].
Qed.

Lemma insertByDateDesc_sorted (m : MatchRow) (l : list MatchRow) :
  Sorted dateNotBefore l -> Sorted dateNotBefore (insertByDateDesc m l).
Proof.
  induction l as [|x rest IH]; simpl; intro Hs.
  - repeat constructor.
  - destruct (String.ltb (matchDate m) (matchDate x)) eqn:E.
    + inversion Hs as [|? ? Hrest Hhd]; subst.
      constructor; [apply IH, Hrest |].
      destruct rest as [|y rest']; simpl.
      * constructor. apply ltb_asym, E.
      * destruct (String.ltb (matchDate m) (matchDate y));
          constructor; [inversion Hhd; assumption | apply ltb_asym, E].
    + constructor; [exact Hs |]. constructor. exact E.
Qed.

Lemma getPastMatches_perm (d : Database) :
  Permutation (filter (fun m => Z.eqb (isOpen m) 0) (matches d)) (getPastMatches d).
Proof.
  unfold getPastMatches.
  induction (filter (fun m => Z.eqb (isOpen m) 0) (matches d)) as [|m l IH]; simpl;
    [constructor |].
  eapply perm_trans; [apply perm_skip, IH | apply insertByDateDesc_perm].
Qed.

Lemma getPastMatches_in (d : Database) (m : MatchRow) :
  In m (getPastMatches d) <-> In m (matches d) /\ isOpen m = 0.
Proof.
  split.
  - intro H. apply (Permutation_in _ (Permutation_sym (getPastMatches_perm d))) in H.
    apply filter_In in H. destruct H as [Hin Hz]. split; [exact Hin | now apply Z.eqb_eq].
  - intros [Hin Hz]. apply (Permutation_in _ (getPastMatches_perm d)).
    apply filter_In. split; [exact Hin | now apply Z.eqb_eq].
Qed.

(** X1. [getPastMatches] returns the closed matches, each once, latest
    date first: it is a rearrangement of the rows with [isOpen = 0], and no
    match in the result is dated before a match that comes after it. *)
Theorem getPastMatches_closed_latest_first :
  forall d : Database,
    Permutation (filter (fun m => Z.eqb (isOpen m) 0) (matches d)) (getPastMatches d)
    /\ (forall m, In m (getPastMatches d) <-> In m (matches d) /\ isOpen m = 0)
    /\ StronglySorted dateNotBefore (getPastMatches d).
Proof.
  intro d. split; [apply getPastMatches_perm |]. split; [apply getPastMatches_in |].
  apply Sorted_StronglySorted.
  - intros a b c. apply dateNotBefore_trans.
  - unfold getPastMatches.
    induction (filter (fun m => Z.eqb (isOpen m) 0) (matches d)) as [|m l IH]; simpl;
      [constructor |].
    apply insertByDateDesc_sorted, IH.
Qed.

(* ===================================================================== *)
(** ** Lookups and updates on missing keys *)
(* ===================================================================== *)

Lemma find_id_none (l : list MatchRow) (mid : string) :
  find (fun m => String.eqb (id m) mid) l = None <-> ~ In mid (map id l).
Proof.
  induction l as [|m l IH]; simpl; [tauto |].
  destruct (String.eqb_spec (id m) mid) as [E | E].
  - split; [discriminate | intro H; exfalso; apply H; left; exact E].
  - rewrite IH. tauto.
Qed.

(** X2. [getMatchDetails] answers [null] exactly for an id that no match
    row has; otherwise it returns the first row of that id, which is the
    only one when ids are unique, with just the predictions of that
    match. *)
Theorem getMatchDetails_lookup :
  forall (d : Database) (mid : string),
    (getMatchDetails d mid = None <-> ~ In mid (map id (matches d)))
    /\ (forall m preds,
          getMatchDetails d mid = Some (m, preds) ->
          In m (matches d) /\ id m = mid
          /\ preds = getPredictionsForMatch d mid
          /\ (forall p, In p preds <-> In p (predictions d) /\ matchId p = mid)
          /\ (NoDup (map id (matches d)) ->
              forall m', In m' (matches d) -> id m' = mid -> m' = m)).
Proof.
  intros d mid. unfold getMatchDetails. split.
  - rewrite <- find_id_none.
    destruct (find (fun m => String.eqb (id m) mid) (matches d));
      split; congruence.
  - intros m preds H.
    destruct (find (fun m => String.eqb (id m) mid) (matches d)) as [m0|] eqn:F;
      [| discriminate H].
    injection H as <- <-. apply find_some in F. destruct F as [Hin Hid].
    apply String.eqb_eq in Hid.
    split; [exact Hin |]. split; [exact Hid |]. split; [reflexivity |]. split.
    + intro p. apply getPredictionsForMatch_in.
    + intros Hnd m' Hin' Hid'.
      clear - Hnd Hin Hin' Hid Hid'.
      induction (matches d) as [|x l IH]; [contradiction |].
      simpl in Hnd. inversion Hnd as [|? ? Hnotin Hrest]; subst.
      destruct Hin as [-> | Hin]; destruct Hin' as [-> | Hin'].
      * reflexivity.
      * exfalso. apply Hnotin. rewrite <- Hid'. apply in_map, Hin'.
      * exfalso. apply Hnotin. rewrite Hid'. apply in_map, Hin.
      * apply IH; assumption.
Qed.

Lemma getMatchDetails_lookup_witness :
  exists m,
    getMatchDetails (db (sampleState Advanced)) "1743500000000"
    = Some (m, getPredictionsForMatch (db (sampleState Advanced)) "1743500000000")
    /\ teamName m = "TPF" /\ isOpen m = 1.
Proof.
  destruct (getMatchDetails (db (sampleState Advanced)) "1743500000000")
    as [[m preds]|] eqn:E; [| discriminate E].
  destruct (proj2 (getMatchDetails_lookup (db (sampleState Advanced)) "1743500000000")
              m preds E) as (_ & _ & -> & _).
  exists m. split; [reflexivity |].
  injection E as <-. split; reflexivity.
Defined.

Lemma map_id_when_unaffected {A : Type} (f : A -> A) (l : list A) :
  (forall x, In x l -> f x = x) -> map f l = l.
Proof.
  intro H. induction l as [|x l IH]; simpl; [reflexivity |].
  rewrite (H x (or_introl eq_refl)), IH; [reflexivity |].
  intros y Hy. apply H. right. exact Hy.
Qed.

Lemma filter_all_kept {A : Type} (P : A -> bool) (l : list A) :
  (forall x, In x l -> P x = true) -> filter P l = l.
Proof.
  intro H. induction l as [|x l IH]; simpl; [reflexivity |].
  rewrite (H x (or_introl eq_refl)), IH; [reflexivity |].
  intros y Hy. apply H. right. exact Hy.
Qed.

(** X3. An UPDATE or a DELETE for an id that the store does not know
    changes nothing: [updateMatch] with the id of no row returns the store
    as it is, and so does [deleteMatch] when, besides, no prediction
    carries the id. *)
Theorem unknown_id_is_left_alone :
  forall (d : Database) (p : MatchPatch) (mid : string),
    (~ In (patchId p) (map id (matches d)) -> updateMatch d p = d)
    /\ (~ In mid (map id (matches d)) ->
        ~ In mid (map matchId (predictions d)) ->
        deleteMatch d mid = d).
Proof.
  intros d p mid. split.
  - intro H. unfold updateMatch. destruct d as [ms ps]; simpl in *. f_equal.
    apply map_id_when_unaffected. intros m Hin.
    destruct (String.eqb_spec (id m) (patchId p)) as [E | E]; [| reflexivity].
    exfalso. apply H. rewrite <- E. apply in_map, Hin.
  - intros Hm Hp. unfold deleteMatch. destruct d as [ms ps]; simpl in *. f_equal.
    + apply filter_all_kept. intros m Hin. apply negb_true_iff, String.eqb_neq.
      intros E. apply Hm. rewrite <- E. apply in_map, Hin.
    + apply filter_all_kept. intros q Hin. apply negb_true_iff, String.eqb_neq.
      intros E. apply Hp. rewrite <- E. apply in_map, Hin.
Qed.

Lemma unknown_id_is_left_alone_witness :
  updateMatch (db (sampleState Advanced)) (closePatch "42") = db (sampleState Advanced)
  /\ deleteMatch (db (sampleState Advanced)) "42" = db (sampleState Advanced).
Proof.
  destruct (unknown_id_is_left_alone (db (sampleState Advanced)) (closePatch "42") "42")
    as [Hu Hd].
  split.
  - apply Hu. intros [H | []]; discriminate H.
  - apply Hd; [intros [H | []]; discriminate H | intros [H | [H | []]]; discriminate H].
Defined.

(* ===================================================================== *)
(** ** Frame of the upsert *)
(* ===================================================================== *)

Lemma upsert_filter_unaffected (d : Database) (p : PredictionRow)
      (P : PredictionRow -> bool) :
  (forall q, sameKey p q = true -> P q = false) ->
  filter P (predictions (insertOrUpdatePrediction d p)) = filter P (predictions d).
Proof.
  intro HP. assert (Hp : P p = false) by (apply HP, sameKey_iff; reflexivity).
  unfold insertOrUpdatePrediction; simpl.
  destruct (existsb (sameKey p) (predictions d)).
  - induction (predictions d) as [|q l IH]; simpl; [reflexivity |].
    destruct (sameKey p q) eqn:E.
    + rewrite (overwritten_row p q E), Hp, (HP q E). exact IH.
    + destruct (P q); [f_equal |]; exact IH.
  - rewrite filter_app. simpl. rewrite Hp. apply app_nil_r.
Qed.

(** X4. A submission for a stored match touches the slot of its own key
    only: the predictions returned for any other match are what they were,
    and in the list of every match the rows of the other users are what
    they were, in the same order. *)
Theorem upsert_changes_one_slot :
  forall (d : Database) (p : PredictionRow) (mid : string),
    In (matchId p) (map id (matches d)) ->
    (mid <> matchId p ->
       getPredictionsForMatch (insertOrUpdatePrediction d p) mid
       = getPredictionsForMatch d mid)
    /\ filter (fun q => negb (String.eqb (userId q) (userId p)))
              (getPredictionsForMatch (insertOrUpdatePrediction d p) mid)
       = filter (fun q => negb (String.eqb (userId q) (userId p)))
                (getPredictionsForMatch d mid).
Proof.
  intros d p mid _. split.
  - intro Hne. unfold getPredictionsForMatch. f_equal. apply upsert_filter_unaffected.
    intros q Hq. apply sameKey_iff in Hq. unfold predictionKey in Hq.
    injection Hq as Hm _. apply String.eqb_neq. congruence.
  - unfold getPredictionsForMatch. rewrite !filter_sortByUserId. f_equal.
    assert (Hmerge : forall l : list PredictionRow,
               filter (fun q => negb (String.eqb (userId q) (userId p)))
                      (filter (fun q => String.eqb (matchId q) mid) l)
               = filter (fun q => (String.eqb (matchId q) mid
                                   && negb (String.eqb (userId q) (userId p)))%bool) l).
    { induction l as [|q l IH]; simpl; [reflexivity |].
      destruct (String.eqb (matchId q) mid); simpl; [| exact IH].
      destruct (negb (String.eqb (userId q) (userId p))); [f_equal |]; exact IH. }
    rewrite !Hmerge. apply upsert_filter_unaffected.
    intros q Hq. apply sameKey_iff in Hq. unfold predictionKey in Hq.
    injection Hq as _ Hu. rewrite <- Hu, String.eqb_refl. simpl.
    apply andb_false_r.
Qed.

Lemma upsert_changes_one_slot_witness :
  let late := mkPredictionRow "1744100000000" "301" "alice" (JS.Finite 150) (JS.Finite 9)
                              (Some "") in
  In "1744100000000" (map id (matches (db twoMatchesState)))
  /\ getPredictionsForMatch (insertOrUpdatePrediction (db twoMatchesState) late)
                            "1743500000000"
     = getPredictionsForMatch (db twoMatchesState) "1743500000000"
  /\ List.length (getPredictionsForMatch (db twoMatchesState) "1743500000000") = 2%nat.
Proof.
  intro late.
  assert (Hstored : In (matchId late) (map id (matches (db twoMatchesState))))
    by (right; left; reflexivity).
  split; [exact Hstored |]. split; [| reflexivity].
  apply (proj1 (upsert_changes_one_slot (db twoMatchesState) late "1743500000000" Hstored)).
  discriminate.
Defined.

(* ===================================================================== *)
(** ** Statistics queries *)
(* ===================================================================== *)

Lemma joinEnded_in (d : Database) (p : PredictionRow) (r : PredictionWithMatch) :
  In r (joinEnded d p) <->
  prediction r = p
  /\ exists m, In m (matches d) /\ id m = matchId p /\ isOpen m = 0
               /\ actualRuns m = Some (joinedActualRuns r)
               /\ actualWickets m = Some (joinedActualWickets r).
Proof.
  unfold joinEnded. rewrite in_flat_map. split.
  - intros (m & Hin & Hr).
    destruct (String.eqb_spec (matchId p) (id m)) as [E | E]; simpl in Hr;
      [| contradiction].
    destruct (Z.eqb_spec (isOpen m) 0) as [Z0 | Z0]; simpl in Hr; [| contradiction].
    destruct (actualRuns m) as [ar|] eqn:Er; [| contradiction].
    destruct (actualWickets m) as [aw|] eqn:Ew; [| contradiction].
    destruct Hr as [<- | []]. simpl. split; [reflexivity |].
    exists m. repeat split; auto.
  - intros (Hp & m & Hin & Hid & Hz & Hr & Hw).
    exists m. split; [exact Hin |].
    rewrite <- Hid, String.eqb_refl, Hz, Hr, Hw. simpl. left.
    destruct r; simpl in *. congruence.
Qed.

Lemma joinEnded_at_most_one (d : Database) (p : PredictionRow) :
  NoDup (map id (matches d)) -> (List.length (joinEnded d p) <= 1)%nat.
Proof.
  unfold joinEnded. induction (matches d) as [|m l IH]; simpl; intro Hnd; [lia |].
  inversion Hnd as [|? ? Hnotin Hrest]; subst.
  rewrite length_app.
  destruct (String.eqb_spec (matchId p) (id m)) as [E | E]; simpl.
  - assert (flat_map
              (fun m0 =>
                 if (String.eqb (matchId p) (id m0) && Z.eqb (isOpen m0) 0)%bool
                 then match actualRuns m0, actualWickets m0 with
                      | Some r, Some w => [mkPredictionWithMatch p r w]
                      | _, _ => []
                      end
                 else []) l = []) as ->.
    { clear IH Hrest Hnd. revert Hnotin.
      induction l as [|x l IHl]; simpl; intro Hnotin; [reflexivity |].
      destruct (String.eqb_spec (matchId p) (id x)) as [Ex | Ex]; simpl.
      - exfalso. apply Hnotin. left. congruence.
      - apply IHl. intro H. apply Hnotin. right. exact H. }
    destruct (Z.eqb (isOpen m) 0); simpl; [| lia].
    destruct (actualRuns m), (actualWickets m); simpl; lia.
  - apply IH, Hrest.
Qed.

Lemma flat_map_length_le {A B : Type} (f : A -> list B) (l : list A) :
  (forall x, (List.length (f x) <= 1)%nat) ->
  (List.length (flat_map f l) <= List.length l)%nat.
Proof.
  intro H. induction l as [|x l IH]; simpl; [lia |].
  rewrite length_app. specialize (H x). lia.
Qed.

Lemma getUserStats_in (d : Database) (uid : string) (r : PredictionWithMatch) :
  In r (getUserStats d uid) <->
  In (prediction r) (predictions d) /\ userId (prediction r) = uid
  /\ exists m, In m (matches d) /\ id m = matchId (prediction r)
               /\ isOpen m = 0
               /\ actualRuns m = Some (joinedActualRuns r)
               /\ actualWickets m = Some (joinedActualWickets r).
Proof.
  unfold getUserStats. rewrite in_flat_map. split.
  - intros (p & Hp & Hr). apply filter_In in Hp. destruct Hp as [Hin Hu].
    apply String.eqb_eq in Hu. apply joinEnded_in in Hr.
    destruct Hr as (-> & Hm). tauto.
  - intros (Hin & Hu & Hm). exists (prediction r). split.
    + apply filter_In. split; [exact Hin | now apply String.eqb_eq].
    + apply joinEnded_in. split; [reflexivity | exact Hm].
Qed.

(** With unique match ids, a prediction is joined once when its match has
    been ended, and not at all otherwise. *)
Lemma joinEnded_once (l : list MatchRow) (p : PredictionRow) :
  NoDup (map id l) ->
  map prediction
      (flat_map
         (fun m =>
            if (String.eqb (matchId p) (id m) && Z.eqb (isOpen m) 0)%bool
            then match actualRuns m, actualWickets m with
                 | Some r, Some w => [mkPredictionWithMatch p r w]
                 | _, _ => []
                 end
            else []) l)
  = if existsb (fun m => (String.eqb (id m) (matchId p) && isEnded m)%bool) l
    then [p] else [].
Proof.
  induction l as [|m l IH]; intro Hnd; [reflexivity |].
  inversion Hnd as [|? ? Hnotin Hrest]; subst. specialize (IH Hrest).
  cbn [flat_map existsb]. rewrite map_app, IH. clear IH.
  rewrite (String.eqb_sym (id m) (matchId p)).
  destruct (String.eqb_spec (matchId p) (id m)) as [E | E]; cbn [andb orb].
  - assert (existsb (fun m0 => (String.eqb (id m0) (matchId p) && isEnded m0)%bool) l
            = false) as ->.
    { destruct (existsb (fun m0 => (String.eqb (id m0) (matchId p) && isEnded m0)%bool) l)
        eqn:Ex; [| reflexivity].
      apply existsb_exists in Ex. destruct Ex as (x & Hx & Hid).
      apply andb_true_iff in Hid. destruct Hid as [Hid _].
      apply String.eqb_eq in Hid. exfalso. apply Hnotin.
      rewrite <- E, <- Hid. apply in_map, Hx. }
    unfold isEnded.
    destruct (Z.eqb (isOpen m) 0); cbn [andb]; [| reflexivity].
    destruct (actualRuns m), (actualWickets m); reflexivity.
  - reflexivity.
Qed.

Lemma map_flat_map {A B C : Type} (g : B -> C) (f : A -> list B) (l : list A) :
  map g (flat_map f l) = flat_map (fun x => map g (f x)) l.
Proof.
  induction l as [|x l IH]; simpl; [reflexivity |].
  rewrite map_app, IH. reflexivity.
Qed.

Lemma flat_map_singletons {A : Type} (P : A -> bool) (l : list A) :
  flat_map (fun x => if P x then [x] else []) l = filter P l.
Proof.
  induction l as [|x l IH]; simpl; [reflexivity |].
  rewrite IH. destruct (P x); reflexivity.
Qed.

Lemma filter_filter {A : Type} (P Q : A -> bool) (l : list A) :
  filter Q (filter P l) = filter (fun x => (P x && Q x)%bool) l.
Proof.
  induction l as [|x l IH]; simpl; [reflexivity |].
  destruct (P x); simpl; [| exact IH].
  destruct (Q x); [f_equal |]; exact IH.
Qed.

(** With unique match ids, the predictions that [getUserStats] returns are
    the predictions of the user whose match has been ended, each once and
    in storage order. *)
Lemma getUserStats_predictions (d : Database) (uid : string) :
  NoDup (map id (matches d)) ->
  map prediction (getUserStats d uid)
  = filter (fun p => (String.eqb (userId p) uid && endedMatch d (matchId p))%bool)
           (predictions d).
Proof.
  intro Hnd. unfold getUserStats. rewrite map_flat_map.
  rewrite (flat_map_ext _ (fun p => if endedMatch d (matchId p) then [p] else [])).
  - rewrite flat_map_singletons. apply filter_filter.
  - intro p. unfold joinEnded, endedMatch. apply joinEnded_once, Hnd.
Qed.

(** X5. [getUserStats] returns exactly the pairs of a prediction of the
    user with a closed match of that id whose two score columns are set,
    carrying that actual score.  With unique match ids the predictions
    returned are the predictions of the user whose match has been ended,
    each once and in storage order; with unique prediction keys besides,
    no two returned rows have the same key. *)
Theorem getUserStats_joins_ended_matches :
  forall (d : Database) (uid : string),
    (forall r,
        In r (getUserStats d uid) <->
        In (prediction r) (predictions d) /\ userId (prediction r) = uid
        /\ exists m, In m (matches d) /\ id m = matchId (prediction r)
                     /\ isOpen m = 0
                     /\ actualRuns m = Some (joinedActualRuns r)
                     /\ actualWickets m = Some (joinedActualWickets r))
    /\ (NoDup (map id (matches d)) ->
        map prediction (getUserStats d uid)
        = filter (fun p => (String.eqb (userId p) uid && endedMatch d (matchId p))%bool)
                 (predictions d))
    /\ (NoDup (map id (matches d)) ->
        NoDup (map predictionKey (predictions d)) ->
        NoDup (map (fun r => predictionKey (prediction r)) (getUserStats d uid))).
Proof.
  intros d uid. split; [intro r; apply getUserStats_in |].
  split; [apply getUserStats_predictions |].
  intros Hids Hkeys. rewrite <- (map_map prediction predictionKey).
  rewrite (getUserStats_predictions d uid Hids).
  apply NoDup_map_filter, Hkeys.
Qed.

Lemma getUserStats_joins_ended_matches_witness :
  map prediction (getUserStats (db statsState) "301")
  = [mkPredictionRow "1743500000000" "301" "alice" (JS.Finite 182) (JS.Finite 5) (Some "")]
  /\ map prediction (getUserStats (db twoMatchesState) "301")
     = filter (fun p => (String.eqb (userId p) "301"
                         && endedMatch (db twoMatchesState) (matchId p))%bool)
              (predictions (db twoMatchesState)).
Proof.
  split.
  - rewrite (proj1 (proj2 (getUserStats_joins_ended_matches (db statsState) "301"))).
    + reflexivity.
    + repeat constructor. intros [].
  - apply (proj1 (proj2 (getUserStats_joins_ended_matches (db twoMatchesState) "301"))).
    repeat constructor; [intros [H | []]; discriminate H | intros []].
Defined.

Lemma pushRow_found (r : PredictionWithMatch) (before after : list UserStats)
      (g : UserStats) :
  statsUserId g = userId (prediction r) ->
  (forall h, In h before -> statsUserId h <> userId (prediction r)) ->
  pushRow r (before ++ g :: after)
  = (before ++ mkUserStats (statsUserId g) (statsUsername g)
                            (statsPredictions g ++ [r]) :: after)%list.
Proof.
  intros Hg. induction before as [|h l IH]; simpl; intro Hb.
  - rewrite Hg, String.eqb_refl. reflexivity.
  - destruct (String.eqb_spec (statsUserId h) (userId (prediction r))) as [E | E].
    + exfalso. exact (Hb h (or_introl eq_refl) E).
    + f_equal. apply IH. intros x Hx. apply Hb. right. exact Hx.
Qed.

Lemma pushRow_new (r : PredictionWithMatch) (acc : list UserStats) :
  (forall h, In h acc -> statsUserId h <> userId (prediction r)) ->
  pushRow r acc
  = (acc ++ [mkUserStats (userId (prediction r)) (username (prediction r)) [r]])%list.
Proof.
  induction acc as [|h l IH]; simpl; intro Hb; [reflexivity |].
  destruct (String.eqb_spec (statsUserId h) (userId (prediction r))) as [E | E].
  - exfalso. exact (Hb h (or_introl eq_refl) E).
  - f_equal. apply IH. intros x Hx. apply Hb. right. exact Hx.
Qed.

Lemma rowsOf_snoc (uid : string) (seen : list PredictionWithMatch)
      (r : PredictionWithMatch) :
  rowsOf uid (seen ++ [r])
  = (rowsOf uid seen
       ++ if String.eqb (userId (prediction r)) uid then [r] else [])%list.
Proof.
  unfold rowsOf. rewrite filter_app. simpl.
  destruct (String.eqb (userId (prediction r)) uid); reflexivity.
Qed.

Lemma groupOf_other (seen : list PredictionWithMatch) (r : PredictionWithMatch)
      (h : UserStats) :
  statsUserId h <> userId (prediction r) ->
  groupOf seen h -> groupOf (seen ++ [r]) h.
Proof.
  intros Hne [Hrows Hname]. split; [| exact Hname].
  rewrite rowsOf_snoc.
  destruct (String.eqb_spec (userId (prediction r)) (statsUserId h)) as [E | E];
    [congruence |].
  rewrite app_nil_r. exact Hrows.
Qed.

Lemma pushRow_grouped (seen : list PredictionWithMatch) (acc : list UserStats)
      (r : PredictionWithMatch) :
  Grouped seen acc -> Grouped (seen ++ [r]) (pushRow r acc).
Proof.
  intros (Hnd & Hall & Hcov).
  destruct (in_dec string_dec (userId (prediction r)) (map statsUserId acc))
    as [Hin | Hnew].
  - apply in_map_iff in Hin. destruct Hin as (g & Hg & Hin).
    apply in_split in Hin. destruct Hin as (before & after & ->).
    rewrite map_app in Hnd. simpl in Hnd.
    assert (Hothers : forall h, In h before \/ In h after ->
                                statsUserId h <> userId (prediction r)).
    { intros h Hh E. apply NoDup_remove_2 in Hnd. apply Hnd.
      rewrite Hg, <- E. apply in_or_app.
      destruct Hh as [Hh | Hh]; [left | right]; apply in_map; exact Hh. }
    rewrite (pushRow_found r before after g Hg (fun h Hh => Hothers h (or_introl Hh))).
    apply Forall_app in Hall. destruct Hall as [Hbefore Hrest].
    inversion Hrest as [|? ? Hgroup Hafter]; subst.
    split; [| split].
    + rewrite map_app. simpl. exact Hnd.
    + apply Forall_app. split; [| constructor].
      * apply Forall_forall. intros h Hh. apply groupOf_other.
        -- apply Hothers. left. exact Hh.
        -- rewrite Forall_forall in Hbefore. apply Hbefore, Hh.
      * destruct Hgroup as [Hrows (first & rest & Hfirst & Hname)].
        split; simpl.
        -- rewrite rowsOf_snoc, Hg, String.eqb_refl, <- Hg, <- Hrows. reflexivity.
        -- exists first, (rest ++ [r])%list. rewrite Hfirst. split; [reflexivity | exact Hname].
      * apply Forall_forall. intros h Hh. apply groupOf_other.
        -- apply Hothers. right. exact Hh.
        -- rewrite Forall_forall in Hafter. apply Hafter, Hh.
    + intros x Hx. rewrite map_app. simpl.
      apply in_app_or in Hx. destruct Hx as [Hx | [<- | []]].
      * specialize (Hcov x Hx). rewrite map_app in Hcov. exact Hcov.
      * apply in_or_app. right. left. exact Hg.
  - assert (Hothers : forall h, In h acc -> statsUserId h <> userId (prediction r)).
    { intros h Hh E. apply Hnew. rewrite <- E. apply in_map, Hh. }
    rewrite (pushRow_new r acc Hothers).
    split; [| split].
    + rewrite map_app. apply NoDup_app; [exact Hnd | repeat constructor; intros [] |].
      intros k Hk [<- | []]. exact (Hnew Hk).
    + apply Forall_app. split.
      * apply Forall_forall. intros h Hh. apply groupOf_other; [apply Hothers, Hh |].
        rewrite Forall_forall in Hall. apply Hall, Hh.
      * constructor; [| constructor]. split; simpl.
        -- rewrite rowsOf_snoc, String.eqb_refl.
           assert (rowsOf (userId (prediction r)) seen = []) as ->; [| reflexivity].
           unfold rowsOf.
           destruct (filter (fun x => String.eqb (userId (prediction x))
                                                 (userId (prediction r))) seen)
             as [|x l] eqn:F; [reflexivity |]. exfalso.
           assert (In x (x :: l)) as Hx by (left; reflexivity).
           rewrite <- F in Hx. apply filter_In in Hx. destruct Hx as [Hx Hu].
           apply String.eqb_eq in Hu. apply Hnew. rewrite <- Hu. apply Hcov, Hx.
        -- exists r, []. split; reflexivity.
    + intros x Hx. rewrite map_app. apply in_or_app.
      apply in_app_or in Hx. destruct Hx as [Hx | [<- | []]].
      * left. apply Hcov, Hx.
      * right. left. reflexivity.
Qed.

Lemma groupingLoop_grouped (rows seen : list PredictionWithMatch) (acc : list UserStats) :
  Grouped seen acc ->
  Grouped (seen ++ rows) (fold_left (fun grouped row => pushRow row grouped) rows acc).
Proof.
  revert seen acc. induction rows as [|r rows IH]; intros seen acc H; simpl.
  - rewrite app_nil_r. exact H.
  - replace (seen ++ r :: rows)%list with ((seen ++ [r]) ++ rows)%list
      by (rewrite <- app_assoc; reflexivity).
    apply IH, pushRow_grouped, H.
Qed.

Lemma insertByIndex_perm (g : UserStats) (l : list UserStats) :
  Permutation (g :: l) (insertByIndex g l).
Proof.
  induction l as [|x rest IH]; simpl; [apply Permutation_refl |].
  destruct (decimalValue (statsUserId x) <? decimalValue (statsUserId g));
    [| apply Permutation_refl].
  eapply perm_trans; [apply perm_swap | apply perm_skip, IH].
Qed.

Lemma filter_partition_perm {A : Type} (P : A -> bool) (l : list A) :
  Permutation l (filter P l ++ filter (fun x => negb (P x)) l).
Proof.
  induction l as [|x l IH]; simpl; [constructor |].
  destruct (P x); simpl; [apply perm_skip, IH |].
  apply Permutation_cons_app, IH.
Qed.

(** [Object.entries] lists every property, once. *)
Lemma objectEntries_perm (grouped : list UserStats) :
  Permutation grouped (objectEntries grouped).
Proof.
  unfold objectEntries.
  eapply perm_trans; [apply (filter_partition_perm isArrayIndex) |].
  apply Permutation_app_tail.
  induction (filter isArrayIndex grouped) as [|g l IH]; simpl; [constructor |].
  eapply perm_trans; [apply perm_skip, IH | apply insertByIndex_perm].
Qed.

Lemma Grouped_perm (rows : list PredictionWithMatch) (acc acc' : list UserStats) :
  Permutation acc acc' -> Grouped rows acc -> Grouped rows acc'.
Proof.
  intros Hperm (Hnd & Hall & Hcov). split; [| split].
  - exact (Permutation_NoDup (Permutation_map statsUserId Hperm) Hnd).
  - exact (Permutation_Forall Hperm Hall).
  - intros r Hr.
    exact (Permutation_in _ (Permutation_map statsUserId Hperm) (Hcov r Hr)).
Qed.

(** X6. [getAllUserStats] groups the joined rows by user: no user has two
    entries; the entry of a user holds all the joined rows of that user, in
    the order of the query, and at least one; it carries the username of
    the first of them; and every joined row is in the entry of its user. *)
Theorem getAllUserStats_groups_by_user :
  forall d : Database,
    let rows := flat_map (joinEnded d) (predictions d) in
    NoDup (map statsUserId (getAllUserStats d))
    /\ (forall g, In g (getAllUserStats d) ->
          statsPredictions g = rowsOf (statsUserId g) rows
          /\ exists first rest,
               statsPredictions g = first :: rest
               /\ statsUsername g = username (prediction first))
    /\ (forall r, In r rows ->
          exists g, In g (getAllUserStats d)
                    /\ statsUserId g = userId (prediction r)
                    /\ In r (statsPredictions g)).
Proof.
  intros d rows.
  assert (H : Grouped rows (getAllUserStats d)).
  { unfold getAllUserStats. fold rows.
    apply (Grouped_perm rows _ _ (objectEntries_perm _)).
    apply (groupingLoop_grouped rows [] []).
    split; [constructor | split; [constructor | intros ? []]]. }
  destruct H as (Hnd & Hall & Hcov).
  split; [exact Hnd |]. split.
  - intros g Hg. rewrite Forall_forall in Hall. exact (Hall g Hg).
  - intros r Hr. specialize (Hcov r Hr). apply in_map_iff in Hcov.
    destruct Hcov as (g & Hid & Hg). exists g. split; [exact Hg |].
    split; [exact Hid |].
    rewrite Forall_forall in Hall. destruct (Hall g Hg) as [Hrows _].
    rewrite Hrows. unfold rowsOf. apply filter_In. split; [exact Hr |].
    rewrite Hid. apply String.eqb_refl.
Qed.

Lemma getAllUserStats_groups_by_user_witness :
  let alice := mkPredictionWithMatch
                 (mkPredictionRow "1743500000000" "301" "alice" (JS.Finite 182)
                                  (JS.Finite 5) (Some ""))
                 (JS.Finite 178) (JS.Finite 5) in
  [alice]
  = rowsOf "301" (flat_map (joinEnded (db statsState)) (predictions (db statsState))).
Proof.
  intro alice.
  exact (proj1 (proj1 (proj2 (getAllUserStats_groups_by_user (db statsState)))
                      (mkUserStats "301" "alice" [alice]) (or_introl eq_refl))).
Defined.

(* ===================================================================== *)
(** ** What the commands leave alone *)
(* ===================================================================== *)

Ltac handler_cases :=
  repeat match goal with
         | |- context [if ?b then _ else _] => destruct b eqn:?; simpl
         | |- context [match ?x with _ => _ end] => destruct x eqn:?; simpl
         end.

(** X7. The commands list, past, details, mystats, leaderboard, export and
    help never change the state, whoever calls them, in either variant. *)
Theorem reading_commands_change_nothing :
  forall (v : Variant) (ADMIN_IDS : list string) (st : State) (i : Interaction),
    readsOnly (command i) = true ->
    snd (interactionCreate v ADMIN_IDS st i) = st.
Proof.
  intros v ADMIN_IDS st i Hread. unfold interactionCreate.
  destruct (command i); try discriminate Hread; destruct v; simpl;
    handler_cases; reflexivity.
Qed.

Lemma reading_commands_change_nothing_witness :
  snd (interactionCreate Advanced sampleAdmins statsState leaderboardRequest) = statsState.
Proof.
  apply reading_commands_change_nothing. reflexivity.
Defined.

(** X8. A caller who is not an administrator cannot change the matches or
    the pointer to the current match: whatever the command, the match
    table and the pointer are as before. *)
Theorem non_admin_cannot_touch_matches :
  forall (v : Variant) (ADMIN_IDS : list string) (st : State) (i : Interaction),
    isAdminOf ADMIN_IDS (callerId i) = false ->
    matches (db (snd (interactionCreate v ADMIN_IDS st i))) = matches (db st)
    /\ currentMatch (snd (interactionCreate v ADMIN_IDS st i)) = currentMatch st.
Proof.
  intros v ADMIN_IDS st i Hadmin. unfold interactionCreate. rewrite Hadmin.
  destruct (command i); destruct v; simpl; handler_cases; split; congruence.
Qed.

Lemma non_admin_cannot_touch_matches_witness :
  let intruder := mkInteraction "201" "userA" Cancelmatch 1743500008000 noRandom in
  matches (db (snd (interactionCreate Advanced sampleAdmins (sampleState Advanced) intruder)))
  = matches (db (sampleState Advanced))
  /\ currentMatch (snd (interactionCreate Advanced sampleAdmins (sampleState Advanced) intruder))
     = currentMatch (sampleState Advanced).
Proof.
  intro intruder.
  apply non_admin_cannot_touch_matches. reflexivity.
Defined.

Opaque insertOrUpdatePrediction.

(** X9. No command other than cancelmatch changes a prediction of somebody
    else: the rows whose user is not the caller are the same, in the same
    order, before and after. *)
Theorem others_predictions_are_safe :
  forall (v : Variant) (ADMIN_IDS : list string) (st : State) (i : Interaction),
    command i <> Cancelmatch ->
    filter (fun q => negb (String.eqb (userId q) (callerId i)))
           (predictions (db (snd (interactionCreate v ADMIN_IDS st i))))
    = filter (fun q => negb (String.eqb (userId q) (callerId i)))
             (predictions (db st)).
Proof.
  intros v ADMIN_IDS st i Hcmd. unfold interactionCreate.
  assert (Hup : forall mid uname r w c,
             filter (fun q => negb (String.eqb (userId q) (callerId i)))
                    (predictions
                       (insertOrUpdatePrediction (db st)
                          (mkPredictionRow mid (callerId i) uname r w c)))
             = filter (fun q => negb (String.eqb (userId q) (callerId i)))
                      (predictions (db st))).
  { intros mid uname r w c. apply upsert_filter_unaffected.
    intros q Hq. apply sameKey_iff in Hq. unfold predictionKey in Hq. simpl in Hq.
    injection Hq as _ Hu. rewrite <- Hu, String.eqb_refl. reflexivity. }
  destruct (command i); try (exfalso; apply Hcmd; reflexivity); destruct v; simpl;
    handler_cases; try reflexivity; try apply Hup;
    match goal with
    | H : insertMatch _ _ _ _ _ _ _ = Some _ |- _ =>
        apply insertMatch_some in H; destruct H as [_ ->]; reflexivity
    end.
Qed.

Transparent insertOrUpdatePrediction.

Lemma others_predictions_are_safe_witness :
  filter (fun q => negb (String.eqb (userId q) "201"))
         (predictions (db (snd (interactionCreate Advanced sampleAdmins
                                  (sampleState Advanced) sampleEditA))))
  = filter (fun q => negb (String.eqb (userId q) "201"))
           (predictions (db (sampleState Advanced))).
Proof.
  apply (others_predictions_are_safe Advanced sampleAdmins (sampleState Advanced)
           sampleEditA).
  discriminate.
Defined.

(** X10. Without a current match only setup can change anything: every
    other command, by any caller, leaves the state as it is. *)
Theorem only_setup_starts_from_idle :
  forall (v : Variant) (ADMIN_IDS : list string) (st : State) (i : Interaction),
    currentMatch st = None ->
    isSetup (command i) = false ->
    snd (interactionCreate v ADMIN_IDS st i) = st.
Proof.
  intros v ADMIN_IDS st i Hcur Hcmd. unfold interactionCreate. rewrite Hcur.
  destruct (command i); try discriminate Hcmd; destruct v; simpl;
    handler_cases; reflexivity.
Qed.

Lemma only_setup_starts_from_idle_witness :
  snd (interactionCreate Baseline sampleAdmins initialState sampleEnd) = initialState
  /\ snd (interactionCreate Baseline sampleAdmins initialState samplePredictA)
     = initialState.
Proof.
  split; apply only_setup_starts_from_idle; reflexivity.
Defined.

(* ===================================================================== *)
(** ** Editing and creating a match *)
(* ===================================================================== *)

Lemma applyPatch_nothing (mid : string) (m : MatchRow) :
  applyPatch (mkMatchPatch mid None None None None None None None) m = m.
Proof. destruct m; reflexivity. Qed.

Lemma Forall2_single {A B : Type} (R : A -> B -> Prop) (a : A) (l : list B) :
  Forall2 R [a] l -> exists b, l = [b] /\ R a b.
Proof.
  intro H. inversion H as [|x b l0 l' Hab Hrest]; subst.
  inversion Hrest; subst. exists b. split; [reflexivity | exact Hab].
Qed.

Lemma mergedField_coalesce (given : option string) (before : string) :
  mergedField given before (coalesce (orUndefined given) before).
Proof. destruct given as [[|c text]|]; reflexivity. Qed.

Lemma notGiven_undefined (o : option string) : notGiven o -> orUndefined o = None.
Proof. intros [-> | ->]; reflexivity. Qed.

(** X11. When an administrator edits the current match (advanced variant),
    open or closed: the reply is "match details updated"; in the rows of
    the current match each descriptive field given with a non-empty value
    takes that value, and a field left out or given as the empty text stays
    as it is; id, open flag and actual score of every row, all other rows,
    the predictions and the pointer are unchanged.  With nothing given,
    the state is unchanged. *)
Theorem editmatch_merges_description :
  forall (ADMIN_IDS : list string) (st : State) (i : Interaction) (mid : string)
         (team tossInfo place date : option string),
    command i = Editmatch team tossInfo place date ->
    isAdminOf ADMIN_IDS (callerId i) = true ->
    currentMatch st = Some mid ->
    let st' := snd (interactionCreate Advanced ADMIN_IDS st i) in
    fst (interactionCreate Advanced ADMIN_IDS st i) = MatchDetailsUpdated
    /\ currentMatch st' = Some mid
    /\ predictions (db st') = predictions (db st)
    /\ Forall2 (redescribedRow mid team tossInfo place date)
               (matches (db st)) (matches (db st'))
    /\ (notGiven team -> notGiven tossInfo -> notGiven place -> notGiven date ->
        st' = st).
Proof.
  intros ADMIN_IDS st i mid team tossInfo place date Hcmd Hadmin Hcur st'.
  set (patch := mkMatchPatch mid None None None (orUndefined team) (orUndefined tossInfo)
                             (orUndefined place) (orUndefined date)).
  assert (Hst' : st' = mkState (Some mid) (updateMatch (db st) patch)).
  { unfold st', interactionCreate. rewrite Hcmd, Hadmin, Hcur. reflexivity. }
  split.
  { unfold interactionCreate. rewrite Hcmd, Hadmin, Hcur. reflexivity. }
  rewrite Hst'. simpl currentMatch. simpl db.
  split; [reflexivity |]. split; [reflexivity |]. split.
  - unfold updateMatch. simpl matches.
    induction (matches (db st)) as [|m l IH]; simpl; constructor; [| exact IH].
    unfold redescribedRow.
    destruct (String.eqb_spec (id m) mid) as [E | E]; simpl.
    + do 4 (split; [reflexivity |]).
      split; [intro Hne; contradiction |]. intros _.
      repeat split; apply mergedField_coalesce.
    + do 4 (split; [reflexivity |]).
      split; [reflexivity | intro He; contradiction].
  - intros Ht Ho Hp Hd. unfold patch.
    rewrite (notGiven_undefined _ Ht), (notGiven_undefined _ Ho),
      (notGiven_undefined _ Hp), (notGiven_undefined _ Hd).
    destruct st as [cur d]. simpl in *. rewrite Hcur. f_equal.
    unfold updateMatch. destruct d as [ms ps]. simpl. f_equal.
    apply map_id_when_unaffected. intros m _.
    destruct (String.eqb (id m) mid); [apply applyPatch_nothing | reflexivity].
Qed.

Lemma editmatch_merges_description_witness :
  let rename := mkInteraction "100" "admin"
                  (Editmatch (Some "TPF XI") (Some "") None None)
                  1743500003000 noRandom in
  let st' := snd (interactionCreate Advanced sampleAdmins (sampleState Advanced) rename) in
  fst (interactionCreate Advanced sampleAdmins (sampleState Advanced) rename)
  = MatchDetailsUpdated
  /\ predictions (db st') = predictions (db (sampleState Advanced))
  /\ exists after,
       matches (db st') = [after]
       /\ redescribedRow "1743500000000" (Some "TPF XI") (Some "") None None
            (mkMatchRow "1743500000000" "TPF" "Batting first" "Pune" "2025-04-01" 1
                        None None)
            after
       /\ teamName after = "TPF XI" /\ toss after = "Batting first".
Proof.
  intros rename st'.
  destruct (editmatch_merges_description sampleAdmins (sampleState Advanced) rename
              "1743500000000" (Some "TPF XI") (Some "") None None
              eq_refl eq_refl eq_refl) as (H1 & _ & H3 & H4 & _).
  split; [exact H1 |]. split; [exact H3 |].
  fold st' in H4.
  change (matches (db (sampleState Advanced)))
    with [mkMatchRow "1743500000000" "TPF" "Batting first" "Pune" "2025-04-01" 1
                     None None] in H4.
  destruct (Forall2_single _ _ _ H4) as (after & Hafter & Hrow).
  exists after. split; [exact Hafter |]. split; [exact Hrow |].
  destruct Hrow as (_ & _ & _ & _ & _ & Hfields).
  destruct (Hfields eq_refl) as (Hteam & Htoss & _).
  split; [exact Hteam | exact Htoss].
Defined.

Lemma find_id_after (l : list MatchRow) (row : MatchRow) :
  ~ In (id row) (map id l) ->
  find (fun m => String.eqb (id m) (id row)) (l ++ [row]) = Some row.
Proof.
  induction l as [|m l IH]; simpl; intro H.
  - rewrite String.eqb_refl. reflexivity.
  - destruct (String.eqb_spec (id m) (id row)) as [E | E].
    + exfalso. apply H. left. exact E.
    + apply IH. intro Hin. apply H. right. exact Hin.
Qed.

(** X12. When an administrator sets up a match in a consistent state that
    has no current match and does not hold the id made from the clock:
    the reply carries that id, the pointer is set to it, a row with the
    given fields, the open flag set and no actual score is added after the
    existing rows, and the predictions are untouched; looking the id up
    then gives that row with no prediction, and it is the only open match. *)
Theorem setup_creates_the_current_match :
  forall (v : Variant) (ADMIN_IDS : list string) (st : State) (i : Interaction)
         (team tossInfo place date : string),
    Consistent st ->
    command i = Setup team tossInfo place date ->
    isAdminOf ADMIN_IDS (callerId i) = true ->
    currentMatch st = None ->
    ~ In (JS.toString (dateNow i)) (map id (matches (db st))) ->
    let mid := JS.toString (dateNow i) in
    let row := mkMatchRow mid team tossInfo place date 1 None None in
    let st' := snd (interactionCreate v ADMIN_IDS st i) in
    fst (interactionCreate v ADMIN_IDS st i) = SetupComplete mid
    /\ st' = mkState (Some mid)
                     (mkDatabase (matches (db st) ++ [row]) (predictions (db st)))
    /\ getMatchDetails (db st') mid = Some (row, [])
    /\ openMatches (db st') = [row].
Proof.
  intros v ADMIN_IDS st i team tossInfo place date Hcons Hcmd Hadmin Hcur Hfresh
         mid row st'.
  assert (Hins : insertMatch (db st) mid team tossInfo place date true
                 = Some (mkDatabase (matches (db st) ++ [row]) (predictions (db st)))).
  { unfold insertMatch.
    destruct (existsb (fun m => String.eqb (id m) mid) (matches (db st))) eqn:E;
      [| reflexivity].
    exfalso. apply Hfresh. apply existsb_exists in E. destruct E as (m & Hin & Hm).
    apply String.eqb_eq in Hm. fold mid. rewrite <- Hm. apply in_map, Hin. }
  assert (Hst' : st' = mkState (Some mid)
                         (mkDatabase (matches (db st) ++ [row]) (predictions (db st)))).
  { unfold st', interactionCreate. rewrite Hcmd, Hadmin, Hcur. simpl.
    fold mid. rewrite Hins. destruct v; reflexivity. }
  split.
  { unfold interactionCreate. rewrite Hcmd, Hadmin, Hcur. simpl.
    fold mid. rewrite Hins. destruct v; reflexivity. }
  split; [exact Hst' |]. rewrite Hst'. simpl db. split.
  - unfold getMatchDetails. simpl matches.
    change mid with (id row). rewrite (find_id_after _ row Hfresh). f_equal. f_equal.
    unfold getPredictionsForMatch. simpl predictions.
    destruct (filter (fun p => String.eqb (matchId p) (id row)) (predictions (db st)))
      as [|p l] eqn:F; [reflexivity |]. exfalso.
    assert (In p (p :: l)) as Hp by (left; reflexivity).
    rewrite <- F in Hp. apply filter_In in Hp. destruct Hp as [Hp Hm].
    apply String.eqb_eq in Hm. apply Hfresh. fold mid.
    change mid with (id row). rewrite <- Hm.
    apply (predictionsHaveMatch st Hcons), Hp.
  - unfold openMatches. simpl matches. rewrite filter_app. simpl.
    assert (filter (fun m => negb (Z.eqb (isOpen m) 0)) (matches (db st)) = []) as ->;
      [| reflexivity].
    destruct (filter (fun m => negb (Z.eqb (isOpen m) 0)) (matches (db st)))
      as [|m l] eqn:F; [reflexivity |]. exfalso.
    assert (In m (m :: l)) as Hm by (left; reflexivity).
    rewrite <- F in Hm. apply filter_In in Hm. destruct Hm as [Hm Hop].
    apply negb_true_iff, Z.eqb_neq in Hop.
    pose proof (openIsCurrent st Hcons m Hm Hop) as Hc. congruence.
Qed.

Lemma setup_creates_the_current_match_witness :
  let ended := run Baseline sampleAdmins (sampleState Baseline) [sampleEnd] in
  let again := mkInteraction "100" "admin"
                 (Setup "TPF" "Bowling first" "Mumbai" "2025-04-08")
                 1744100000000 noRandom in
  fst (interactionCreate Baseline sampleAdmins ended again) = SetupComplete "1744100000000"
  /\ openMatches (db (snd (interactionCreate Baseline sampleAdmins ended again)))
     = [mkMatchRow "1744100000000" "TPF" "Bowling first" "Mumbai" "2025-04-08" 1 None None].
Proof.
  intros ended again.
  assert (Hcons : Consistent ended).
  { apply (run_consistent Baseline sampleAdmins
             [sampleSetup; samplePredictA; samplePredictB; sampleEnd] initialState).
    apply initialState_consistent. }
  destruct (setup_creates_the_current_match Baseline sampleAdmins ended again
              "TPF" "Bowling first" "Mumbai" "2025-04-08" Hcons eq_refl eq_refl eq_refl)
    as (H1 & _ & _ & H4).
  - intros [H | []]. discriminate H.
  - split; [exact H1 | exact H4].
Defined.

(** X13. When the id made from the clock is already the id of a stored
    match, the INSERT of setup fails on the primary key: the handler ends
    without a reply, and neither the store nor the pointer changes. *)
Theorem setup_with_repeated_clock_fails :
  forall (v : Variant) (ADMIN_IDS : list string) (st : State) (i : Interaction)
         (team tossInfo place date : string),
    command i = Setup team tossInfo place date ->
    isAdminOf ADMIN_IDS (callerId i) = true ->
    currentMatch st = None ->
    In (JS.toString (dateNow i)) (map id (matches (db st))) ->
    interactionCreate v ADMIN_IDS st i = (Uncaught, st).
Proof.
  intros v ADMIN_IDS st i team tossInfo place date Hcmd Hadmin Hcur Hin.
  unfold interactionCreate. rewrite Hcmd, Hadmin, Hcur. simpl.
  destruct (insertMatch (db st) (JS.toString (dateNow i)) team tossInfo place date true)
    as [d|] eqn:E; [| destruct v; reflexivity].
  apply insertMatch_some in E. destruct E as [Hfresh _]. contradiction.
Qed.

Lemma setup_with_repeated_clock_fails_witness :
  let ended := run Advanced sampleAdmins (sampleState Advanced) [sampleEnd] in
  interactionCreate Advanced sampleAdmins ended sampleSetup = (Uncaught, ended).
Proof.
  intro ended.
  apply (setup_with_repeated_clock_fails Advanced sampleAdmins ended sampleSetup
           "TPF" "Batting first" "Pune" "2025-04-01" eq_refl eq_refl eq_refl).
  left. reflexivity.
Defined.

(* ===================================================================== *)
(** ** Scores and ids as text *)
(* ===================================================================== *)

Lemma allDigits_clean (s : string) :
  allDigits s = true -> noWhiteSpace s = true /\ containsChar "/" s = false.
Proof.
  induction s as [|c r IH]; [split; reflexivity |].
  cbn [allDigits noWhiteSpace containsChar].
  intro H. apply andb_true_iff in H. destruct H as [Hc Hr].
  destruct (IH Hr) as [Hs Hn]. rewrite Hs, Hn, (digit_not_space c r Hc).
  split; [reflexivity |].
  destruct (Ascii.eqb_spec c "/") as [-> | _]; [discriminate Hc | reflexivity].
Qed.

Lemma uintText_digits (d : Decimal.uint) :
  allDigits (NilEmpty.string_of_uint d) = true.
Proof. induction d; simpl; auto. Qed.

Lemma uintText_value_from (d : Decimal.uint) (acc : positive) :
  fold_left (fun a c => 10 * a + JS.digitValue c)
            (list_ascii_of_string (NilEmpty.string_of_uint d)) (Z.pos acc)
  = Z.pos (Pos.of_uint_acc d acc).
Proof.
  revert acc. induction d as [|d IH|d IH|d IH|d IH|d IH|d IH|d IH|d IH|d IH|d IH];
    intro acc; [reflexivity | ..];
    cbn [NilEmpty.string_of_uint list_ascii_of_string fold_left Pos.of_uint_acc];
    rewrite <- IH; f_equal;
    match goal with
    | |- context [JS.digitValue ?c] =>
        let x := eval vm_compute in (JS.digitValue c) in
        change (JS.digitValue c) with x
    end;
    rewrite ?Pos2Z.inj_add, ?Pos2Z.inj_mul; lia.
Qed.

Lemma uintText_value (d : Decimal.uint) :
  decimalValue (NilEmpty.string_of_uint d) = Z.of_N (Pos.of_uint d).
Proof.
  unfold decimalValue.
  induction d as [|d IH|d IH|d IH|d IH|d IH|d IH|d IH|d IH|d IH|d IH];
    [reflexivity | exact IH | ..];
    cbn [NilEmpty.string_of_uint list_ascii_of_string fold_left Pos.of_uint Z.of_N];
    rewrite <- uintText_value_from; reflexivity.
Qed.

Lemma uintText_nonempty (d : Decimal.uint) :
  d <> Decimal.Nil -> NilEmpty.string_of_uint d <> "".
Proof. destruct d; [contradiction | ..]; discriminate. Qed.

Lemma posText (p : positive) :
  NilZero.string_of_uint (Pos.to_uint p) = NilEmpty.string_of_uint (Pos.to_uint p).
Proof.
  pose proof (DecimalPos.Unsigned.to_uint_nonnil p) as H.
  destruct (Pos.to_uint p); [contradiction | ..]; reflexivity.
Qed.

(** The text of a positive integer: its decimal digits, at least one. *)
Lemma toString_positive (c : Z) :
  0 < c ->
  allDigits (JS.toString c) = true /\ JS.toString c <> ""
  /\ decimalValue (JS.toString c) = c.
Proof.
  destruct c as [|p|p]; try lia. intros _. unfold JS.toString. simpl.
  rewrite posText.
  split; [apply uintText_digits |].
  split; [apply uintText_nonempty, DecimalPos.Unsigned.to_uint_nonnil |].
  rewrite uintText_value, DecimalPos.Unsigned.of_to. reflexivity.
Qed.

Lemma toInt_not_nil (n : Z) :
  Z.to_int n <> Decimal.Pos Decimal.Nil /\ Z.to_int n <> Decimal.Neg Decimal.Nil.
Proof.
  destruct n as [|p|p]; simpl; split; try discriminate;
    intro H; injection H as H; exact (DecimalPos.Unsigned.to_uint_nonnil p H).
Qed.

Lemma toString_injective (a b : Z) : JS.toString a = JS.toString b -> a = b.
Proof.
  unfold JS.toString. intro H.
  destruct (toInt_not_nil a) as [Ha1 Ha2]. destruct (toInt_not_nil b) as [Hb1 Hb2].
  pose proof (NilZero.isi (Z.to_int a) Ha1 Ha2) as Ea.
  rewrite H, (NilZero.isi (Z.to_int b) Hb1 Hb2) in Ea.
  injection Ea as Ea. symmetry. apply DecimalZ.to_int_inj, Ea.
Qed.

Lemma trimEnd_clean (s : string) : noWhiteSpace s = true -> JS.trimEnd s = s.
Proof.
  induction s as [|a r IH]; [reflexivity |].
  cbn [noWhiteSpace]. intro H. apply andb_true_iff in H. destruct H as [Ha Hr].
  apply negb_true_iff in Ha. cbn [JS.trimEnd].
  assert (JS.allWhiteSpace (String a r) = false) as ->.
  { clear IH Hr. destruct r as [|b [|c r3]]; cbn [startsWithWhiteSpace] in Ha;
      cbn [JS.allWhiteSpace].
    - rewrite orb_false_r in Ha. rewrite Ha. reflexivity.
    - destruct (JS.isWhiteSpace1 a); [discriminate Ha |].
      destruct (JS.isWhiteSpace2 a b); [discriminate Ha | reflexivity].
    - destruct (JS.isWhiteSpace1 a); [discriminate Ha |].
      destruct (JS.isWhiteSpace2 a b); [discriminate Ha |].
      destruct (JS.isWhiteSpace3 a b c); [discriminate Ha | reflexivity]. }
  rewrite (IH Hr). reflexivity.
Qed.

Lemma trim_clean (s : string) : noWhiteSpace s = true -> JS.trim s = s.
Proof.
  intro H. unfold JS.trim.
  assert (JS.trimStart s = s) as ->.
  { apply trimStart_fixed. destruct s as [|a r]; [reflexivity |].
    cbn [noWhiteSpace] in H. apply andb_true_iff in H. destruct H as [Ha _].
    apply negb_true_iff in Ha. exact Ha. }
  apply trimEnd_clean, H.
Qed.

(** From [10^21] on the rounding stays at or above [10^21], which is a
    double. *)
Lemma roundMagnitude_large_stays (c : Z) :
  10 ^ 21 <= c -> 10 ^ 21 <= JS.roundMagnitude c.
Proof.
  intro Hc.
  assert (K1 : 2 ^ 53 < 10 ^ 21) by reflexivity.
  assert (K2 : 2 ^ 69 <= 10 ^ 21) by (vm_compute; discriminate).
  assert (K3 : 10 ^ 21 = 7629394531250000 * 2 ^ 17) by reflexivity.
  assert (K4 : 10 ^ 21 < 2 ^ 52 * 2 ^ 18) by reflexivity.
  destruct (roundMagnitude_large c ltac:(lia)) as (He & Hq & Hm & Hr & Hhalf & Hcases).
  set (e := Z.log2 c - 52) in *. set (q := c / 2 ^ e) in *.
  set (r := c mod 2 ^ e) in *.
  assert (Hlog : 69 <= Z.log2 c) by (apply Z.log2_le_pow2; lia).
  assert (Hpe : 0 < 2 ^ e) by (apply Z.pow_pos_nonneg; lia).
  assert (Hfloor : 10 ^ 21 <= q * 2 ^ e).
  { destruct (Z.eq_dec e 17) as [E | NE].
    - assert (E' : 2 ^ e = 2 ^ 17) by (f_equal; exact E).
      assert (7629394531250000 <= q); [| rewrite E'; lia].
      unfold q. rewrite E'. apply Z.div_le_lower_bound; lia.
    - assert (H18 : 2 ^ 18 <= 2 ^ e)
        by (apply Z.pow_le_mono_r; [lia | unfold e in *; lia]).
      assert (H52 : 2 ^ 52 * 2 ^ 18 <= q * 2 ^ e)
        by (apply Z.mul_le_mono_nonneg; lia).
      lia. }
  destruct Hcases as [[-> _] | [-> _]]; lia.
Qed.

Lemma ofZ_finite_positive (c x : Z) :
  JS.ofZ c = JS.Finite x -> 0 < x -> 0 < c /\ x = JS.roundMagnitude c.
Proof.
  unfold JS.ofZ.
  destruct (2 ^ 1024 <=? JS.roundMagnitude (Z.abs c)); [destruct (c <? 0); discriminate |].
  intro E. injection E as <-. intro Hpos.
  pose proof (roundMagnitude_nonneg (Z.abs c) (Z.abs_nonneg c)) as Hn.
  destruct c as [|p|p]; simpl Z.sgn in *; simpl Z.abs in *; try lia.
Qed.

Lemma ofZ_opp_finite (c x : Z) :
  JS.ofZ c = JS.Finite x -> JS.ofZ (- c) = JS.Finite (- x).
Proof.
  unfold JS.ofZ. rewrite Z.abs_opp.
  destruct (2 ^ 1024 <=? JS.roundMagnitude (Z.abs c)); [destruct (c <? 0); discriminate |].
  intro E. injection E as <-. f_equal. rewrite Z.sgn_opp. ring.
Qed.

(** The shortest decimal of a double is read back as that double. *)
Lemma shortestDecimal_rounds (x : Z) :
  JS.ofZ x = JS.Finite x -> JS.ofZ (JS.shortestDecimal x) = JS.Finite x.
Proof.
  intro Hx. unfold JS.shortestDecimal.
  destruct (find (JS.roundsTo x) (flat_map (JS.candidatesAt x) JS.powersOfTen))
    as [c|] eqn:F; [| exact Hx].
  apply find_some in F. destruct F as [_ Hc]. unfold JS.roundsTo in Hc.
  destruct (JS.ofZ c) as [y| | |]; try discriminate Hc.
  apply Z.eqb_eq in Hc. rewrite Hc. reflexivity.
Qed.

(** The text of a non-zero double below [10^21] in magnitude: a sign and
    the digits of a decimal that is read back as that double. *)
Lemma numberToString_leading (z : Z) :
  JS.ofZ z = JS.Finite z -> Z.abs z < 10 ^ 21 ->
  exists n,
    LeadingInt (JS.numberToString (JS.Finite z)) n /\ JS.ofZ n = JS.Finite z
    /\ noWhiteSpace (JS.numberToString (JS.Finite z)) = true
    /\ containsChar "/" (JS.numberToString (JS.Finite z)) = false.
Proof.
  intros Hz Hsmall. cbn [JS.numberToString].
  destruct (Z.eqb_spec z 0) as [-> | Hne].
  { exists 0. split; [| split; [reflexivity | split; reflexivity]].
    exists "", "0", "", 1. repeat split; [left; split; reflexivity | discriminate]. }
  assert (Habs : JS.ofZ (Z.abs z) = JS.Finite (Z.abs z)).
  { destruct (Z.abs_spec z) as [[_ ->] | [_ ->]]; [exact Hz |].
    rewrite (ofZ_opp_finite z z Hz). reflexivity. }
  pose proof (shortestDecimal_rounds (Z.abs z) Habs) as Hc.
  set (c := JS.shortestDecimal (Z.abs z)) in *.
  destruct (ofZ_finite_positive c (Z.abs z) Hc ltac:(lia)) as [Hcpos Hround].
  assert (Hclt : c < 10 ^ 21).
  { destruct (Z.lt_ge_cases c (10 ^ 21)) as [H | H]; [exact H |].
    pose proof (roundMagnitude_large_stays c H). lia. }
  destruct (Z.ltb_spec c (10 ^ 21)) as [_ | H]; [| lia].
  destruct (toString_positive c Hcpos) as (Hd & Hnonempty & Hval).
  destruct (allDigits_clean _ Hd) as [Hs Hn].
  destruct (Z.ltb_spec z 0) as [Hneg | Hpos].
  - exists (- c). split; [| split; [| split]].
    + exists "-", (JS.toString c), "", (-1).
      split; [right; right; split; reflexivity |].
      split; [now rewrite append_empty_r |].
      split; [exact Hnonempty |]. split; [exact Hd |]. split; [reflexivity |].
      rewrite Hval. lia.
    + rewrite (ofZ_opp_finite c (Z.abs z) Hc). f_equal. lia.
    + change ("-" ++ JS.toString c) with (String "-" (JS.toString c)).
      cbn [noWhiteSpace]. rewrite Hs.
      rewrite (ascii_not_space "-" (JS.toString c)); [reflexivity | | reflexivity].
      vm_compute. reflexivity.
    + change ("-" ++ JS.toString c) with (String "-" (JS.toString c)).
      cbn [containsChar]. rewrite Hn. reflexivity.
  - exists c. split; [| split; [| split]].
    + exists "", (JS.toString c), "", 1.
      split; [left; split; reflexivity |].
      split; [simpl; now rewrite append_empty_r |].
      split; [exact Hnonempty |]. split; [exact Hd |]. split; [reflexivity |].
      rewrite Hval. lia.
    + rewrite Hc. f_equal. lia.
    + exact Hs.
    + exact Hn.
Qed.

(** X14. A score as the bot displays it, [runs/wickets], is read back by
    [parseScore] as the same score whenever both numbers are below 10^21
    in magnitude, negative ones included, although from 2^53 on the text
    shows the shortest decimal of the number and not its exact value.
    From 10^21 on the text is in exponent form and is read back as
    another score: 10^21 is shown as 1e+21, which is read as 1. *)
Theorem displayed_score_parses_back :
  (forall r w : Z,
      JS.ofZ r = JS.Finite r -> JS.ofZ w = JS.Finite w ->
      Z.abs r < 10 ^ 21 -> Z.abs w < 10 ^ 21 ->
      parseScore (scoreText (JS.Finite r) (JS.Finite w))
      = Some (mkScore (JS.Finite r) (JS.Finite w)))
  /\ scoreText (JS.Finite 1152921504606846976) (JS.Finite 4) = "1152921504606847000/4"
  /\ scoreText (JS.Finite (10 ^ 21)) (JS.Finite 0) = "1e+21/0"
  /\ parseScore "1e+21/0" = Some (mkScore (JS.Finite 1) (JS.Finite 0)).
Proof.
  split; [| split; [| split]; vm_compute; reflexivity].
  intros r w Hr Hw Hrs Hws.
  destruct (numberToString_leading r Hr Hrs) as (nr & Hlr & Hvr & Hsr & Hnr).
  destruct (numberToString_leading w Hw Hws) as (nw & Hlw & Hvw & Hsw & Hnw).
  apply parseScore_iff.
  exists (JS.numberToString (JS.Finite r)), (JS.numberToString (JS.Finite w)), nr, nw.
  split; [reflexivity |]. split; [exact Hnr |]. split; [exact Hnw |].
  rewrite (trim_clean _ Hsr), (trim_clean _ Hsw).
  split; [exact Hlr |]. split; [exact Hlw |]. rewrite Hvr, Hvw. reflexivity.
Qed.

Lemma displayed_score_parses_back_witness :
  parseScore (scoreText (JS.Finite 1152921504606846976) (JS.Finite (-4)))
  = Some (mkScore (JS.Finite 1152921504606846976) (JS.Finite (-4))).
Proof.
  apply (proj1 displayed_score_parses_back 1152921504606846976 (-4));
    vm_compute; reflexivity.
Defined.

Lemma ids_come_from_the_clock (v : Variant) (ADMIN_IDS : list string) (st : State)
      (i : Interaction) (k : string) :
  In k (map id (matches (db (snd (interactionCreate v ADMIN_IDS st i))))) ->
  In k (map id (matches (db st))) \/ k = JS.toString (dateNow i).
Proof.
  unfold interactionCreate.
  destruct (command i); destruct v; simpl; handler_cases; auto;
    try (rewrite updateMatch_ids; auto; fail);
    try (match goal with
         | H : insertMatch _ _ _ _ _ _ _ = Some _ |- _ =>
             apply insertMatch_some in H; destruct H as [_ ->]; simpl;
             rewrite map_app; intro Hin; apply in_app_or in Hin;
             destruct Hin as [Hin | [<- | []]]; auto
         end);
    try (intro Hin; left; apply in_map_iff in Hin; destruct Hin as (m & <- & Hin);
         apply filter_In in Hin; apply in_map, Hin);
    try (intro Hin; left; rewrite map_map in Hin; apply in_map_iff in Hin;
         destruct Hin as (m & <- & Hin);
         destruct (String.eqb (id m) _); simpl; apply in_map, Hin).
Qed.

Lemma ids_come_from_the_clocks (v : Variant) (ADMIN_IDS : list string)
      (trace : list Interaction) (st : State) (k : string) :
  In k (map id (matches (db (run v ADMIN_IDS st trace)))) ->
  In k (map id (matches (db st)))
  \/ exists j, In j trace /\ k = JS.toString (dateNow j).
Proof.
  revert st. induction trace as [|i rest IH]; intros st H; [left; exact H |].
  simpl in H. apply IH in H. destruct H as [H | (j & Hj & Hk)].
  - apply ids_come_from_the_clock in H. destruct H as [H | H]; [left; exact H |].
    right. exists i. split; [left; reflexivity | exact H].
  - right. exists j. split; [right; exact Hj | exact Hk].
Qed.

Lemma setup_with_unused_id (v : Variant) (ADMIN_IDS : list string) (st : State)
      (i : Interaction) (team tossInfo place date : string) :
  command i = Setup team tossInfo place date ->
  isAdminOf ADMIN_IDS (callerId i) = true ->
  currentMatch st = None ->
  ~ In (JS.toString (dateNow i)) (map id (matches (db st))) ->
  fst (interactionCreate v ADMIN_IDS st i) = SetupComplete (JS.toString (dateNow i))
  /\ currentMatch (snd (interactionCreate v ADMIN_IDS st i))
     = Some (JS.toString (dateNow i)).
Proof.
  intros Hcmd Hadmin Hcur Hfresh. unfold interactionCreate.
  rewrite Hcmd, Hadmin, Hcur. simpl.
  destruct (insertMatch (db st) (JS.toString (dateNow i)) team tossInfo place date true)
    as [d|] eqn:E; [destruct v; split; reflexivity |].
  exfalso. unfold insertMatch in E.
  destruct (existsb (fun m => String.eqb (id m) (JS.toString (dateNow i)))
                    (matches (db st))) eqn:Ex; [| discriminate E].
  apply existsb_exists in Ex. destruct Ex as (m & Hin & Hm).
  apply String.eqb_eq in Hm. apply Hfresh. rewrite <- Hm. apply in_map, Hin.
Qed.

(** X15. Match ids never clash while the clock does not repeat: after any
    sequence of commands from the initial state, when there is no current
    match, a setup by an administrator at a clock value that no earlier
    command had succeeds, and its id is that clock value in decimal. *)
Theorem setup_succeeds_at_a_new_clock_value :
  forall (v : Variant) (ADMIN_IDS : list string) (trace : list Interaction)
         (i : Interaction) (team tossInfo place date : string),
    command i = Setup team tossInfo place date ->
    isAdminOf ADMIN_IDS (callerId i) = true ->
    currentMatch (run v ADMIN_IDS initialState trace) = None ->
    (forall j, In j trace -> dateNow j <> dateNow i) ->
    fst (interactionCreate v ADMIN_IDS (run v ADMIN_IDS initialState trace) i)
    = SetupComplete (JS.toString (dateNow i))
    /\ currentMatch (snd (interactionCreate v ADMIN_IDS
                            (run v ADMIN_IDS initialState trace) i))
       = Some (JS.toString (dateNow i)).
Proof.
  intros v ADMIN_IDS trace i team tossInfo place date Hcmd Hadmin Hcur Hclock.
  assert (Hfresh : ~ In (JS.toString (dateNow i))
                        (map id (matches (db (run v ADMIN_IDS initialState trace))))).
  { intro Hin. apply ids_come_from_the_clocks in Hin.
    destruct Hin as [[] | (j & Hj & Hk)].
    apply toString_injective in Hk. exact (Hclock j Hj (eq_sym Hk)). }
  exact (setup_with_unused_id v ADMIN_IDS _ i team tossInfo place date
           Hcmd Hadmin Hcur Hfresh).
Qed.

Lemma setup_succeeds_at_a_new_clock_value_witness :
  let again := mkInteraction "100" "admin"
                 (Setup "TPF" "Bowling first" "Mumbai" "2025-04-08")
                 1744100000000 noRandom in
  let played := [sampleSetup; samplePredictA; samplePredictB; sampleEnd] in
  fst (interactionCreate Advanced sampleAdmins
         (run Advanced sampleAdmins initialState played) again)
  = SetupComplete "1744100000000".
Proof.
  intros again played.
  refine (proj1 (setup_succeeds_at_a_new_clock_value Advanced sampleAdmins played again
                   "TPF" "Bowling first" "Mumbai" "2025-04-08"
                   eq_refl eq_refl eq_refl _)).
  intros j [<- | [<- | [<- | [<- | []]]]]; discriminate.
Defined.

(* ===================================================================== *)
(** ** Shape of the reachable states *)
(* ===================================================================== *)

Lemma initialState_shaped : Shaped initialState.
Proof. constructor; simpl; contradiction. Qed.

Lemma shaped_update (st : State) (mid : string) (p : MatchPatch) (next : option string) :
  Shaped st -> currentMatch st = Some mid -> patchId p = mid ->
  patchIsOpen p <> Some true ->
  (patchActualRuns p = None <-> patchActualWickets p = None) ->
  (patchActualRuns p <> None -> patchIsOpen p = Some false /\ next = None) ->
  next = Some mid \/ next = None ->
  Shaped (mkState next (updateMatch (db st) p)).
Proof.
  intros [Hbit Htog Hover] Hcur Hid Hflag Hboth Hscore Hnext.
  constructor; intros m' Hin; apply updateMatch_in in Hin;
    destruct Hin as (m & Hin & ->); rewrite Hid;
    destruct (String.eqb_spec (id m) mid) as [E | E]; simpl.
  - destruct (patchIsOpen p) as [[|]|]; simpl; [congruence | left; reflexivity |].
    apply Hbit, Hin.
  - apply Hbit, Hin.
  - destruct (patchActualRuns p) as [r|], (patchActualWickets p) as [w|]; simpl.
    + split; discriminate.
    + destruct Hboth as [_ H]. discriminate (H eq_refl).
    + destruct Hboth as [H _]. discriminate (H eq_refl).
    + apply Htog, Hin.
  - apply Htog, Hin.
  - destruct (patchActualRuns p) as [r|] eqn:Er; simpl.
    + intros _. destruct Hscore as [Hclose ->]; [discriminate |].
      rewrite Hclose. simpl. split; [reflexivity | discriminate].
    + intro Hs. exfalso. destruct (Hover m Hin Hs) as [_ Hnot].
      apply Hnot. rewrite Hcur, E. reflexivity.
  - intro Hs. destruct (Hover m Hin Hs) as [Hz _]. split; [exact Hz |].
    destruct Hnext as [-> | ->]; [| discriminate]. congruence.
Qed.

Lemma interactionCreate_shaped (v : Variant) (ADMIN_IDS : list string)
      (st : State) (i : Interaction) :
  Shaped st -> Shaped (snd (interactionCreate v ADMIN_IDS st i)).
Proof.
  intro H. unfold interactionCreate.
  destruct (command i) as [team tossInfo place date | score note | score note | | |
                           score | | mid | | | team tossInfo place date | | |].
  - (* setup *)
    destruct (negb (isAdminOf ADMIN_IDS (callerId i))); [destruct v; exact H |].
    destruct (currentMatch st) eqn:Hcur; [destruct v; exact H |].
    destruct (insertMatch (db st) (JS.toString (dateNow i)) team tossInfo place date true)
      as [d|] eqn:Hins; [| destruct v; exact H].
    apply insertMatch_some in Hins. destruct Hins as [Hfresh ->].
    destruct H as [Hbit Htog Hover].
    assert (Shaped (mkState (Some (JS.toString (dateNow i)))
                      (mkDatabase
                         (matches (db st)
                            ++ [mkMatchRow (JS.toString (dateNow i)) team tossInfo place
                                           date 1 None None])
                         (predictions (db st))))) as Hnew.
    { constructor; simpl; intros m Hin; apply in_app_or in Hin;
        destruct Hin as [Hin | [<- | []]]; simpl; auto; try tauto.
      intro Hs. destruct (Hover m Hin Hs) as [Hz _]. split; [exact Hz |].
      intro E. injection E as E. apply Hfresh. rewrite E. apply in_map, Hin. }
    destruct v; exact Hnew.
  - (* predict *)
    destruct (currentMatch st) as [mid|] eqn:Hcur; [| destruct v; exact H].
    destruct (parseScore score) as [sc|]; [| destruct v; exact H].
    destruct H as [Hbit Htog Hover].
    destruct v; simpl; (constructor; simpl; [exact Hbit | exact Htog |];
      intros m Hin Hs; rewrite <- Hcur; exact (Hover m Hin Hs)).
  - (* edit *)
    destruct (currentMatch st) as [mid|] eqn:Hcur; [| destruct v; exact H].
    destruct (parseScore score) as [sc|]; [| destruct v; exact H].
    destruct H as [Hbit Htog Hover].
    destruct v; simpl; (constructor; simpl; [exact Hbit | exact Htog |];
      intros m Hin Hs; rewrite <- Hcur; exact (Hover m Hin Hs)).
  - (* close *)
    destruct (negb (isAdminOf ADMIN_IDS (callerId i))); [destruct v; exact H |].
    destruct (currentMatch st) as [mid|] eqn:Hcur; [| destruct v; exact H].
    destruct v; simpl; apply (shaped_update st mid); simpl; auto;
      try discriminate; try tauto; intro Hs; contradiction.
  - (* list *)
    destruct (currentMatch st); destruct v; exact H.
  - (* end *)
    destruct (negb (isAdminOf ADMIN_IDS (callerId i))); [destruct v; exact H |].
    destruct (currentMatch st) as [mid|] eqn:Hcur; [| destruct v; exact H].
    destruct (parseScore score) as [sc|]; [| destruct v; exact H].
    destruct v; simpl; apply (shaped_update st mid); simpl; auto;
      try discriminate; try (split; discriminate).
  - (* past *)
    destruct (getPastMatches (db st)); destruct v; exact H.
  - (* details *)
    destruct (getMatchDetails (db st) mid) as [[m l]|]; destruct v; exact H.
  - (* mystats *)
    destruct v; [exact H |]. destruct (getUserStats (db st) (callerId i)); exact H.
  - (* leaderboard *)
    destruct v; [exact H |]. destruct (getAllUserStats (db st)); exact H.
  - (* editmatch *)
    destruct v; [exact H |].
    destruct (negb (isAdminOf ADMIN_IDS (callerId i))); [exact H |].
    destruct (currentMatch st) as [mid|] eqn:Hcur; [| exact H].
    simpl. apply (shaped_update st mid); simpl; auto;
      try discriminate; try tauto; intro Hs; contradiction.
  - (* export *)
    destruct v; [exact H |].
    destruct (negb (isAdminOf ADMIN_IDS (callerId i))); exact H.
  - (* cancelmatch *)
    destruct v; [exact H |].
    destruct (negb (isAdminOf ADMIN_IDS (callerId i))); [exact H |].
    destruct (currentMatch st) as [mid|] eqn:Hcur; [| exact H].
    destruct H as [Hbit Htog Hover].
    simpl. constructor; simpl; intros m Hin; apply filter_In in Hin;
      destruct Hin as [Hin _]; auto.
    intro Hs. destruct (Hover m Hin Hs) as [Hz _]. split; [exact Hz | discriminate].
  - (* help *)
    destruct v; exact H.
Qed.

Lemma run_shaped (v : Variant) (ADMIN_IDS : list string)
      (trace : list Interaction) (st : State) :
  Shaped st -> Shaped (run v ADMIN_IDS st trace).
Proof.
  revert st. induction trace as [|i rest IH]; intros st H; [exact H |].
  simpl. apply IH, interactionCreate_shaped, H.
Qed.

(** X16. Referential integrity holds in every state reached from the
    initial state: every prediction belongs to a stored match, the pointer
    to the current match names a stored match, and no two matches share an
    id. *)
Theorem reachable_states_keep_references :
  forall (v : Variant) (ADMIN_IDS : list string) (trace : list Interaction),
    let st := run v ADMIN_IDS initialState trace in
    NoDup (map id (matches (db st)))
    /\ (forall p, In p (predictions (db st)) -> In (matchId p) (map id (matches (db st))))
    /\ (forall mid, currentMatch st = Some mid -> In mid (map id (matches (db st)))).
Proof.
  intros v ADMIN_IDS trace st.
  destruct (run_consistent v ADMIN_IDS trace initialState initialState_consistent)
    as [Hids _ _ Hcur Hfk].
  split; [exact Hids |]. split; [exact Hfk | exact Hcur].
Qed.

Lemma reachable_states_keep_references_witness :
  In "1743500000000" (map id (matches (db (sampleState Advanced)))).
Proof.
  exact (proj2 (proj2 (reachable_states_keep_references Advanced sampleAdmins
                         [sampleSetup; samplePredictA; samplePredictB]))
               "1743500000000" eq_refl).
Defined.

(** X17. In every state reached from the initial state, the open flag of
    a match is 0 or 1, its two actual-score columns are set together or not
    at all, and a match with an actual score is closed and is not the
    current match. *)
Theorem reachable_rows_are_well_shaped :
  forall (v : Variant) (ADMIN_IDS : list string) (trace : list Interaction) (m : MatchRow),
    let st := run v ADMIN_IDS initialState trace in
    In m (matches (db st)) ->
    (isOpen m = 0 \/ isOpen m = 1)
    /\ (actualRuns m = None <-> actualWickets m = None)
    /\ (actualRuns m <> None -> isOpen m = 0 /\ currentMatch st <> Some (id m)).
Proof.
  intros v ADMIN_IDS trace m st Hin.
  destruct (run_shaped v ADMIN_IDS trace initialState initialState_shaped)
    as [Hbit Htog Hover].
  split; [exact (Hbit m Hin) |]. split; [exact (Htog m Hin) | exact (Hover m Hin)].
Qed.

Lemma reachable_rows_are_well_shaped_witness :
  let m := mkMatchRow "1743500000000" "TPF" "Batting first" "Pune" "2025-04-01"
                      0 (Some (JS.Finite 178)) (Some (JS.Finite 5)) in
  (isOpen m = 0 \/ isOpen m = 1)
  /\ (actualRuns m = None <-> actualWickets m = None)
  /\ (actualRuns m <> None -> isOpen m = 0 /\ currentMatch statsState <> Some (id m)).
Proof.
  intro m.
  apply (reachable_rows_are_well_shaped Advanced sampleAdmins
           [ sampleSetup;
             mkInteraction "301" "alice" (Predict "182/5" None) 1743500001000 noRandom;
             mkInteraction "302" "bob" (Predict "176/5" None) 1743500002000 noRandom;
             sampleEnd ] m).
  left. reflexivity.
Defined.

(* ===================================================================== *)
(** ** From a match to the statistics *)
(* ===================================================================== *)

(** X18. A prediction counts in the statistics only once its match has
    been ended: in every state reached from the initial state, no row that
    [getUserStats] returns, for any user, belongs to the current match. *)
Theorem current_match_is_not_counted :
  forall (v : Variant) (ADMIN_IDS : list string) (trace : list Interaction)
         (uid : string) (r : PredictionWithMatch),
    let st := run v ADMIN_IDS initialState trace in
    In r (getUserStats (db st) uid) ->
    currentMatch st <> Some (matchId (prediction r)).
Proof.
  intros v ADMIN_IDS trace uid r st Hr.
  apply getUserStats_in in Hr. destruct Hr as (_ & _ & m & Hin & Hid & _ & Hruns & _).
  destruct (run_shaped v ADMIN_IDS trace initialState initialState_shaped)
    as [_ _ Hover].
  rewrite <- Hid. apply (Hover m Hin). rewrite Hruns. discriminate.
Qed.

Lemma current_match_is_not_counted_witness :
  currentMatch statsState <> Some "1743500000000".
Proof.
  apply (current_match_is_not_counted Advanced sampleAdmins
           [ sampleSetup;
             mkInteraction "301" "alice" (Predict "182/5" None) 1743500001000 noRandom;
             mkInteraction "302" "bob" (Predict "176/5" None) 1743500002000 noRandom;
             sampleEnd ]
           "301"
           (mkPredictionWithMatch
              (mkPredictionRow "1743500000000" "301" "alice"
                               (JS.Finite 182) (JS.Finite 5) (Some ""))
              (JS.Finite 178) (JS.Finite 5))).
  left. reflexivity.
Defined.

Lemma find_id_map (f : MatchRow -> MatchRow) (l : list MatchRow) (mid : string) :
  (forall m, id (f m) = id m) ->
  find (fun m => String.eqb (id m) mid) (map f l)
  = option_map f (find (fun m => String.eqb (id m) mid) l).
Proof.
  intro Hf. induction l as [|m l IH]; simpl; [reflexivity |].
  rewrite Hf. destruct (String.eqb (id m) mid); [reflexivity | exact IH].
Qed.

Lemma find_id_some (l : list MatchRow) (mid : string) :
  In mid (map id l) ->
  exists m, find (fun m => String.eqb (id m) mid) l = Some m /\ In m l /\ id m = mid.
Proof.
  intro H. destruct (find (fun m => String.eqb (id m) mid) l) as [m|] eqn:F.
  - exists m. apply find_some in F. destruct F as [Hin Hid].
    apply String.eqb_eq in Hid. auto.
  - apply find_id_none in F. contradiction.
Qed.

(** X19. Ending a match makes its predictions count: when an administrator
    ends the current match of a consistent state with a well-formed score,
    the details of the match then show it closed, with that actual score,
    its descriptive fields and its predictions as they were, and every
    prediction of the match is returned by [getUserStats] for its user,
    joined with that score. *)
Theorem end_publishes_the_result :
  forall (v : Variant) (ADMIN_IDS : list string) (st : State) (i : Interaction)
         (scoreStr mid : string) (actualScore : Score),
    Consistent st ->
    command i = End scoreStr ->
    isAdminOf ADMIN_IDS (callerId i) = true ->
    currentMatch st = Some mid ->
    parseScore scoreStr = Some actualScore ->
    let st' := snd (interactionCreate v ADMIN_IDS st i) in
    (exists before after,
        getMatchDetails (db st) mid = Some (before, getPredictionsForMatch (db st) mid)
        /\ getMatchDetails (db st') mid = Some (after, getPredictionsForMatch (db st) mid)
        /\ closedRow mid (Some actualScore) before after)
    /\ (forall p, In p (getPredictionsForMatch (db st) mid) ->
          In (mkPredictionWithMatch p (runs actualScore) (wickets actualScore))
             (getUserStats (db st') (userId p))).
Proof.
  intros v ADMIN_IDS st i scoreStr mid actualScore Hcons Hcmd Hadmin Hcur Hparse st'.
  assert (Hst' : st' = mkState None (updateMatch (db st) (endPatch mid actualScore))).
  { unfold st', interactionCreate. rewrite Hcmd, Hadmin, Hcur, Hparse.
    destruct v; reflexivity. }
  destruct (find_id_some (matches (db st)) mid (currentExists st Hcons mid Hcur))
    as (m & Hfind & Hin & Hid).
  assert (Hrow : closedRow mid (Some actualScore) m (applyPatch (endPatch mid actualScore) m)).
  { unfold closedRow. simpl. do 5 (split; [reflexivity |]).
    split; [intro Hne; contradiction | intros _; repeat split]. }
  rewrite Hst'. simpl db. split.
  - exists m, (applyPatch (endPatch mid actualScore) m).
    split; [unfold getMatchDetails; rewrite Hfind; reflexivity |].
    split; [| exact Hrow].
    unfold getMatchDetails, updateMatch. simpl matches.
    rewrite find_id_map.
    + rewrite Hfind. simpl. rewrite <- Hid at 1. rewrite String.eqb_refl. reflexivity.
    + intro x. destruct (String.eqb (id x) mid); reflexivity.
  - intros p Hp. apply getPredictionsForMatch_in in Hp. destruct Hp as [Hp Hmid].
    apply getUserStats_in. simpl.
    split; [exact Hp |]. split; [reflexivity |].
    exists (applyPatch (endPatch mid actualScore) m).
    split; [| simpl; repeat split; congruence].
    unfold updateMatch. simpl matches. apply in_map_iff. exists m.
    split; [| exact Hin]. simpl. rewrite Hid, String.eqb_refl. reflexivity.
Qed.

Lemma end_publishes_the_result_witness :
  In (mkPredictionWithMatch
        (mkPredictionRow "1743500000000" "202" "userB"
                         (JS.Finite 175) (JS.Finite 6) (Some "gut feeling"))
        (JS.Finite 178) (JS.Finite 5))
     (getUserStats
        (db (snd (interactionCreate Advanced sampleAdmins (sampleState Advanced) sampleEnd)))
        "202").
Proof.
  assert (Hcons : Consistent (sampleState Advanced)).
  { apply (run_consistent Advanced sampleAdmins
             [sampleSetup; samplePredictA; samplePredictB] initialState).
    apply initialState_consistent. }
  apply (proj2 (end_publishes_the_result Advanced sampleAdmins (sampleState Advanced)
                  sampleEnd "178/5" "1743500000000"
                  (mkScore (JS.Finite 178) (JS.Finite 5))
                  Hcons eq_refl eq_refl eq_refl eq_refl)
               (mkPredictionRow "1743500000000" "202" "userB"
                                (JS.Finite 175) (JS.Finite 6) (Some "gut feeling"))).
  right. left. reflexivity.
Defined.

Lemma one_row_per_user (l : list PredictionRow) (mid : string) :
  NoDup (map predictionKey l) ->
  NoDup (map userId (filter (fun p => String.eqb (matchId p) mid) l)).
Proof.
  induction l as [|p l IH]; simpl; intro Hnd; [constructor |].
  inversion Hnd as [|? ? Hnotin Hrest]; subst.
  destruct (String.eqb_spec (matchId p) mid) as [E | E]; simpl; [| apply IH, Hrest].
  constructor; [| apply IH, Hrest].
  intro Hin. apply in_map_iff in Hin. destruct Hin as (q & Hu & Hq).
  apply filter_In in Hq. destruct Hq as [Hq Hm]. apply String.eqb_eq in Hm.
  apply Hnotin. apply in_map_iff. exists q. split; [| exact Hq].
  unfold predictionKey. congruence.
Qed.

(** X20. The list of the current match never shows a user twice: in every
    state reached from the initial state that has a current match, the
    list command answers with predictions that all belong to that match
    and carry pairwise different user ids. *)
Theorem list_shows_one_prediction_per_user :
  forall (v : Variant) (ADMIN_IDS : list string) (trace : list Interaction)
         (i : Interaction) (mid : string),
    let st := run v ADMIN_IDS initialState trace in
    command i = ListPredictions ->
    currentMatch st = Some mid ->
    exists l,
      fst (interactionCreate v ADMIN_IDS st i) = CurrentPredictions l
      /\ NoDup (map userId l)
      /\ forall p, In p l -> matchId p = mid.
Proof.
  intros v ADMIN_IDS trace i mid st Hcmd Hcur.
  exists (getPredictionsForMatch (db st) mid). split; [| split].
  - unfold interactionCreate. rewrite Hcmd, Hcur. destruct v; reflexivity.
  - eapply Permutation_NoDup;
      [apply Permutation_map, getPredictionsForMatch_perm |].
    apply one_row_per_user.
    apply uniqueKeys, run_consistent, initialState_consistent.
  - intros p Hp. apply getPredictionsForMatch_in in Hp. tauto.
Qed.

Lemma list_shows_one_prediction_per_user_witness :
  exists l,
    fst (interactionCreate Advanced sampleAdmins
           (run Advanced sampleAdmins initialState
                [sampleSetup; samplePredictA; samplePredictB; sampleEditA])
           (mkInteraction "202" "userB" ListPredictions 1743500003500 noRandom))
    = CurrentPredictions l
    /\ NoDup (map userId l)
    /\ forall p, In p l -> matchId p = "1743500000000".
Proof.
  exact (list_shows_one_prediction_per_user Advanced sampleAdmins
           [sampleSetup; samplePredictA; samplePredictB; sampleEditA]
           (mkInteraction "202" "userB" ListPredictions 1743500003500 noRandom)
           "1743500000000" eq_refl eq_refl).
Defined.

(** X21. A closed poll is already a past match: after an administrator
    closes the current match of a consistent state, [getPastMatches] holds
    a row of that match, although it is still the current match and has no
    actual score recorded by the close. *)
Theorem closed_match_is_listed_as_past :
  forall (v : Variant) (ADMIN_IDS : list string) (st : State) (i : Interaction)
         (mid : string),
    Consistent st ->
    command i = Close ->
    isAdminOf ADMIN_IDS (callerId i) = true ->
    currentMatch st = Some mid ->
    let st' := snd (interactionCreate v ADMIN_IDS st i) in
    currentMatch st' = Some mid
    /\ exists before after,
         In before (matches (db st)) /\ id before = mid
         /\ In after (getPastMatches (db st'))
         /\ closedRow mid None before after.
Proof.
  intros v ADMIN_IDS st i mid Hcons Hcmd Hadmin Hcur st'.
  assert (Hst' : st' = mkState (Some mid) (updateMatch (db st) (closePatch mid))).
  { unfold st', interactionCreate. rewrite Hcmd, Hadmin, Hcur. destruct v; reflexivity. }
  rewrite Hst'. split; [reflexivity |].
  destruct (find_id_some (matches (db st)) mid (currentExists st Hcons mid Hcur))
    as (m & _ & Hin & Hid).
  exists m, (applyPatch (closePatch mid) m).
  split; [exact Hin |]. split; [exact Hid |]. split.
  - apply getPastMatches_in. split; [| reflexivity].
    simpl db. unfold updateMatch. simpl matches. apply in_map_iff. exists m.
    split; [| exact Hin]. simpl. rewrite Hid, String.eqb_refl. reflexivity.
  - unfold closedRow. simpl. do 5 (split; [reflexivity |]).
    split; [intro Hne; contradiction | intros _; repeat split].
Qed.

Lemma closed_match_is_listed_as_past_witness :
  let st' := snd (interactionCreate Advanced sampleAdmins (sampleState Advanced) sampleClose) in
  currentMatch st' = Some "1743500000000"
  /\ exists before after,
       In before (matches (db (sampleState Advanced))) /\ id before = "1743500000000"
       /\ In after (getPastMatches (db st'))
       /\ closedRow "1743500000000" None before after.
Proof.
  assert (Hcons : Consistent (sampleState Advanced)).
  { apply (run_consistent Advanced sampleAdmins
             [sampleSetup; samplePredictA; samplePredictB] initialState).
    apply initialState_consistent. }
  exact (closed_match_is_listed_as_past Advanced sampleAdmins (sampleState Advanced)
           sampleClose "1743500000000" Hcons eq_refl eq_refl eq_refl).
Defined.

(* ===================================================================== *)
(** ** Ordering of the leaderboard *)
(* ===================================================================== *)

Lemma insertByAvgError_perm (e : string * Q) (l : list (string * Q)) :
  Permutation (e :: l) (insertByAvgError e l).
Proof.
  induction l as [|x rest IH]; simpl; [apply Permutation_refl |].
  destruct (Qlt_le_dec (snd x) (snd e)); [| apply Permutation_refl].
  eapply perm_trans; [apply perm_swap | apply perm_skip, IH].
Qed.

Lemma insertByAvgError_sorted (e : string * Q) (l : list (string * Q)) :
  Sorted avgErrorLe l -> Sorted avgErrorLe (insertByAvgError e l).
Proof.
  induction l as [|x rest IH]; simpl; intro Hs.
  - repeat constructor.
  - destruct (Qlt_le_dec (snd x) (snd e)) as [Hlt | Hle].
    + inversion Hs as [|? ? Hrest Hhd]; subst.
      constructor; [apply IH, Hrest |].
      destruct rest as [|y rest']; simpl.
      * constructor. apply Qlt_le_weak, Hlt.
      * destruct (Qlt_le_dec (snd y) (snd e));
          constructor; [inversion Hhd; assumption | apply Qlt_le_weak, Hlt].
    + constructor; [exact Hs |]. constructor. exact Hle.
Qed.

Lemma sortByAvgError_perm (l : list (string * Q)) : Permutation l (sortByAvgError l).
Proof.
  unfold sortByAvgError. induction l as [|e l IH]; simpl; [constructor |].
  eapply perm_trans; [apply perm_skip, IH | apply insertByAvgError_perm].
Qed.

Lemma placeholderEntries_names (userStats : list UserStats) (random : nat -> Q) (k : nat) :
  map fst (placeholderEntries userStats random k) = map statsUsername userStats.
Proof.
  revert k. induction userStats as [|u rest IH]; intro k; simpl; [reflexivity |].
  now rewrite IH.
Qed.

(** X22. The leaderboard lists every user entry once and in ascending order
    of the figure it shows: the names listed are a rearrangement of the
    usernames of the entries, and no entry shows a larger figure than an
    entry listed after it. *)
Theorem leaderboard_is_sorted_ascending :
  forall (userStats : list UserStats) (random : nat -> Q),
    Permutation (map statsUsername userStats) (map fst (leaderboard userStats random))
    /\ List.length (leaderboard userStats random) = List.length userStats
    /\ StronglySorted avgErrorLe (leaderboard userStats random).
Proof.
  intros userStats random. unfold leaderboard.
  pose proof (sortByAvgError_perm (placeholderEntries userStats random 0)) as Hperm.
  split; [| split].
  - rewrite <- (placeholderEntries_names userStats random 0).
    apply Permutation_map, Hperm.
  - rewrite <- (Permutation_length Hperm).
    rewrite <- (length_map fst), placeholderEntries_names. apply length_map.
  - apply Sorted_StronglySorted.
    + intros a b c H1 H2. unfold avgErrorLe in *. exact (Qle_trans _ _ _ H1 H2).
    + unfold sortByAvgError. clear Hperm.
      induction (placeholderEntries userStats random 0) as [|e l IH]; simpl;
        [constructor |].
      apply insertByAvgError_sorted, IH.
Qed.

(* ===================================================================== *)
(** ** The distance as a metric *)
(* ===================================================================== *)

Lemma abs_sub_sym (x y : JS.number) : JS.abs (JS.sub x y) = JS.abs (JS.sub y x).
Proof.
  destruct x as [a| | |], y as [b| | |]; cbn [JS.sub JS.abs]; try reflexivity.
  replace (b - a) with (- (a - b)) by lia. symmetry. apply ofZ_opp_abs.
Qed.

Lemma abs_ofZ_zero_iff (z : Z) : JS.abs (JS.ofZ z) = JS.Finite 0 <-> z = 0.
Proof.
  split; [| intros ->; reflexivity].
  destruct (JS.ofZ z) as [w| | |] eqn:E; cbn [JS.abs]; try discriminate.
  intro H. injection H as H. apply ofZ_zero_iff. rewrite E. f_equal. lia.
Qed.

Lemma abs_sub_zero_iff (x y : JS.number) :
  JS.abs (JS.sub x y) = JS.Finite 0 <-> isFinite x = true /\ x = y.
Proof.
  destruct x as [a| | |], y as [b| | |]; cbn [JS.sub JS.abs isFinite];
    try (split; [discriminate | intros [H1 H2]; (discriminate H1 || discriminate H2)]).
  rewrite abs_ofZ_zero_iff. split.
  - intro H. split; [reflexivity | f_equal; lia].
  - intros [_ E]. injection E as ->. lia.
Qed.

Lemma scoreDifference_sym (v : Variant) (a b : Score) :
  scoreDifference v a b = scoreDifference v b a.
Proof.
  unfold scoreDifference.
  rewrite (abs_sub_sym (runs a) (runs b)), (abs_sub_sym (wickets a) (wickets b)).
  reflexivity.
Qed.

Lemma scoreDifference_zero_iff (a b : Score) :
  (scoreDifference Advanced a b = JS.Finite 0 <-> finiteScore a = true /\ a = b)
  /\ (scoreDifference Baseline a b = JS.Finite 0
      <-> isFinite (runs a) = true /\ runs a = runs b).
Proof.
  split; [| apply abs_sub_zero_iff].
  destruct a as [ar aw], b as [br bw]. unfold scoreDifference, finiteScore.
  cbn [runs wickets].
  pose proof (abs_sub_zero_iff ar br) as Hr. pose proof (abs_sub_zero_iff aw bw) as Hw.
  assert (Hrhs : (isFinite ar && isFinite aw)%bool = true /\ mkScore ar aw = mkScore br bw
                 <-> (isFinite ar = true /\ ar = br) /\ (isFinite aw = true /\ aw = bw)).
  { rewrite andb_true_iff. split.
    - intros [[H1 H2] E]. injection E as -> ->. auto.
    - intros [[H1 ->] [H2 ->]]. auto. }
  rewrite Hrhs, <- Hr, <- Hw. clear Hrhs Hr Hw.
  destruct (abs_sub_cases ar br) as [[Er _] | Hx].
  { rewrite Er. cbn [JS.add]. split; [discriminate | intros [H _]; discriminate H]. }
  destruct (abs_sub_cases aw bw) as [[Ew _] | Hy].
  { rewrite Ew. cbn [JS.mul].
    destruct (JS.abs (JS.sub ar br)); cbn [JS.add];
      (split; [discriminate | intros [_ H]; discriminate H]). }
  rewrite (add_zero_iff _ _ Hx (five_times_cases _ Hy)), (five_times_zero_iff _ Hy).
  reflexivity.
Qed.

Lemma scoreDifference_triangle (v : Variant) (ar aw br bw cr cw : Z) :
  Z.abs ar <= 2 ^ 49 -> Z.abs aw <= 2 ^ 49 -> Z.abs br <= 2 ^ 49 ->
  Z.abs bw <= 2 ^ 49 -> Z.abs cr <= 2 ^ 49 -> Z.abs cw <= 2 ^ 49 ->
  exists x y z,
    scoreDifference v (mkScore (JS.Finite ar) (JS.Finite aw))
                    (mkScore (JS.Finite cr) (JS.Finite cw)) = JS.Finite x
    /\ scoreDifference v (mkScore (JS.Finite ar) (JS.Finite aw))
                       (mkScore (JS.Finite br) (JS.Finite bw)) = JS.Finite y
    /\ scoreDifference v (mkScore (JS.Finite br) (JS.Finite bw))
                       (mkScore (JS.Finite cr) (JS.Finite cw)) = JS.Finite z
    /\ x <= y + z.
Proof.
  intros H1 H2 H3 H4 H5 H6.
  assert (K : 2 ^ 53 = 16 * 2 ^ 49) by reflexivity.
  destruct (scoreDifference_exact ar aw cr cw ltac:(lia)) as [Bac Aac].
  destruct (scoreDifference_exact ar aw br bw ltac:(lia)) as [Bab Aab].
  destruct (scoreDifference_exact br bw cr cw ltac:(lia)) as [Bbc Abc].
  destruct v.
  - do 3 eexists. split; [exact Bac |]. split; [exact Bab |]. split; [exact Bbc |]. lia.
  - do 3 eexists. split; [exact Aac |]. split; [exact Aab |]. split; [exact Abc |]. lia.
Qed.

(** X23. [scoreDifference] is symmetric in both variants.  The advanced
    distance is zero exactly between equal finite scores, the baseline
    distance exactly between scores with the same finite runs, whatever
    the wickets.  Between scores whose runs and wickets are at most 2^49
    in magnitude the three distances are numbers that satisfy the triangle
    inequality.  Beyond the exact range of the doubles the inequality can
    fail: with baseline runs 9007199254740994, 1 and 0 the distances are
    9007199254740994 against 9007199254740992 and 1. *)
Theorem scoreDifference_is_a_metric :
  (forall (v : Variant) (a b : Score), scoreDifference v a b = scoreDifference v b a)
  /\ (forall a b : Score,
        (scoreDifference Advanced a b = JS.Finite 0 <-> finiteScore a = true /\ a = b)
        /\ (scoreDifference Baseline a b = JS.Finite 0
            <-> isFinite (runs a) = true /\ runs a = runs b))
  /\ (forall (v : Variant) (ar aw br bw cr cw : Z),
        Z.abs ar <= 2 ^ 49 -> Z.abs aw <= 2 ^ 49 -> Z.abs br <= 2 ^ 49 ->
        Z.abs bw <= 2 ^ 49 -> Z.abs cr <= 2 ^ 49 -> Z.abs cw <= 2 ^ 49 ->
        exists x y z,
          scoreDifference v (mkScore (JS.Finite ar) (JS.Finite aw))
                          (mkScore (JS.Finite cr) (JS.Finite cw)) = JS.Finite x
          /\ scoreDifference v (mkScore (JS.Finite ar) (JS.Finite aw))
                             (mkScore (JS.Finite br) (JS.Finite bw)) = JS.Finite y
          /\ scoreDifference v (mkScore (JS.Finite br) (JS.Finite bw))
                             (mkScore (JS.Finite cr) (JS.Finite cw)) = JS.Finite z
          /\ x <= y + z)
  /\ (scoreDifference Baseline (mkScore (JS.Finite 9007199254740994) (JS.Finite 0))
                      (mkScore (JS.Finite 0) (JS.Finite 0))
      = JS.Finite 9007199254740994
      /\ scoreDifference Baseline (mkScore (JS.Finite 9007199254740994) (JS.Finite 0))
                         (mkScore (JS.Finite 1) (JS.Finite 0))
         = JS.Finite 9007199254740992
      /\ scoreDifference Baseline (mkScore (JS.Finite 1) (JS.Finite 0))
                         (mkScore (JS.Finite 0) (JS.Finite 0))
         = JS.Finite 1).
Proof.
  split; [exact scoreDifference_sym |].
  split; [exact scoreDifference_zero_iff |].
  split; [exact scoreDifference_triangle |].
  split; [| split]; vm_compute; reflexivity.
Qed.

Lemma add_cases (x y : JS.number) :
  x = JS.NaN \/ nonNegative x -> y = JS.NaN \/ nonNegative y ->
  JS.add x y = JS.NaN \/ nonNegative (JS.add x y).
Proof.
  intros [-> | Hx]; [left; reflexivity |].
  intros [-> | Hy]; [left; destruct x; reflexivity |].
  right. apply add_nonNegative; assumption.
Qed.

Lemma rowDifference_cases (v : Variant) (r : PredictionWithMatch) :
  rowDifference v r = JS.NaN \/ nonNegative (rowDifference v r).
Proof.
  unfold rowDifference.
  destruct (scoreDifference_cases v
              (mkScore (predRuns (prediction r)) (predWickets (prediction r)))
              (mkScore (joinedActualRuns r) (joinedActualWickets r)))
    as [[H _] | H]; auto.
Qed.

Lemma rowDifference_finite (v : Variant) (r : PredictionWithMatch) :
  finiteRow r = true -> nonNegative (rowDifference v r).
Proof.
  unfold finiteRow. intro H. apply andb_true_iff in H. destruct H as [Hp Ha].
  apply scoreDifference_finite; assumption.
Qed.

Lemma rowDifference_zero_iff (r : PredictionWithMatch) :
  finiteRow r = true ->
  (rowDifference Advanced r = JS.Finite 0 <-> exactRow r).
Proof.
  unfold finiteRow, rowDifference, exactRow. intro H.
  apply andb_true_iff in H. destruct H as [Hp _].
  rewrite (proj1 (scoreDifference_zero_iff _ _)). split.
  - intros [_ E]. injection E as E1 E2. auto.
  - intros [E1 E2]. split; [exact Hp | rewrite E1, E2; reflexivity].
Qed.

(** The accumulation of [mystats] from [acc]: [NaN] or a non-negative
    number. *)
Lemma totalDifference_from_cases (v : Variant) (l : list PredictionWithMatch)
      (acc : JS.number) :
  acc = JS.NaN \/ nonNegative acc ->
  let total := fold_left (fun totalDiff stat => JS.add totalDiff (rowDifference v stat))
                         l acc in
  total = JS.NaN \/ nonNegative total.
Proof.
  revert acc. induction l as [|r l IH]; intros acc Hacc; [exact Hacc |].
  cbn [fold_left]. apply IH. apply add_cases; [exact Hacc | apply rowDifference_cases].
Qed.

(** Over rows of finite scores the accumulation is never [NaN], and it is
    zero exactly when it started at zero and every row is exact. *)
Lemma totalDifference_from_finite (l : list PredictionWithMatch) (acc : JS.number) :
  nonNegative acc ->
  (forall r, In r l -> finiteRow r = true) ->
  let total := fold_left (fun totalDiff stat =>
                            JS.add totalDiff (rowDifference Advanced stat)) l acc in
  nonNegative total
  /\ (total = JS.Finite 0 <-> acc = JS.Finite 0 /\ forall r, In r l -> exactRow r).
Proof.
  revert acc. induction l as [|r l IH]; intros acc Hacc Hfin.
  - split; [exact Hacc |]. split; [intro H; split; [exact H | intros ? []] | tauto].
  - cbn [fold_left].
    assert (Hr : finiteRow r = true) by (apply Hfin; left; reflexivity).
    pose proof (rowDifference_finite Advanced r Hr) as Hd.
    destruct (IH (JS.add acc (rowDifference Advanced r))
                 (add_nonNegative _ _ Hacc Hd)
                 (fun x Hx => Hfin x (or_intror Hx))) as [Hnn Hzero].
    split; [exact Hnn |].
    cbv zeta in Hzero. rewrite Hzero, (add_zero_iff _ _ Hacc Hd),
      (rowDifference_zero_iff r Hr).
    split.
    + intros [[Ha Hx] Hrest]. split; [exact Ha |].
      intros x [<- | Hin]; [exact Hx | apply Hrest, Hin].
    + intros [Ha Hall]. split; [split; [exact Ha | apply Hall; left; reflexivity] |].
      intros x Hin. apply Hall. right. exact Hin.
Qed.

(** X24. The statistics of a user (advanced variant) are either "no past
    predictions", exactly when [getUserStats] returns nothing, or a count
    of at least one with a total error that is never negative: a
    non-negative number, Infinity or NaN.  When every counted row has a
    finite prediction and a finite actual score the total is not NaN, and
    it is zero exactly when every counted prediction has the runs and the
    wickets of the actual score.  The total is NaN for a user whose
    prediction of a 310-digit runs figure met an actual score of 310
    digits. *)
Theorem mystats_total_error :
  (forall (ADMIN_IDS : list string) (st : State) (i : Interaction),
      command i = Mystats ->
      let stats := getUserStats (db st) (callerId i) in
      (stats = [] /\ fst (interactionCreate Advanced ADMIN_IDS st i) = NoPastPredictions)
      \/ (exists total,
            fst (interactionCreate Advanced ADMIN_IDS st i)
            = MyStats (List.length stats) total
            /\ (1 <= List.length stats)%nat
            /\ (total = JS.NaN \/ nonNegative total)
            /\ ((forall r, In r stats -> finiteRow r = true) ->
                nonNegative total
                /\ (total = JS.Finite 0 <-> forall r, In r stats -> exactRow r))))
  /\ fst (interactionCreate Advanced sampleAdmins hugeStatsState (mystatsOf "201" "userA"))
     = MyStats 1 JS.NaN.
Proof.
  split; [| vm_compute; reflexivity].
  intros ADMIN_IDS st i Hcmd stats.
  unfold interactionCreate. rewrite Hcmd. fold stats.
  destruct stats as [|r0 l] eqn:E; [left; split; reflexivity |].
  right. exists (totalDifference Advanced (r0 :: l)).
  split; [reflexivity |]. split; [simpl; lia |].
  split.
  - apply (totalDifference_from_cases Advanced (r0 :: l) (JS.Finite 0)).
    right. simpl. lia.
  - intro Hfin.
    destruct (totalDifference_from_finite (r0 :: l) (JS.Finite 0)
                ltac:(simpl; lia) Hfin) as [Hnn Hzero].
    split; [exact Hnn |].
    cbv zeta in Hzero. unfold totalDifference.
    fold (rowDifference Advanced) in Hzero.
    split.
    + intro H. apply Hzero. exact H.
    + intro H. apply Hzero. split; [reflexivity | exact H].
Qed.

Lemma mystats_total_error_witness :
  exists total,
    fst (interactionCreate Advanced sampleAdmins statsState (mystatsOf "301" "alice"))
    = MyStats 1 total
    /\ nonNegative total /\ total <> JS.Finite 0.
Proof.
  destruct (proj1 mystats_total_error sampleAdmins statsState (mystatsOf "301" "alice")
              eq_refl)
    as [[Hnone _] | (total & Hreply & _ & _ & Hfin)].
  - discriminate Hnone.
  - exists total. split; [exact Hreply |].
    destruct Hfin as [Hnn Hzero].
    + intros r [<- | []]. reflexivity.
    + split; [exact Hnn |]. intro H.
      destruct (proj1 Hzero H _ (or_introl eq_refl)) as [Hruns _]. discriminate Hruns.
Defined.

(* ===================================================================== *)
(** ** The list of administrators *)
(* ===================================================================== *)

Lemma split_after_blank (s : string) :
  map JS.trim (JS.split "," (String " " s)) = map JS.trim (JS.split "," s).
Proof.
  simpl. pose proof (split_not_nil "," s) as Hnil.
  destruct (JS.split "," s) as [|p ps]; [contradiction |]. reflexivity.
Qed.

Lemma adminIds_single (x : string) :
  noWhiteSpace x = true -> containsChar "," x = false ->
  map JS.trim (JS.split "," x) = [x].
Proof.
  intros Hs Hc. rewrite (split_without_separator "," x Hc). simpl.
  now rewrite (trim_clean x Hs).
Qed.

(** X25. [ADMIN_IDS] is read back from a comma-separated setting: for a
    non-empty list of ids without white space and commas, joined by a
    comma or by a comma and a blank, the ids obtained are that list, and
    each of them is recognised as an administrator. *)
Theorem adminIds_reads_the_setting :
  forall ids : list string,
    ids <> [] ->
    Forall (fun x => noWhiteSpace x = true /\ containsChar "," x = false) ids ->
    adminIds (Some (String.concat "," ids)) = ids
    /\ adminIds (Some (String.concat ", " ids)) = ids
    /\ forall uid, In uid ids ->
         isAdminOf (adminIds (Some (String.concat ", " ids))) uid = true.
Proof.
  intros ids Hne Hall.
  assert (H1 : adminIds (Some (String.concat "," ids)) = ids).
  { unfold adminIds. induction ids as [|x l IH]; [contradiction |].
    inversion Hall as [|? ? [Hs Hc] Hrest]; subst.
    destruct l as [|y l'].
    - simpl. apply adminIds_single; assumption.
    - change (String.concat "," (x :: y :: l'))
        with (x ++ String "," (String.concat "," (y :: l'))).
      rewrite (split_at_first_separator "," x _ Hc).
      cbn [map]. rewrite (trim_clean x Hs). f_equal.
      apply IH; [discriminate | exact Hrest]. }
  assert (H2 : adminIds (Some (String.concat ", " ids)) = ids).
  { unfold adminIds. clear H1. induction ids as [|x l IH]; [contradiction |].
    inversion Hall as [|? ? [Hs Hc] Hrest]; subst.
    destruct l as [|y l'].
    - simpl. apply adminIds_single; assumption.
    - change (String.concat ", " (x :: y :: l'))
        with (x ++ String "," (String " " (String.concat ", " (y :: l')))).
      rewrite (split_at_first_separator "," x _ Hc).
      cbn [map]. rewrite (trim_clean x Hs), split_after_blank. f_equal.
      apply IH; [discriminate | exact Hrest]. }
  split; [exact H1 |]. split; [exact H2 |].
  intros uid Hin. rewrite H2. unfold isAdminOf. apply existsb_exists.
  exists uid. split; [exact Hin | apply String.eqb_refl].
Qed.

Lemma adminIds_reads_the_setting_witness :
  adminIds (Some "100, 101") = ["100"; "101"]
  /\ isAdminOf (adminIds (Some "100, 101")) "101" = true.
Proof.
  destruct (adminIds_reads_the_setting ["100"; "101"]) as (_ & H2 & H3).
  - discriminate.
  - repeat constructor.
  - split; [exact H2 | apply H3; right; left; reflexivity].
Defined.

(** X26. With the ADMINS variable unset nobody is an administrator and the
    bot never leaves its initial state: whatever commands arrive, no match
    is created and no prediction is stored. *)
Theorem unset_admins_keep_the_bot_idle :
  forall (v : Variant) (trace : list Interaction),
    run v (adminIds None) initialState trace = initialState.
Proof.
  intros v trace. induction trace as [|i rest IH]; [reflexivity |].
  change (run v (adminIds None) initialState (i :: rest))
    with (run v (adminIds None)
              (snd (interactionCreate v (adminIds None) initialState i)) rest).
  assert (snd (interactionCreate v (adminIds None) initialState i) = initialState) as ->;
    [| exact IH].
  unfold interactionCreate. simpl.
  destruct (command i); destruct v; reflexivity.
Qed.

(* ===================================================================== *)
(** ** Past matches and the export *)
(* ===================================================================== *)

(** X27. The past command answers "no past matches" exactly when no stored
    match is closed; otherwise it lists the result of [getPastMatches],
    which is not empty. *)
Theorem past_lists_closed_matches :
  forall (v : Variant) (ADMIN_IDS : list string) (st : State) (i : Interaction),
    command i = Past ->
    (fst (interactionCreate v ADMIN_IDS st i) = NoPastMatches
     /\ forall m, In m (matches (db st)) -> isOpen m <> 0)
    \/ (fst (interactionCreate v ADMIN_IDS st i) = PastMatches (getPastMatches (db st))
        /\ exists m, In m (matches (db st)) /\ isOpen m = 0).
Proof.
  intros v ADMIN_IDS st i Hcmd. unfold interactionCreate. rewrite Hcmd.
  destruct (getPastMatches (db st)) as [|m l] eqn:E.
  - left. split; [destruct v; reflexivity |].
    intros m Hin Hz.
    assert (In m (getPastMatches (db st))) as H by (apply getPastMatches_in; auto).
    rewrite E in H. contradiction.
  - right. split; [destruct v; reflexivity |].
    exists m. apply getPastMatches_in. rewrite E. left. reflexivity.
Qed.

Lemma past_lists_closed_matches_witness :
  fst (interactionCreate Baseline sampleAdmins (sampleState Baseline)
         (mkInteraction "201" "userA" Past 1743500003000 noRandom))
  = NoPastMatches.
Proof.
  destruct (past_lists_closed_matches Baseline sampleAdmins (sampleState Baseline)
              (mkInteraction "201" "userA" Past 1743500003000 noRandom) eq_refl)
    as [[H _] | [H _]]; [exact H | discriminate H].
Defined.

(** X28. The export of an administrator (advanced variant) holds exactly
    the closed matches, latest first, and pairs each with exactly the
    predictions of that match; no open match is exported, and the state is
    not changed. *)
Theorem export_dumps_closed_matches :
  forall (ADMIN_IDS : list string) (st : State) (i : Interaction),
    command i = Export ->
    isAdminOf ADMIN_IDS (callerId i) = true ->
    exists details,
      interactionCreate Advanced ADMIN_IDS st i
      = (Exported (getPastMatches (db st)) details, st)
      /\ map fst details = getPastMatches (db st)
      /\ (forall m ps, In (m, ps) details ->
            In m (matches (db st)) /\ isOpen m = 0
            /\ forall p, In p ps <-> In p (predictions (db st)) /\ matchId p = id m)
      /\ (forall m, In m (matches (db st)) -> isOpen m = 0 ->
            In (m, getPredictionsForMatch (db st) (id m)) details).
Proof.
  intros ADMIN_IDS st i Hcmd Hadmin.
  exists (map (fun m => (m, getPredictionsForMatch (db st) (id m)))
              (getPastMatches (db st))).
  split; [| split; [| split]].
  - unfold interactionCreate. rewrite Hcmd, Hadmin. reflexivity.
  - rewrite map_map. simpl. apply map_id.
  - intros m ps Hin. apply in_map_iff in Hin. destruct Hin as (m0 & E & Hin).
    injection E as -> <-. apply getPastMatches_in in Hin. destruct Hin as [Hin Hz].
    split; [exact Hin |]. split; [exact Hz |].
    intro p. apply getPredictionsForMatch_in.
  - intros m Hin Hz. apply in_map_iff. exists m. split; [reflexivity |].
    apply getPastMatches_in. auto.
Qed.

Lemma export_dumps_closed_matches_witness :
  exists details,
    interactionCreate Advanced sampleAdmins statsState
      (mkInteraction "100" "admin" Export 1743500008000 noRandom)
    = (Exported (getPastMatches (db statsState)) details, statsState)
    /\ map fst details = getPastMatches (db statsState).
Proof.
  destruct (export_dumps_closed_matches sampleAdmins statsState
              (mkInteraction "100" "admin" Export 1743500008000 noRandom)
              eq_refl eq_refl) as (details & H1 & H2 & _).
  exists details. split; [exact H1 | exact H2].
Defined.

(* ===================================================================== *)
(** ** The winner and the order of enumeration *)
(* ===================================================================== *)

Lemma number_eq_dec (x y : JS.number) : {x = y} + {x <> y}.
Proof. decide equality. apply Z.eq_dec. Qed.

Lemma predictionRow_eq_dec (p q : PredictionRow) : {p = q} + {p <> q}.
Proof.
  decide equality; try apply string_dec; try apply number_eq_dec.
  decide equality. apply string_dec.
Qed.

Lemma firstClosest_in (v : Variant) (actualScore : Score)
      (preds : list PredictionRow) (w : PredictionRow) :
  firstClosest v actualScore preds w ->
  In w preds /\ canWin v actualScore w
  /\ forall p, In p preds ->
               JS.ltb (distanceOf v actualScore p) (distanceOf v actualScore w) = false.
Proof.
  intros (before & after & Hsplit & Hcan & Hmin & _).
  split; [| split; [exact Hcan | exact Hmin]].
  rewrite Hsplit. apply in_or_app. right. left. reflexivity.
Qed.

(** X29. The order in which the store enumerates the predictions can only
    decide between equally close predictions: for two enumerations of the
    same predictions there is a winner in both or in neither, and the two
    winners have the same distance; and a prediction that can win and is
    strictly closer than every other one whose distance is a number wins
    in any order. *)
Theorem enumeration_order_only_breaks_ties :
  forall (v : Variant) (actualScore : Score) (preds preds' : list PredictionRow),
    Permutation preds preds' ->
    match selectWinner v actualScore preds, selectWinner v actualScore preds' with
    | Some w, Some w' => distanceOf v actualScore w = distanceOf v actualScore w'
    | None, None => True
    | _, _ => False
    end
    /\ forall p,
         In p preds ->
         canWin v actualScore p ->
         (forall q, In q preds -> q <> p ->
                    JS.ltb (distanceOf v actualScore p) (distanceOf v actualScore q) = true
                    \/ distanceOf v actualScore q = JS.NaN) ->
         selectWinner v actualScore preds' = Some p.
Proof.
  intros v actualScore preds preds' Hperm.
  pose proof (selectWinner_resolved v actualScore preds) as H.
  pose proof (selectWinner_resolved v actualScore preds') as H'.
  split.
  - destruct (selectWinner v actualScore preds) as [w|],
             (selectWinner v actualScore preds') as [w'|]; cbn [resolvedWinner] in H, H'.
    + apply firstClosest_in in H. destruct H as (Hin & Hcan & Hmin).
      apply firstClosest_in in H'. destruct H' as (Hin' & Hcan' & Hmin').
      pose proof (Hmin w' (Permutation_in _ (Permutation_sym Hperm) Hin')) as H1.
      pose proof (Hmin' w (Permutation_in _ Hperm Hin)) as H2.
      destruct (ltb_total _ _ (proj1 (ltb_not_NaN _ _ Hcan)) (proj1 (ltb_not_NaN _ _ Hcan')))
        as [E | [E | E]]; [congruence | exact E | congruence].
    + apply firstClosest_in in H. destruct H as (Hin & Hcan & _).
      exact (H' w (Permutation_in _ Hperm Hin) Hcan).
    + apply firstClosest_in in H'. destruct H' as (Hin' & Hcan' & _).
      exact (H w' (Permutation_in _ (Permutation_sym Hperm) Hin') Hcan').
    + exact I.
  - intros p Hp Hcan Hstrict.
    destruct (selectWinner v actualScore preds') as [w'|]; cbn [resolvedWinner] in H'.
    + apply firstClosest_in in H'. destruct H' as (Hin' & Hcan' & Hmin').
      destruct (predictionRow_eq_dec w' p) as [-> | Hne]; [reflexivity |].
      exfalso.
      destruct (Hstrict w' (Permutation_in _ (Permutation_sym Hperm) Hin') Hne)
        as [Hlt | Hnan].
      * rewrite (Hmin' p (Permutation_in _ Hperm Hp)) in Hlt. discriminate Hlt.
      * exact (proj1 (ltb_not_NaN _ _ Hcan') Hnan).
    + exfalso. exact (H' p (Permutation_in _ Hperm Hp) Hcan).
Qed.

Lemma enumeration_order_only_breaks_ties_witness :
  let a := mkPredictionRow "1743500000000" "201" "userA"
                           (JS.Finite 180) (JS.Finite 5) None in
  let b := mkPredictionRow "1743500000000" "202" "userB"
                           (JS.Finite 175) (JS.Finite 6) None in
  selectWinner Baseline (mkScore (JS.Finite 178) (JS.Finite 5)) [b; a] = Some a.
Proof.
  intros a b.
  apply (proj2 (enumeration_order_only_breaks_ties Baseline
                  (mkScore (JS.Finite 178) (JS.Finite 5))
                  [a; b] [b; a] (perm_swap b a [])) a).
  - left. reflexivity.
  - vm_compute. reflexivity.
  - intros q [<- | [<- | []]] Hne; [contradiction | left; vm_compute; reflexivity].
Defined.

Lemma getPastMatches_closed_latest_first_witness :
  In (mkMatchRow "1743500000000" "TPF" "Batting first" "Pune" "2025-04-01"
                 0 (Some (JS.Finite 178)) (Some (JS.Finite 5)))
     (getPastMatches (db statsState)).
Proof.
  apply (proj1 (proj2 (getPastMatches_closed_latest_first (db statsState)))).
  split; [left; reflexivity | reflexivity].
Defined.

Lemma scoreDifference_is_a_metric_witness :
  exists x y z,
    scoreDifference Advanced (mkScore (JS.Finite 200) (JS.Finite 3))
                    (mkScore (JS.Finite 178) (JS.Finite 5)) = JS.Finite x
    /\ scoreDifference Advanced (mkScore (JS.Finite 200) (JS.Finite 3))
                       (mkScore (JS.Finite 190) (JS.Finite 7)) = JS.Finite y
    /\ scoreDifference Advanced (mkScore (JS.Finite 190) (JS.Finite 7))
                       (mkScore (JS.Finite 178) (JS.Finite 5)) = JS.Finite z
    /\ x <= y + z.
Proof.
  apply (proj1 (proj2 (proj2 scoreDifference_is_a_metric)) Advanced 200 3 190 7 178 5);
    vm_compute; discriminate.
Defined.
